(** * EU_Compliance: the regulatory-update monitoring pipeline

    A shallow embedding of the parts of the repository that the
    specification talks about:

    - [src/eu_regulatory_scraper.py]: [EURegulatoryScraper._format_ojdate];
    - [src/ai_compliance_analyzer.py]: [AIComplianceAnalyzer.analyze_compliance];
    - [src/monitoring_system.py]: [ComplianceMonitoringSystem.check_regulatory_updates],
      [_check_and_send_alerts] and [_send_alerts_to_clients].

    Python dictionaries with string keys are finite maps ([gmap string _]),
    Python lists are lists, and Python [str] values that are only stored,
    compared and shown are [string]s.  Where the code looks at the characters
    of a string (the date normalizer: [strip], [\d], [int]), the string is
    the sequence of its code points ([text]).  Files, the clock, the SMTP
    server and the scraper are an explicit environment that the functions
    read from and write to. *)

From Stdlib Require Import ZArith Lia Ascii String.
From stdpp Require Import base strings list sorting gmap.

Local Open Scope Z_scope.

(** ** Python values *)

(** The values that the fields of an update record hold: a JSON string or
    [None] (JSON [null]; the scraper stores [None] as the url of a row
    without a link). *)
Inductive pyval :=
  | PNone
  | PStr (s : string).

#[global] Instance pyval_eq_dec : EqDecision pyval.
Proof. solve_decision. Defined.

(** Exceptions that the modelled code raises or catches. *)
Inductive exn :=
  | ValueError
  | TypeError
  | OverflowError
  | JSONDecodeError
  | IOError
  | SMTPException.

(** The outcome of a call that may raise. *)
Inductive result (A : Type) :=
  | Ok (a : A)
  | Raise (e : exn).
Arguments Ok {A} a.
Arguments Raise {A} e.

(** [d.get(k)]: the value under [k], [None] without the key. *)
Definition dict_get (d : gmap string pyval) (k : string) : pyval :=
  default PNone (d !! k).

(** [d.get(k, dflt)]. *)
Definition dict_get_or (d : gmap string pyval) (k : string) (dflt : pyval) : pyval :=
  default dflt (d !! k).

(** [str(v)] as an f-string renders a field. *)
Definition py_str (v : pyval) : string :=
  match v with
  | PNone => "None"
  | PStr s => s
  end.

(** [a >= b] on Python values: defined between two strings (comparison by
    code points, here by characters), a [TypeError] otherwise. *)
Definition py_ge (a b : pyval) : result bool :=
  match a, b with
  | PStr x, PStr y => Ok (String.leb y x)
  | _, _ => Raise TypeError
  end.

(** ** Decimal formatting *)

Definition digit_char (d : Z) : ascii :=
  ascii_of_nat (48 + Z.to_nat d).

(** The [w] low-order decimal digits of [n], most significant first. *)
Fixpoint digits_fix (w : nat) (n : Z) : string :=
  match w with
  | O => EmptyString
  | S w' => digits_fix w' (n / 10) +:+ String (digit_char (n mod 10)) EmptyString
  end.

Fixpoint ndigits_aux (fuel : nat) (n : Z) : nat :=
  match fuel with
  | O => 1%nat
  | S f => if n <? 10 then 1%nat else S (ndigits_aux f (n / 10))
  end.

(** Number of decimal digits of [n >= 0] (at least one). *)
Definition ndigits (n : Z) : nat := ndigits_aux (Z.to_nat n) n.

(** [f"{n:0wd}"] for [n >= 0]: decimal, zero-padded to at least [w]
    characters, never truncated. *)
Definition fmt_0d (w : nat) (n : Z) : string :=
  digits_fix (Nat.max w (ndigits n)) n.

(** ** [datetime] (the part of the standard library the code relies on)

    A naive [datetime] is kept as CPython keeps it for arithmetic: the
    proleptic Gregorian ordinal of its day (1 is 0001-01-01) and the
    microseconds since midnight.  [_ord2ymd], [isoformat], [strftime] and
    subtraction of a [timedelta] of whole days follow CPython's
    [Lib/_pydatetime.py]. *)
Module datetime.

Record t := mk { ordinal : Z; usec : Z }.

Definition _MAXORDINAL : Z := 3652059.
Definition _DI400Y : Z := 146097.
Definition _DI100Y : Z := 36524.
Definition _DI4Y : Z := 1461.
Definition day_usec : Z := 86400000000.

(** The datetimes Python can represent: years 1 to 9999. *)
Definition valid (d : t) : Prop :=
  1 <= ordinal d <= _MAXORDINAL /\ 0 <= usec d < day_usec.

(** Chronological order. *)
Definition le (a b : t) : Prop :=
  ordinal a < ordinal b \/ (ordinal a = ordinal b /\ usec a <= usec b).

Definition lt (a b : t) : Prop :=
  ordinal a < ordinal b \/ (ordinal a = ordinal b /\ usec a < usec b).

Definition _DAYS_IN_MONTH (month : Z) : Z :=
  match month with
  | 1 => 31 | 2 => 28 | 3 => 31 | 4 => 30 | 5 => 31 | 6 => 30
  | 7 => 31 | 8 => 31 | 9 => 30 | 10 => 31 | 11 => 30 | 12 => 31
  | _ => -1
  end.

Definition _DAYS_BEFORE_MONTH (month : Z) : Z :=
  match month with
  | 1 => 0 | 2 => 31 | 3 => 59 | 4 => 90 | 5 => 120 | 6 => 151
  | 7 => 181 | 8 => 212 | 9 => 243 | 10 => 273 | 11 => 304 | 12 => 334
  | _ => -1
  end.

Definition b2z (b : bool) : Z := if b then 1 else 0.

(** The year, month and day within one 400-year cycle, from the offset
    [n] (0-based) into the cycle; the year is 1-based. *)
Definition ymd_in_cycle (n : Z) : Z * Z * Z :=
  let n100 := n / _DI100Y in
  let n := n mod _DI100Y in
  let n4 := n / _DI4Y in
  let n := n mod _DI4Y in
  let n1 := n / 365 in
  let n := n mod 365 in
  let year := 1 + n100 * 100 + n4 * 4 + n1 in
  if (n1 =? 4) || (n100 =? 4) then (year - 1, 12, 31)
  else
    let leapyear := (n1 =? 3) && (negb (n4 =? 24) || (n100 =? 3)) in
    let month := Z.shiftr (n + 50) 5 in
    let preceding := _DAYS_BEFORE_MONTH month + b2z ((2 <? month) && leapyear) in
    if n <? preceding then
      let month' := month - 1 in
      let preceding' :=
        preceding - (_DAYS_IN_MONTH month' + b2z ((month' =? 2) && leapyear)) in
      (year, month', n - preceding' + 1)
    else (year, month, n - preceding + 1).

(** [_ord2ymd(n)]: ordinal to (year, month, day). *)
Definition _ord2ymd (n : Z) : Z * Z * Z :=
  let n := n - 1 in
  let n400 := n / _DI400Y in
  let '(y, m, d) := ymd_in_cycle (n mod _DI400Y) in
  (n400 * 400 + y, m, d).

Definition hour (d : t) : Z := usec d / 3600000000.
Definition minute (d : t) : Z := (usec d / 60000000) mod 60.
Definition second (d : t) : Z := (usec d / 1000000) mod 60.
Definition microsecond (d : t) : Z := usec d mod 1000000.

(** [d.isoformat()]: [YYYY-MM-DDTHH:MM:SS], followed by [.ffffff] when
    the microsecond is not zero. *)
Definition isoformat (d : t) : string :=
  let '(y, m, dd) := _ord2ymd (ordinal d) in
  fmt_0d 4 y +:+ "-" +:+ fmt_0d 2 m +:+ "-" +:+ fmt_0d 2 dd +:+ "T" +:+
  fmt_0d 2 (hour d) +:+ ":" +:+ fmt_0d 2 (minute d) +:+ ":" +:+ fmt_0d 2 (second d) +:+
  (if microsecond d =? 0 then "" else "." +:+ fmt_0d 6 (microsecond d)).

(** [%Y] of [strftime], which hands the format to the C library: the
    year in decimal.  glibc does not pad it, so a year before 1000 is written
    with fewer than four digits (C libraries that pad write the same from
    the year 1000 on). *)
Definition strftime_Y (y : Z) : string := fmt_0d 1 y.

(** [d.strftime('%Y%m%d_%H%M%S')]. *)
Definition strftime_Ymd_HMS (d : t) : string :=
  let '(y, m, dd) := _ord2ymd (ordinal d) in
  strftime_Y y +:+ fmt_0d 2 m +:+ fmt_0d 2 dd +:+ "_" +:+
  fmt_0d 2 (hour d) +:+ fmt_0d 2 (minute d) +:+ fmt_0d 2 (second d).

(** [d.strftime("%d%m%Y")]. *)
Definition strftime_dmY (d : t) : string :=
  let '(y, m, dd) := _ord2ymd (ordinal d) in
  fmt_0d 2 dd +:+ fmt_0d 2 m +:+ strftime_Y y.

(** [d - timedelta(days=k)]: the same time of day [k] days earlier;
    [OverflowError] when the day falls before 0001-01-01 or after
    9999-12-31. *)
Definition sub_days (d : t) (k : Z) : result t :=
  let o := ordinal d - k in
  if (0 <? o) && (o <=? _MAXORDINAL) then Ok (mk o (usec d))
  else Raise OverflowError.

End datetime.

(** ** [monitoring_system.py]: data *)

(** An update record: the dictionary the scraper builds for one row, with
    keys [title], [date], [content], [url], [source], [method], and
    [discovered_date] once it is merged. *)
Abbreviation update := (gmap string pyval).

(** [regulatory_updates.json]: source name to the list of its records,
    oldest first. *)
Abbreviation update_log := (gmap string (list (gmap string pyval))).

(** One entry of [client_alerts_db.json]. *)
Record alert_event := mk_alert {
  ae_id : string;
  ae_date : string;
  ae_update_count : Z;
  ae_updates_sent : bool
}.

Abbreviation ledger := (gmap string alert_event).

(** [clients_db.json]: client id to the client's dictionary. *)
Abbreviation clients := (gmap string (gmap string pyval)).

(** The part of [config.json] that the alerting reads:
    [config['monitoring']['alert_threshold']], when present. *)
Record config := mk_config {
  monitoring_alert_threshold : option Z
}.

(** The three JSON files.  [None] stands for a file that cannot be loaded:
    missing, or not a JSON document ([open] or [json.load] raises). *)
Record files := mk_files {
  regulatory_updates_db : option update_log;
  client_alerts_db : option ledger;
  clients_db : option clients
}.

(** What a write of a JSON file may do.  [open(path, 'w')] truncates the
    file as soon as it succeeds, so a failure after it (in [json.dump] or on
    close) leaves at most a proper prefix of the document, which does not
    load any more. *)
Inductive write_outcome :=
  | WriteOk
  | WriteFailsOnOpen
  | WriteFailsAfterOpen.

(** The calls to [self.logger]. *)
Inductive log_entry :=
  | ErrorLoadingUpdates
  | ErrorCheckingForUpdates (e : exn)
  | InfoNewUpdateFound (regulation_type : string) (title : pyval)
  | InfoSavedUpdates
  | ErrorSavingUpdates (e : exn)
  | ErrorLoadingClientAlerts
  | ErrorLoadingClients
  | InfoThresholdReached (recent_update_count : Z)
  | InfoAlertSent (email : string)
  | ErrorFailedToSend (email : string) (e : exn)
  | InfoUpdatedAlertHistory
  | ErrorSavingAlertHistory (e : exn).

(** One update as the e-mail body shows it. *)
Record rendered_update := mk_rendered {
  r_title : string;
  r_date : string;
  r_content : string;
  r_url : string
}.

(** The variable part of the HTML body: per source, the heading and the
    updates shown under it.  The fixed markup around them is left out. *)
Abbreviation payload := (list (string * list rendered_update)).

(** A message handed to the SMTP server. *)
Record mail := mk_mail {
  mail_client : string;
  mail_to : string;
  mail_body : payload
}.

(** What the process has done so far: the files, the number of
    [datetime.now()] calls made, the log, and the mail delivered. *)
Record world := mk_world {
  fs : files;
  tick : nat;
  trace : list log_entry;
  outbox : list mail
}.

(** What the surroundings answer during one cycle: the reading of each
    successive [datetime.now()] call, what [scraper.check_for_updates()]
    returns, how the two writes end, and for which clients the SMTP
    exchange succeeds. *)
Record env := mk_env {
  clock : nat -> datetime.t;
  scraper_check_for_updates : result (list (string * list update));
  write_regulatory_updates : write_outcome;
  write_client_alerts : write_outcome;
  smtp_delivers : string -> bool
}.

Definition log_msg (m : log_entry) (w : world) : world :=
  mk_world (fs w) (tick w) (trace w ++ [m]) (outbox w).

Definition set_fs (f : files) (w : world) : world :=
  mk_world f (tick w) (trace w) (outbox w).

(** ** [check_regulatory_updates]: the merge (lines 131-150) *)

(** The loop of lines 140-144: no record of [existing] has the title of
    [u]. *)
Fixpoint is_new (existing : list update) (u : update) : bool :=
  match existing with
  | [] => true
  | existing_update :: rest =>
      if decide (dict_get existing_update "title" = dict_get u "title") then false
      else is_new rest u
  end.

Record merge_state := mk_merge {
  ms_log : update_log;
  ms_has_new : bool;
  ms_tick : nat;
  ms_trace : list log_entry
}.

(** [update['discovered_date'] = datetime.now().isoformat()]. *)
Definition stamp (now : datetime.t) (u : update) : update :=
  <["discovered_date" := PStr (datetime.isoformat now)]> u.

(** The body of the loop over one source's updates (lines 138-150). *)
Definition merge_update (clk : nat -> datetime.t) (regulation_type : string)
    (st : merge_state) (u : update) : merge_state :=
  let current := default [] (ms_log st !! regulation_type) in
  if is_new current u then
    mk_merge
      (<[regulation_type := current ++ [stamp (clk (ms_tick st)) u]]> (ms_log st))
      true
      (S (ms_tick st))
      (ms_trace st ++ [InfoNewUpdateFound regulation_type (dict_get u "title")])
  else st.

(** Lines 134-135: a source not yet in the log starts with an empty list. *)
Definition ensure_source (regulation_type : string) (st : merge_state) : merge_state :=
  match ms_log st !! regulation_type with
  | Some _ => st
  | None =>
      mk_merge (<[regulation_type := []]> (ms_log st)) (ms_has_new st) (ms_tick st)
        (ms_trace st)
  end.

(** The body of the loop over [new_updates.items()] (lines 133-150). *)
Definition merge_source (clk : nat -> datetime.t) (st : merge_state)
    (item : string * list update) : merge_state :=
  foldl (merge_update clk (fst item)) (ensure_source (fst item) st) (snd item).

(** Lines 131-150, from the [k0]-th reading of the clock on. *)
Definition merge (clk : nat -> datetime.t) (k0 : nat) (existing_updates : update_log)
    (new_updates : list (string * list update)) : merge_state :=
  foldl (merge_source clk) (mk_merge existing_updates false k0 []) new_updates.

(** ** [_check_and_send_alerts]: the count (lines 192-199) *)

(** The inner loop over one source's records. *)
Fixpoint count_list (threshold_date : string) (regulation_updates : list update)
    (recent_update_count : Z) : result Z :=
  match regulation_updates with
  | [] => Ok recent_update_count
  | u :: rest =>
      match py_ge (dict_get_or u "discovered_date" (PStr "")) (PStr threshold_date) with
      | Ok true => count_list threshold_date rest (recent_update_count + 1)
      | Ok false => count_list threshold_date rest recent_update_count
      | Raise e => Raise e
      end
  end.

(** The outer loop over [updates.items()]. *)
Fixpoint count_items (threshold_date : string) (items : list (string * list update))
    (recent_update_count : Z) : result Z :=
  match items with
  | [] => Ok recent_update_count
  | (_, regulation_updates) :: rest =>
      match count_list threshold_date regulation_updates recent_update_count with
      | Ok n => count_items threshold_date rest n
      | Raise e => Raise e
      end
  end.

Definition count_recent (updates : update_log) (threshold_date : string) : result Z :=
  count_items threshold_date (map_to_list updates) 0.

(** [self.config.get('monitoring', {}).get('alert_threshold', 3)]. *)
Definition alert_threshold (cfg : config) : Z :=
  default 3 (monitoring_alert_threshold cfg).

(** ** [_send_alerts_to_clients] (lines 227-312) *)

Definition is_str (v : pyval) : bool :=
  match v with PStr _ => true | PNone => false end.

Definition discovered_key (u : update) : pyval :=
  dict_get_or u "discovered_date" (PStr "").

(** Places [x] behind every element whose key is not smaller. *)
Fixpoint insert_desc (x : update) (l : list update) : list update :=
  match l with
  | [] => [x]
  | y :: rest =>
      if String.ltb (py_str (discovered_key y)) (py_str (discovered_key x))
      then x :: y :: rest
      else y :: insert_desc x rest
  end.

(** [sorted(l, key=lambda x: x.get('discovered_date', ''), reverse=True)]:
    newest first, records with equal keys in their original order.  With two
    or more records the keys are compared, which raises [TypeError] when one
    of them is [None]. *)
Definition sorted_discovered_desc (l : list update) : result (list update) :=
  if (2 <=? length l)%nat && negb (forallb is_str (discovered_key <$> l))
  then Raise TypeError
  else Ok (foldl (fun acc x => insert_desc x acc) [] l).

Definition render_update (u : update) : rendered_update :=
  mk_rendered
    (py_str (dict_get_or u "title" (PStr "Untitled")))
    (py_str (dict_get_or u "date" (PStr "Unknown")))
    (py_str (dict_get_or u "content" (PStr "No content available")))
    (py_str (dict_get_or u "url" (PStr "#"))).

Definition upper_char (c : ascii) : ascii :=
  let n := nat_of_ascii c in
  if (97 <=? n)%nat && (n <=? 122)%nat then ascii_of_nat (n - 32) else c.

(** [s.upper()] on ASCII text. *)
Fixpoint upper (s : string) : string :=
  match s with
  | EmptyString => EmptyString
  | String c rest => String (upper_char c) (upper rest)
  end.

(** Lines 255-272: one section per source of [updates]. *)
Fixpoint compose_items (items : list (string * list update)) : result payload :=
  match items with
  | [] => Ok []
  | (regulation_type, regulation_updates) :: rest =>
      match sorted_discovered_desc regulation_updates with
      | Raise e => Raise e
      | Ok sorted =>
          let recent_updates := take 3 sorted in
          match compose_items rest with
          | Raise e => Raise e
          | Ok body => Ok ((upper regulation_type, render_update <$> recent_updates) :: body)
          end
      end
  end.

Definition compose_body (updates : update_log) : result payload :=
  compose_items (map_to_list updates).

(** The [try] of lines 290-312 for one client. *)
Definition send_one (e : env) (body : payload) (w : world)
    (client : string * gmap string pyval) : world :=
  let email := py_str (dict_get_or (snd client) "email" (PStr "")) in
  if smtp_delivers e (fst client) then
    log_msg (InfoAlertSent email)
      (mk_world (fs w) (tick w) (trace w) (outbox w ++ [mk_mail (fst client) email body]))
  else log_msg (ErrorFailedToSend email SMTPException) w.

(** Lines 286-312: the loop over [clients.items()]. *)
Definition send_all (e : env) (body : payload) (cl : clients) (w : world) : world :=
  foldl (send_one e body) w (map_to_list cl).

Definition _send_alerts_to_clients (e : env) (updates : update_log) (cl : clients)
    (w : world) : world * option exn :=
  match compose_body updates with
  | Raise x => (w, Some x)
  | Ok body => (send_all e body cl w, None)
  end.

(** ** [_check_and_send_alerts] (lines 166-225) *)

(** [datetime.now()]: the next reading of the clock. *)
Definition now (e : env) (w : world) : datetime.t * world :=
  (clock e (tick w), mk_world (fs w) (S (tick w)) (trace w) (outbox w)).

(** [f"alert_{datetime.now().strftime('%Y%m%d_%H%M%S')}"]. *)
Definition make_alert_id (d : datetime.t) : string :=
  "alert_" +:+ datetime.strftime_Ymd_HMS d.

(** Lines 210-217: the new entry goes under its id. *)
Definition record_alert (client_alerts : ledger) (id_time date_time : datetime.t)
    (recent_update_count : Z) : ledger :=
  let alert_id := make_alert_id id_time in
  <[alert_id := mk_alert alert_id (datetime.isoformat date_time) recent_update_count true]>
    client_alerts.

(** Lines 219-225: the whole ledger is written back. *)
Definition save_alert_history (e : env) (client_alerts : ledger) (w : world) : world :=
  match write_client_alerts e with
  | WriteOk =>
      log_msg InfoUpdatedAlertHistory
        (set_fs (mk_files (regulatory_updates_db (fs w)) (Some client_alerts)
                   (clients_db (fs w))) w)
  | WriteFailsOnOpen => log_msg (ErrorSavingAlertHistory IOError) w
  | WriteFailsAfterOpen =>
      log_msg (ErrorSavingAlertHistory IOError)
        (set_fs (mk_files (regulatory_updates_db (fs w)) None (clients_db (fs w))) w)
  end.

(** The function returns the world it leaves and the exception that
    escapes it, if any. *)
Definition _check_and_send_alerts (cfg : config) (e : env) (w : world)
    : world * option exn :=
  match regulatory_updates_db (fs w) with
  | None => (log_msg ErrorLoadingUpdates w, None)
  | Some updates =>
      let '(client_alerts, w) :=
        match client_alerts_db (fs w) with
        | Some a => (a, w)
        | None => (∅, log_msg ErrorLoadingClientAlerts w)
        end in
      let '(cl, w) :=
        match clients_db (fs w) with
        | Some c => (c, w)
        | None => (∅, log_msg ErrorLoadingClients w)
        end in
      let '(t0, w) := now e w in
      match datetime.sub_days t0 7 with
      | Raise x => (w, Some x)
      | Ok threshold =>
          match count_recent updates (datetime.isoformat threshold) with
          | Raise x => (w, Some x)
          | Ok recent_update_count =>
              if alert_threshold cfg <=? recent_update_count then
                let w := log_msg (InfoThresholdReached recent_update_count) w in
                match _send_alerts_to_clients e updates cl w with
                | (w, Some x) => (w, Some x)
                | (w, None) =>
                    let '(t1, w) := now e w in
                    let '(t2, w) := now e w in
                    (save_alert_history e
                       (record_alert client_alerts t1 t2 recent_update_count) w, None)
                end
              else (w, None)
          end
      end
  end.

(** ** [check_regulatory_updates] (lines 110-164) *)

Definition check_regulatory_updates (cfg : config) (e : env) (w : world)
    : world * result bool :=
  let '(existing_updates, w) :=
    match regulatory_updates_db (fs w) with
    | Some l => (l, w)
    | None => (∅, log_msg ErrorLoadingUpdates w)
    end in
  match scraper_check_for_updates e with
  | Raise x => (log_msg (ErrorCheckingForUpdates x) w, Ok false)
  | Ok new_updates =>
      let st := merge (clock e) (tick w) existing_updates new_updates in
      let w := mk_world (fs w) (ms_tick st) (trace w ++ ms_trace st) (outbox w) in
      if ms_has_new st then
        match write_regulatory_updates e with
        | WriteOk =>
            let w :=
              log_msg InfoSavedUpdates
                (set_fs (mk_files (Some (ms_log st)) (client_alerts_db (fs w))
                           (clients_db (fs w))) w) in
            match _check_and_send_alerts cfg e w with
            | (w, None) => (w, Ok true)
            | (w, Some x) => (log_msg (ErrorSavingUpdates x) w, Ok true)
            end
        | WriteFailsOnOpen => (log_msg (ErrorSavingUpdates IOError) w, Ok true)
        | WriteFailsAfterOpen =>
            (log_msg (ErrorSavingUpdates IOError)
               (set_fs (mk_files None (client_alerts_db (fs w)) (clients_db (fs w))) w),
             Ok true)
        end
      else (w, Ok false)
  end.

(** ** [eu_regulatory_scraper.py]: [_format_ojdate] (lines 150-179) *)

(** A Python [str] as the sequence of its code points. *)
Abbreviation text := (list N).

(** The text of a string of ASCII characters. *)
Definition codes (s : string) : text := N_of_ascii <$> list_ascii_of_string s.

(** The decimal digits of Unicode 14.0 (category [Nd]), the version of
    CPython 3.11: they come in runs of ten, from the zero to the nine.  Here
    are the zeros. *)
Definition decimal_zeros : list N :=
  [48; 1632; 1776; 1984; 2406; 2534; 2662; 2790; 2918; 3046; 3174; 3302; 3430;
   3558; 3664; 3792; 3872; 4160; 4240; 6112; 6160; 6470; 6608; 6784; 6800; 6992;
   7088; 7232; 7248; 42528; 43216; 43264; 43472; 43504; 43600; 44016; 65296;
   66720; 68912; 69734; 69872; 69942; 70096; 70384; 70736; 70864; 71248; 71360;
   71472; 71904; 72016; 72784; 73040; 73120; 92768; 92864; 93008; 120782;
   120792; 120802; 120812; 120822; 123200; 123632; 125264; 130032]%N.

(** [unicodedata.decimal(c)]: the value of a decimal digit. *)
Definition decimal_value (c : N) : option N :=
  (fun zero => c - zero)%N <$>
  find (fun zero => (zero <=? c) && (c <? zero + 10))%N decimal_zeros.

(** [\d] in a pattern for [str], and the characters [int] reads as
    digits: the decimal digits. *)
Definition is_digit (c : N) : bool :=
  match decimal_value c with Some _ => true | None => false end.

(** The characters that [str.strip()] removes ([c.isspace()]). *)
Definition white_space : list N :=
  [9; 10; 11; 12; 13; 28; 29; 30; 31; 32; 133; 160; 5760; 8192; 8193; 8194;
   8195; 8196; 8197; 8198; 8199; 8200; 8201; 8202; 8232; 8233; 8239; 8287;
   12288]%N.

Definition is_space (c : N) : bool := existsb (N.eqb c) white_space.

(** What [_format_ojdate] may be handed: a [datetime] or [date] object, a
    string, or any other object (the [ojDate] entry of the configuration is
    whatever JSON value the file holds). *)
Inductive date_input :=
  | InDate (d : datetime.t)
  | InStr (s : text)
  | InOther.

Fixpoint lstrip (l : text) : text :=
  match l with
  | c :: rest => if is_space c then lstrip rest else l
  | [] => []
  end.

(** [s.strip()]. *)
Definition strip (l : text) : text :=
  rev (lstrip (rev (lstrip l))).

(** A pattern maps the input to the ways it can match a prefix of it, in
    the order the backtracking matcher tries them: what it captured, and the
    rest of the input. *)
Definition pattern (A : Type) : Type := text -> list (A * text).

(** [\d{0,hi}], greedy: the longest run first. *)
Fixpoint digits_upto (hi : nat) : pattern text :=
  fun l =>
    match hi, l with
    | S h, c :: rest =>
        if is_digit c
        then ((fun p => (c :: fst p, snd p)) <$> digits_upto h rest) ++ [([], l)]
        else [([], l)]
    | _, _ => [([], l)]
    end.

(** [(\d{lo,hi})]. *)
Definition digits (lo hi : nat) : pattern text :=
  fun l => filter (fun p => (lo <=? length (fst p))%nat = true) (digits_upto hi l).

(** A literal character. *)
Definition lit (c : N) : pattern unit :=
  fun l =>
    match l with
    | x :: rest => if N.eqb x c then [(tt, rest)] else []
    | [] => []
    end.

(** The character [-]. *)
Definition dash : N := 45%N.

(** [$]: the end of the input ([strip()] has removed a final newline, before
    which [$] would match as well). *)
Definition eos : pattern unit :=
  fun l => match l with [] => [(tt, [])] | _ => [] end.

Definition pbind {A B} (p : pattern A) (f : A -> pattern B) : pattern B :=
  fun l => x ← p l; f (fst x) (snd x).

Definition pret {A} (a : A) : pattern A := fun l => [(a, l)].

(** [re.match(p, s)]: the first way to match, if any. *)
Definition re_match {A} (p : pattern A) (s : text) : option A :=
  fst <$> head (p s).

(** [^(\d{4})-(\d{1,2})-(\d{1,2})$] *)
Definition re_ymd : pattern (text * text * text) :=
  pbind (digits 4 4) (fun y => pbind (lit dash) (fun _ =>
  pbind (digits 1 2) (fun mo => pbind (lit dash) (fun _ =>
  pbind (digits 1 2) (fun da => pbind eos (fun _ => pret (y, mo, da))))))).

(** [^(\d{1,2})-(\d{1,2})-(\d{4})$] *)
Definition re_dmy : pattern (text * text * text) :=
  pbind (digits 1 2) (fun da => pbind (lit dash) (fun _ =>
  pbind (digits 1 2) (fun mo => pbind (lit dash) (fun _ =>
  pbind (digits 4 4) (fun y => pbind eos (fun _ => pret (da, mo, y))))))).

(** [^(\d{2})(\d{2})(\d{4})$] *)
Definition re_compact : pattern (text * text * text) :=
  pbind (digits 2 2) (fun da => pbind (digits 2 2) (fun mo =>
  pbind (digits 4 4) (fun y => pbind eos (fun _ => pret (da, mo, y))))).

(** [int(s)] for a run of decimal digits. *)
Definition int_of_digits (l : text) : Z :=
  foldl (fun acc c => acc * 10 + Z.of_N (default 0%N (decimal_value c))) 0 l.

(** The year [y] is the text of the group, as it was written. *)
Definition _format_ojdate (date_input : date_input) : result text :=
  match date_input with
  | InDate d => Ok (codes (datetime.strftime_dmY d))
  | InStr str =>
      let s := strip str in
      match re_match re_ymd s with
      | Some (y, mo, da) =>
          Ok (codes (fmt_0d 2 (int_of_digits da)) ++
              codes (fmt_0d 2 (int_of_digits mo)) ++ y)
      | None =>
          match re_match re_dmy s with
          | Some (da, mo, y) =>
              Ok (codes (fmt_0d 2 (int_of_digits da)) ++
                  codes (fmt_0d 2 (int_of_digits mo)) ++ y)
          | None =>
              match re_match re_compact s with
              | Some _ => Ok s
              | None => Raise ValueError
              end
          end
      end
  | InOther => Raise ValueError
  end.

(** ** [ai_compliance_analyzer.py]: [analyze_compliance] (lines 42-88) *)

(** JSON values as [json.loads] and [response.json()] build them; a
    dictionary keeps its keys in insertion order. *)
#[warnings="-register-all"]
Inductive json :=
  | JNull
  | JBool (b : bool)
  | JInt (n : Z)
  | JStr (s : string)
  | JList (l : list json)
  | JDict (d : list (string * json)).

(** [d.get(k)] *)
Fixpoint jdict_get (d : list (string * json)) (k : string) : option json :=
  match d with
  | [] => None
  | (k', v) :: rest => if String.eqb k' k then Some v else jdict_get rest k
  end.

(** [d[k] = v]: in place when the key exists, at the end otherwise. *)
Fixpoint jdict_set (d : list (string * json)) (k : string) (v : json)
    : list (string * json) :=
  match d with
  | [] => [(k, v)]
  | (k', v') :: rest =>
      if String.eqb k' k then (k', v) :: rest else (k', v') :: jdict_set rest k v
  end.

(** Exceptions of the analyzer besides those above. *)
Inductive analyzer_exn :=
  | ApiError
  | AttributeError
  | IndexError
  | KeyError
  | NotAString
  | NoItemAssignment.

(** [str(e)]: the model keeps which exception it was. *)
Definition exn_text (e : analyzer_exn) : string :=
  match e with
  | ApiError => "API request failed"
  | AttributeError => "AttributeError"
  | IndexError => "IndexError"
  | KeyError => "KeyError"
  | NotAString => "TypeError: the JSON object must be str"
  | NoItemAssignment => "TypeError: item assignment"
  end.

(** What the analyzer's surroundings answer: [_call_deepseek_api] returns
    the decoded response or raises after its retries, [json.loads] decodes a
    text or raises [JSONDecodeError] ([None]), and the clock. *)
Record analyzer_env := mk_analyzer_env {
  call_deepseek_api : option json;
  json_loads : string -> option json;
  analysis_time : datetime.t
}.

(** [x.get(k, dflt)] on a value that must be a dictionary. *)
Definition get_attr (x : json) (k : string) (dflt : json) : analyzer_exn + json :=
  match x with
  | JDict d => inr (default dflt (jdict_get d k))
  | _ => inl AttributeError
  end.

(** [x[0]] *)
Definition index0 (x : json) : analyzer_exn + json :=
  match x with
  | JList (v :: _) => inr v
  | JList [] => inl IndexError
  | JDict _ => inl KeyError
  | JStr s =>
      match s with
      | String c _ => inr (JStr (String c EmptyString))
      | EmptyString => inl IndexError
      end
  | _ => inl KeyError
  end.

(** Line 57:
    [response.get('choices', [{}])[0].get('message', {}).get('content', '')]. *)
Definition response_content (response : json) : analyzer_exn + json :=
  match get_attr response "choices" (JList [JDict []]) with
  | inl x => inl x
  | inr choices =>
      match index0 choices with
      | inl x => inl x
      | inr choice =>
          match get_attr choice "message" (JDict []) with
          | inl x => inl x
          | inr message => get_attr message "content" (JStr "")
          end
      end
  end.

(** Lines 64-71: the result built when the content is not JSON. *)
Definition parse_fallback (response_content : string) : list (string * json) :=
  [("regulatory_requirements", JList [JStr "Error parsing AI response"]);
   ("compliance_gaps", JList [JStr "Please try again"]);
   ("action_items", JList []);
   ("risks", JList [JStr "Unable to complete analysis"]);
   ("overall_compliance_score", JInt 0);
   ("raw_response", JStr response_content)].

(** Lines 80-88: the result built in the outer [except]. *)
Definition error_result (e : analyzer_env) (x : analyzer_exn) : list (string * json) :=
  [("error", JStr (exn_text x));
   ("regulatory_requirements", JList []);
   ("compliance_gaps", JList []);
   ("action_items", JList []);
   ("risks", JList [JStr "Unable to complete analysis due to technical error"]);
   ("overall_compliance_score", JInt 0);
   ("analysis_date", JStr (datetime.isoformat (analysis_time e)))].

(** Lines 49-77, the body of the [try]; [inl] is an exception on its way
    to the outer [except]. *)
Definition analyze_try (e : analyzer_env) (business_info : list (string * json))
    : analyzer_exn + list (string * json) :=
  match call_deepseek_api e with
  | None => inl ApiError
  | Some response =>
      match response_content response with
      | inl x => inl x
      | inr (JStr content) =>
          let analysis_result :=
            match json_loads e content with
            | Some v => v
            | None => JDict (parse_fallback content)
            end in
          match analysis_result with
          | JDict d =>
              inr (jdict_set
                     (jdict_set d "analysis_date"
                        (JStr (datetime.isoformat (analysis_time e))))
                     "business_info" (JDict business_info))
          | _ => inl NoItemAssignment
          end
      | inr _ => inl NotAString
      end
  end.

(** [analyze_compliance(business_info)]: the dictionary it returns.  The
    outcome is a [result] so that raising to the caller can be stated. *)
Definition analyze_compliance (e : analyzer_env) (business_info : list (string * json))
    : result (list (string * json)) :=
  match analyze_try e business_info with
  | inr d => Ok d
  | inl x => Ok (error_result e x)
  end.


(** ** [monitoring_system.py]: [assess_impact_of_updates] (lines 314-378) *)

(** Lines 332-334 for one source: the records discovered on
    [threshold_date] or later, in their order; comparing a [None] stamp
    raises. *)
Fixpoint recent_list (threshold_date : string) (regulation_updates : list update)
    : result (list update) :=
  match regulation_updates with
  | [] => Ok []
  | u :: rest =>
      match py_ge (dict_get_or u "discovered_date" (PStr "")) (PStr threshold_date) with
      | Raise x => Raise x
      | Ok keep =>
          match recent_list threshold_date rest with
          | Raise x => Raise x
          | Ok r => Ok (if keep then u :: r else r)
          end
      end
  end.

(** Lines 328-334: [recent_updates], with an entry for every source. *)
Fixpoint recent_items (threshold_date : string) (items : list (string * list update))
    : result update_log :=
  match items with
  | [] => Ok ∅
  | (regulation_type, regulation_updates) :: rest =>
      match recent_list threshold_date regulation_updates with
      | Raise x => Raise x
      | Ok r =>
          match recent_items threshold_date rest with
          | Raise x => Raise x
          | Ok m => Ok (<[regulation_type := r]> m)
          end
      end
  end.

(** The [client_business_info] handed to [assess_impact_of_updates]: a
    value that [json.dumps] can write, or an object for which it raises
    ([TypeError] for a value JSON has no form for, [ValueError] for a
    circular one). *)
Inductive business_profile :=
  | Dumpable (v : json)
  | NotDumpable (x : exn).

(** What the surroundings of [assess_impact_of_updates] answer: the clock,
    the API for the prompt built from the profile and the recent updates,
    and [json.loads]. *)
Record impact_env := mk_impact_env {
  impact_now : datetime.t;
  impact_api : json -> update_log -> option json;
  impact_loads : string -> option json
}.

(** The dictionary of the outer [except] (lines 373-378). *)
Definition impact_error (x : analyzer_exn) : json :=
  JDict [("error", JStr (exn_text x));
         ("message", JStr "Could not assess impact of updates")].

(** Lines 355-378: the [try] around the API call and its [except], for
    the prompt built from [profile] and [recent_updates]. *)
Definition impact_try (e : impact_env) (profile : json) (recent_updates : update_log)
    : json :=
  match impact_api e profile recent_updates with
  | None => impact_error ApiError
  | Some response =>
      match response_content response with
      | inl x => impact_error x
      | inr (JStr content) =>
          match impact_loads e content with
          | Some impact_assessment => impact_assessment
          | None =>
              JDict [("error", JStr "Could not parse impact assessment");
                     ("raw_response", JStr content)]
          end
      | inr _ => impact_error NotAString
      end
  end.

(** The function returns a JSON value, or raises what the loop over the
    log or the writing of the prompt raises: both are outside the [try].
    The prompt writes the profile first (lines 337-353). *)
Definition assess_impact_of_updates (e : impact_env)
    (client_business_info : business_profile) (file : option update_log)
    : result json :=
  match file with
  | None => Ok (JDict [("error", JStr "Could not load regulatory updates")])
  | Some updates =>
      match datetime.sub_days (impact_now e) 30 with
      | Raise x => Raise x
      | Ok threshold =>
          match recent_items (datetime.isoformat threshold) (map_to_list updates) with
          | Raise x => Raise x
          | Ok recent_updates =>
              match client_business_info with
              | NotDumpable x => Raise x
              | Dumpable profile => Ok (impact_try e profile recent_updates)
              end
          end
      end
  end.

(** ** [eu_regulatory_scraper.py]: [scrape_regulation_updates] (lines 237-282) *)

(** The character [:]. *)
Definition colon : N := 58%N.

(** [key.split("::", 1)] for a key in which ["::"] occurs: what stands
    before the first occurrence and what stands after it; [None] when
    ["::"] does not occur. *)
Fixpoint split_colons (l : text) : option (text * text) :=
  match l with
  | [] => None
  | c :: rest =>
      match rest with
      | c' :: rest' =>
          if N.eqb c colon && N.eqb c' colon then Some ([], rest')
          else
            match split_colons rest with
            | Some (a, b) => Some (c :: a, b)
            | None => None
            end
      | [] => None
      end
  end.

(** What the scraper's surroundings answer: the [ojDate] entry of the
    configuration ([None] without the entry), today's date, and what
    [_scrape_eurlex_daily_by_ojdate] returns for a date key (it catches its
    own errors). *)
Record scraper_env := mk_scraper_env {
  config_ojDate : option date_input;
  scraper_today : datetime.t;
  scrape_eurlex_daily : text -> list update
}.

(** [self._format_ojdate(x)] inside [try ... except Exception]: the date
    key, or nothing when it raises. *)
Definition try_format (x : date_input) : option text :=
  match _format_ojdate x with
  | Ok r => Some r
  | Raise _ => None
  end.

(** Lines 249-273: the key under which the data is saved and the date key
    [ojDate_str].  An empty override is skipped by [if date_override:]; an
    entry of the configuration that is false as a condition does not format
    either. *)
Definition choose_ojdate (e : scraper_env) (regulation_key : text) : text * text :=
  let '(base_key, date_override) :=
    match split_colons regulation_key with
    | Some (a, b) => (a, Some b)
    | None => (regulation_key, None)
    end in
  let ojDate_str :=
    match date_override with
    | Some d => match d with [] => None | _ => try_format (InStr d) end
    | None => None
    end in
  let ojDate_str :=
    match ojDate_str with
    | Some r => Some r
    | None =>
        match config_ojDate e with
        | Some x => try_format x
        | None => None
        end
    end in
  (base_key, default (codes (datetime.strftime_dmY (scraper_today e))) ojDate_str).

(** The updates returned, and what [_save_scraped_data] is asked to save:
    the updates under the base key, when there are any. *)
Definition scrape_regulation_updates (e : scraper_env) (regulation_key : text)
    : list update * option (text * list update) :=
  let '(base_key, ojDate_str) := choose_ojdate e regulation_key in
  let updates := scrape_eurlex_daily e ojDate_str in
  (updates, match updates with [] => None | _ => Some (base_key, updates) end).

(** ** [eu_regulatory_scraper.py]: [_make_request] (lines 110-134) *)

(** What one [session.get] does: a response with status 200, with status
    429 (and the number of seconds it asks to wait; [None] when the
    [Retry-After] header is not a number), with another status, or an
    exception. *)
Inductive http_outcome :=
  | Http200 (body : string)
  | Http429 (retry_after : option Z)
  | HttpOther (status : Z)
  | HttpRaises.

Inductive request_result :=
  | Returned (body : string)
  | Raised.

(** [_make_request(url, retry_count)], when [n] requests have been made
    so far; [net i] is what the [i]-th request does.  [fuel] bounds the
    depth of the recursion as the interpreter does: the call that exceeds it
    raises.  The result comes with the number of requests made. *)
Fixpoint _make_request (fuel : nat) (max_retries : nat) (net : nat -> http_outcome)
    (retry_count : nat) (n : nat) : request_result * nat :=
  match fuel with
  | O => (Raised, n)
  | S fuel' =>
      let retry := _make_request fuel' max_retries net (S retry_count) in
      (* the [except Exception] clause *)
      let handler (n : nat) :=
        if (retry_count <? max_retries)%nat then retry n else (Raised, n) in
      (* a retry from within the [try] *)
      let retry_in_try (n : nat) :=
        match retry n with
        | (Returned body, n') => (Returned body, n')
        | (Raised, n') => handler n'
        end in
      match net n with
      | Http200 body => (Returned body, S n)
      | Http429 (Some seconds) =>
          if seconds <? 0 then handler (S n) else retry_in_try (S n)
      | Http429 None => handler (S n)
      | HttpOther _ =>
          if (retry_count <? max_retries)%nat then retry_in_try (S n)
          else handler (S n)
      | HttpRaises => handler (S n)
      end
  end.

(** ** [ai_compliance_analyzer.py]: [_call_deepseek_api] (lines 90-139) *)

(** What one [requests.post] does: status 200 with a body that decodes
    as JSON or does not, another status, a [RequestException], or another
    exception. *)
Inductive api_outcome :=
  | Api200 (body : option json)
  | ApiStatus (status : Z)
  | ApiRequestException
  | ApiOtherException.

(** The state of the retry loop: the delays slept so far and the number
    of requests made. *)
Record api_run := mk_api_run {
  api_result : option json;
  api_slept : list Z;
  api_posts : nat
}.

(** The loop [for attempt in range(max_retries)] from [attempt] on, with
    [remaining] attempts left. *)
Fixpoint api_attempts (net : nat -> api_outcome) (max_retries : nat) (remaining : nat)
    (attempt : nat) (retry_delay : Z) (slept : list Z) : api_run :=
  match remaining with
  | O => mk_api_run None slept attempt
  | S remaining' =>
      let again :=
        if (attempt <? max_retries - 1)%nat
        then api_attempts net max_retries remaining' (S attempt) (retry_delay * 2)
               (slept ++ [retry_delay])
        else mk_api_run None slept (S attempt) in
      match net attempt with
      | Api200 (Some v) => mk_api_run (Some v) slept (S attempt)
      | Api200 None => again
      | ApiStatus _ => again
      | ApiRequestException => again
      | ApiOtherException => mk_api_run None slept (S attempt)
      end
  end.

(** [_call_deepseek_api(messages)]: three attempts, the first delay one
    second.  A run without a result is a raised exception. *)
Definition _call_deepseek_api (net : nat -> api_outcome) : api_run :=
  api_attempts net 3 3 0 1 [].

(** ** [eu_regulatory_scraper.py]: [check_for_updates] (lines 304-319) *)

(** The one registered source is ['eur-lex']; the call for it does not
    raise, so the [except] branch is not taken. *)
Definition check_for_updates (e : scraper_env) : gmap string (list update) :=
  {[ "eur-lex" := (scrape_regulation_updates e (codes "eur-lex")).1 ]}.

(** ** [_load_config] ([monitoring_system.py] lines 52-98,
    [eu_regulatory_scraper.py] lines 69-100) *)

(** The configuration file: not there, there but [open] or [json.load]
    raises, or holding a JSON value. *)
Inductive config_file :=
  | Missing
  | Unreadable
  | Holds (v : json).

(** [k in v] for a string [k]: a key of a dictionary, an element of a
    list, a part of a string; [None] is the [TypeError] of the other
    values. *)
Definition py_in (k : string) (v : json) : option bool :=
  match v with
  | JDict d => Some (bool_decide (is_Some (jdict_get d k)))
  | JList l =>
      Some (existsb (fun x => match x with JStr s => String.eqb s k | _ => false end) l)
  | JStr s => Some (bool_decide (is_Some (String.index 0 k s)))
  | _ => None
  end.

(** The loop [for key, value in default_config.items()]; [None] when it
    raises: [config[key] = value] needs a dictionary. *)
Fixpoint merge_defaults (default_config : list (string * json)) (config : json)
    : option json :=
  match default_config with
  | [] => Some config
  | (key, value) :: rest =>
      match py_in key config with
      | None => None
      | Some true => merge_defaults rest config
      | Some false =>
          match config with
          | JDict d => merge_defaults rest (JDict (jdict_set d key value))
          | _ => None
          end
      end
  end.

(** The configuration returned, for the defaults of the class.  (The
    default file written when there is none is not part of the value.) *)
Definition _load_config (default_config : list (string * json)) (f : config_file) : json :=
  match f with
  | Missing => JDict default_config
  | Unreadable => JDict default_config
  | Holds v => default (JDict default_config) (merge_defaults default_config v)
  end.

(** The defaults of the scraper, lines 70-80. *)
Definition scraper_default_config : list (string * json) :=
  [("min_delay", JInt 2);
   ("max_delay", JInt 5);
   ("max_retries", JInt 3);
   ("data_dir", JStr "regulatory_data");
   ("user_agents",
    JList [JStr "Mozilla/5.0 (Windows NT 10.0; Win64; x64) AppleWebKit/537.36 (KHTML, like Gecko) Chrome/91.0.4472.124 Safari/537.36";
           JStr "Mozilla/5.0 (Macintosh; Intel Mac OS X 10_15_7) AppleWebKit/605.1.15 (KHTML, like Gecko) Version/14.1.1 Safari/605.1.15";
           JStr "Mozilla/5.0 (Windows NT 10.0; Win64; x64; rv:89.0) Gecko/20100101 Firefox/89.0"])].

(** [self.config.get('monitoring', {}).get('alert_threshold', 3)] on the
    loaded configuration ([monitoring_system.py] line 202). *)
Definition config_alert_threshold (cfg : json) : analyzer_exn + json :=
  match get_attr cfg "monitoring" (JDict []) with
  | inl x => inl x
  | inr monitoring => get_attr monitoring "alert_threshold" (JInt 3)
  end.

(** ** Vocabulary of the statements *)

(** The titles of a list of records, in order ([None] for a record without
    one). *)
Definition titles (l : list update) : list pyval :=
  (fun u => dict_get u "title") <$> l.

(** The records the log holds for a source (none for an unknown source). *)
Definition records_of (L : update_log) (source : string) : list update :=
  default [] (L !! source).

(** At most one record for each (source, title) pair. *)
Definition one_per_title (L : update_log) : Prop :=
  forall source, NoDup (titles (records_of L source)).

(** The log after a sequence of merges that starts from the empty log (the
    file as [_init_databases] creates it); each merge has its own clock and
    batch. *)
Definition merge_history
    (h : list ((nat -> datetime.t) * nat * list (string * list update))) : update_log :=
  foldl (fun L c => ms_log (merge (fst (fst c)) (snd (fst c)) L (snd c))) ∅ h.

(** Every record of the batch is in the log, under its source. *)
Definition batch_present (L : update_log) (item : string * list update) : Prop :=
  is_Some (L !! fst item) /\
  forall u, u ∈ snd item -> dict_get u "title" ∈ titles (records_of L (fst item)).

(** What a run of merge steps has added for one source, relative to the
    log [L] it started from: records of the batch [inc], stamped, with
    pairwise different titles that [L] did not hold for the source. *)
Definition added_since (clk : nat -> datetime.t) (inc : list (string * list update))
    (L : update_log) (st : merge_state) : Prop :=
  forall s, exists added,
    records_of (ms_log st) s = records_of L s ++ added /\
    NoDup (titles added) /\
    (forall t, t ∈ titles added -> t ∉ titles (records_of L s)) /\
    Forall (fun a => exists ups u k, (s, ups) ∈ inc /\ u ∈ ups /\ a = stamp (clk k) u) added.


(** *** Sample data for the examples *)

(** 2025-09-10, noon. *)
Definition sample_noon : datetime.t := datetime.mk 739504 43200000000.

Definition sample_clock : nat -> datetime.t := fun _ => sample_noon.

Definition sample_update (title : string) : update :=
  {[ "title" := PStr title; "date" := PStr "2025-09-10"; "content" := PStr "text";
     "url" := PNone; "source" := PStr "eur-lex"; "method" := PStr "daily-view" ]}.

Definition sample_files : files := mk_files (Some ∅) (Some ∅) (Some ∅).

Definition sample_world : world := mk_world sample_files 0 [] [].

Definition sample_config : config := mk_config None.

(** A cycle in which the scraper finds two rows and the write of the
    update log ends as [o]. *)
Definition sample_env (o : write_outcome) : env :=
  mk_env sample_clock
    (Ok [("eur-lex", [sample_update "Reg A"; sample_update "Reg B"])])
    o WriteOk (fun _ => true).

(** The address a client's mail goes to: [client_info.get('email', '')]. *)
Definition client_email (client_info : gmap string pyval) : string :=
  py_str (dict_get_or client_info "email" (PStr "")).

(** The log entry that the attempt for one client leaves. *)
Definition send_entry (e : env) (client : string * gmap string pyval) : log_entry :=
  if smtp_delivers e (fst client) then InfoAlertSent (client_email (snd client))
  else ErrorFailedToSend (client_email (snd client)) SMTPException.

(** The mail that the attempt for one client delivers, if it succeeds. *)
Definition send_mail (e : env) (body : payload) (client : string * gmap string pyval)
    : option mail :=
  if smtp_delivers e (fst client)
  then Some (mk_mail (fst client) (client_email (snd client)) body)
  else None.

(** Three records discovered at noon of 2025-09-10. *)
Definition sample_log : update_log :=
  {[ "eur-lex" := [stamp sample_noon (sample_update "Reg A");
                   stamp sample_noon (sample_update "Reg B");
                   stamp sample_noon (sample_update "Reg C")] ]}.

Definition sample_clients : clients :=
  {[ "c1" := {[ "email" := PStr "a@example.com" ]};
     "c2" := {[ "email" := PStr "b@example.com" ]} ]}.

(** An evaluation at noon of 2025-09-10 in which the delivery to client
    [c1] fails. *)
Definition sample_alert_world : world :=
  mk_world (mk_files (Some sample_log) (Some ∅) (Some sample_clients)) 0 [] [].

Definition sample_alert_env : env :=
  mk_env sample_clock (Ok []) WriteOk WriteOk (fun id => String.eqb id "c2").

(** Evaluations within one second: each reading of the clock is a
    microsecond after the one before, from noon of 2025-09-10 on. *)
Definition sample_same_second_env : env :=
  mk_env (fun k => datetime.mk 739504 (43200000000 + Z.of_nat k)) (Ok [])
    WriteOk WriteOk (fun id => String.eqb id "c2").

(** A ledger that holds the alert of the day before, and an evaluation
    whose write of the ledger fails after the file was opened. *)
Definition sample_fired_world : world :=
  mk_world
    (mk_files (Some sample_log)
       (Some {[ "alert_20250909_120000" :=
                  mk_alert "alert_20250909_120000" "2025-09-09T12:00:00" 3 true ]})
       (Some sample_clients)) 0 [] [].

Definition sample_lost_ledger_env : env :=
  mk_env sample_clock (Ok []) WriteOk WriteFailsAfterOpen (fun id => String.eqb id "c2").

(** The key the e-mail sorts a source's records by, as text. *)
Definition discovered_str (u : update) : string := py_str (discovered_key u).

(** [a] was discovered no earlier than [b], by the stamps as text. *)
Definition newest_first (a b : update) : Prop :=
  String.leb (discovered_str b) (discovered_str a) = true.

(** [sorted] is [l] ordered newest first, records with the same stamp kept
    in the order they have in [l]. *)
Definition stable_newest_first (l sorted : list update) : Prop :=
  sorted ≡ₚ l /\
  StronglySorted newest_first sorted /\
  forall k, filter (fun u => discovered_str u = k) sorted =
            filter (fun u => discovered_str u = k) l.

(** A log that holds one record of the source [gdpr], discovered on
    2025-01-01, and a cycle on 2025-09-10 in which the scraper returns two
    rows of [eur-lex]; the alert threshold is 2. *)
Definition sample_gdpr_log : update_log :=
  {[ "gdpr" := [stamp (datetime.mk 739252 0) (sample_update "Old rule")] ]}.

Definition sample_gdpr_world : world :=
  mk_world (mk_files (Some sample_gdpr_log) (Some ∅) (Some sample_clients)) 0 [] [].

Definition sample_threshold_2 : config := mk_config (Some 2).

(** *** Date formats *)

Definition all_digits (l : text) : Prop := Forall (fun c => is_digit c = true) l.

(** A run of [lo] to [hi] digits. *)
Definition digit_run (lo hi : nat) (l : text) : Prop :=
  all_digits l /\ (lo <= length l <= hi)%nat.

(** A position of a fixed-width format: a digit or the separator. *)
Inductive slot := Dg | Dash.

Fixpoint fits (template : list slot) (s : text) : bool :=
  match template, s with
  | [], [] => true
  | Dg :: t, c :: r => is_digit c && fits t r
  | Dash :: t, c :: r => N.eqb c dash && fits t r
  | _, _ => false
  end.

Definition YYYY_MM_DD : list slot := [Dg; Dg; Dg; Dg; Dash; Dg; Dg; Dash; Dg; Dg].
Definition DD_MM_YYYY : list slot := [Dg; Dg; Dash; Dg; Dg; Dash; Dg; Dg; Dg; Dg].
Definition DDMMYYYY : list slot := [Dg; Dg; Dg; Dg; Dg; Dg; Dg; Dg].

(** The specification's three formats: digits only, fields of fixed
    width. *)
Definition recognized_fixed_width (s : text) : bool :=
  fits YYYY_MM_DD s || fits DD_MM_YYYY s || fits DDMMYYYY s.

(** The shapes [_format_ojdate] accepts, after [strip()]: a four-digit
    year and one- or two-digit month and day around dashes, in either order,
    or eight digits. *)
Definition shape_ymd (l y mo da : text) : Prop :=
  l = y ++ dash :: mo ++ dash :: da /\
  digit_run 4 4 y /\ digit_run 1 2 mo /\ digit_run 1 2 da.

Definition shape_dmy (l da mo y : text) : Prop :=
  l = da ++ dash :: mo ++ dash :: y /\
  digit_run 1 2 da /\ digit_run 1 2 mo /\ digit_run 4 4 y.

Definition shape_compact (l : text) : Prop := digit_run 8 8 l.

(** The ten digits of ASCII. *)
Definition ascii_digit (c : N) : bool := ((48 <=? c) && (c <=? 57))%N.

(** A text of ASCII characters. *)
Definition ascii_text (l : text) : Prop := Forall (fun c => (c < 128)%N) l.

(** A date object whose year has four digits. *)
Definition four_digit_year (d : datetime.t) : Prop :=
  1000 <= fst (fst (datetime._ord2ymd (datetime.ordinal d))).

(** *** Sample data for the analyzer *)

(** A response of the API whose message content is [content]. *)
Definition sample_response (content : string) : json :=
  JDict [("choices",
          JList [JDict [("message", JDict [("content", JStr content)])]])].

(** A decoder that knows the empty object only. *)
Definition sample_loads (s : string) : option json :=
  if String.eqb s "{}" then Some (JDict []) else None.

Definition sample_analyzer_env : analyzer_env :=
  mk_analyzer_env (Some (sample_response "I cannot answer in JSON.")) sample_loads
    sample_noon.

(** *** The count of recent records *)

(** Every record of the log, source after source. *)
Definition all_records (L : update_log) : list update :=
  concat (snd <$> map_to_list L).

(** The stamp of [u], as text, is not before [threshold_date]. *)
Definition recent (threshold_date : string) (u : update) : bool :=
  String.leb threshold_date (discovered_str u).

(** How many records of [l] are recent. *)
Definition n_recent (threshold_date : string) (l : list update) : Z :=
  Z.of_nat (length (filter (fun u => recent threshold_date u = true) l)).

(** No record holds [None] as its [discovered_date]. *)
Definition keys_are_str (l : list update) : bool :=
  forallb is_str (discovered_key <$> l).

(** A record without a discovery stamp: the key is missing, or holds the
    empty string. *)
Definition lacks_stamp (u : update) : Prop :=
  u !! "discovered_date" = None \/ u !! "discovered_date" = Some (PStr "").

(** *** Order of dates and times *)

(** Lexicographic combination of two comparisons. *)
Definition lex_then (c1 c2 : comparison) : comparison :=
  match c1 with Eq => c2 | _ => c1 end.

(** [datetime.le], decided. *)
Definition datetime_leb (a b : datetime.t) : bool :=
  (datetime.ordinal a <? datetime.ordinal b) ||
  ((datetime.ordinal a =? datetime.ordinal b) && (datetime.usec a <=? datetime.usec b)).

(** A date as one number that orders dates as (year, month, day) does. *)
Definition ymd_code (x : Z * Z * Z) : Z :=
  (fst (fst x) * 13 + snd (fst x)) * 32 + snd x.

(** The end of [datetime.ymd_in_cycle]: from the offset [n] into a
    four-year cycle to the year within the cycle, the month and the day.
    [century_end] is the test [n100 == 4], [leapable] is
    [n4 != 24 or n100 == 3]. *)
Definition ymd_tail (century_end leapable : bool) (n : Z) : Z * Z * Z :=
  let n1 := n / 365 in
  let n := n mod 365 in
  if (n1 =? 4) || century_end then (n1 - 1, 12, 31)
  else
    let leapyear := (n1 =? 3) && leapable in
    let month := Z.shiftr (n + 50) 5 in
    let preceding :=
      datetime._DAYS_BEFORE_MONTH month + datetime.b2z ((2 <? month) && leapyear) in
    if n <? preceding then
      let month' := month - 1 in
      let preceding' :=
        preceding -
        (datetime._DAYS_IN_MONTH month' + datetime.b2z ((month' =? 2) && leapyear)) in
      (n1, month', n - preceding' + 1)
    else (n1, month, n - preceding + 1).

(** The number of days a four-year cycle has: the last one of a century
    that is not the fourth has no leap day. *)
Definition cycle_days (leapable : bool) : Z := if leapable then 1461 else 1460.

(** [f] holds on [start], [start + 1], ..., [n] numbers in all. *)
Fixpoint check_range (f : Z -> bool) (n : nat) (start : Z) : bool :=
  match n with
  | O => true
  | S n' => f start && check_range f n' (start + 1)
  end.

(** The date at offset [n] of a four-year cycle is a date, and the next
    offset gives a later one. *)
Definition tail_step_ok (leapable : bool) (n : Z) : bool :=
  let '(k, m, d) := ymd_tail false leapable n in
  (0 <=? k) && (k <=? 3) && (1 <=? m) && (m <=? 12) && (1 <=? d) && (d <=? 31) &&
  (ymd_code (k, m, d) <? ymd_code (ymd_tail false leapable (n + 1))).

(** The date at the place ([a], [b], [r]) of a 400-year cycle: century
    [a], four-year cycle [b] of the century, day [r] of the four years. *)
Definition ymd_at (a b r : Z) : Z * Z * Z :=
  let t := ymd_tail (a =? 4) (negb (b =? 24) || (a =? 3)) r in
  (1 + a * 100 + b * 4 + fst (fst t), snd (fst t), snd t).

(** The fraction of a second as [isoformat] writes it. *)
Definition iso_fraction (us : Z) : string :=
  if us =? 0 then "" else "." +:+ fmt_0d 6 us.

(** *** Logs with their discovery times *)

(** A log given by its records and the time each was discovered. *)
Abbreviation timed_log := (gmap string (list (gmap string pyval * datetime.t))).

(** The record as the merge stores it. *)
Definition stamped (x : update * datetime.t) : update := stamp (snd x) (fst x).

(** The update log that a timed log stands for. *)
Definition log_of (TL : timed_log) : update_log :=
  (fun l : list (update * datetime.t) => stamped <$> l) <$> TL.

(** Every record of the timed log with its time, source after source. *)
Definition all_entries (TL : timed_log) : list (update * datetime.t) :=
  concat (snd <$> map_to_list TL).

(** How many records were discovered at [threshold] or later. *)
Definition n_since (threshold : datetime.t) (TL : timed_log) : Z :=
  Z.of_nat (length (filter (fun x => datetime_leb threshold (snd x) = true)
                      (all_entries TL))).

Definition stamps_valid (TL : timed_log) : Prop :=
  Forall (fun x => datetime.valid (snd x)) (all_entries TL).

(** The world once [_check_and_send_alerts] has loaded the ledger and the
    clients (logging what it could not load) and read the clock. *)
Definition loaded (w : world) : world :=
  let w1 :=
    match client_alerts_db (fs w) with
    | Some _ => w
    | None => log_msg ErrorLoadingClientAlerts w
    end in
  let w2 :=
    match clients_db (fs w1) with
    | Some _ => w1
    | None => log_msg ErrorLoadingClients w1
    end in
  mk_world (fs w2) (S (tick w2)) (trace w2) (outbox w2).

(** A log with one record, discovered a day after the evaluation of
    [sample_alert_env] (noon of 2025-09-11), and an alert threshold of 1. *)
Definition sample_future_world : world :=
  mk_world
    (mk_files
       (Some {[ "eur-lex" := [stamp (datetime.mk 739505 43200000000)
                                (sample_update "Reg A")] ]})
       (Some ∅) (Some sample_clients)) 0 [] [].

Definition sample_threshold_1 : config := mk_config (Some 1).

(** The three records of [sample_log] with their discovery time. *)
Definition sample_timed_log : timed_log :=
  {[ "eur-lex" := [(sample_update "Reg A", sample_noon);
                   (sample_update "Reg B", sample_noon);
                   (sample_update "Reg C", sample_noon)] ]}.

(** *** Further vocabulary *)

(** Some record of the batch has a title that the log does not hold for
    its source. *)
Definition brings_news (L : update_log) (inc : list (string * list update)) : Prop :=
  exists s ups u, (s, ups) ∈ inc /\ u ∈ ups /\
                  dict_get u "title" ∉ titles (records_of L s).

(** The update log a cycle starts from: the file, or the empty log when
    the file cannot be loaded. *)
Definition starting_log (w : world) : update_log :=
  default ∅ (regulatory_updates_db (fs w)).

(** While nothing was reported as new, nothing has happened. *)
Definition quiet_since (L : update_log) (k : nat) (st : merge_state) : Prop :=
  ms_has_new st = false ->
  (forall s, records_of (ms_log st) s = records_of L s) /\ ms_tick st = k /\ ms_trace st = [].

(** What was reported as new has a cause in the batch. *)
Definition news_has_cause (L : update_log) (inc : list (string * list update))
    (st : merge_state) : Prop :=
  ms_has_new st = true -> brings_news L inc.

(** A world whose update log already holds the two rows that the scraper
    of [sample_env] returns. *)
Definition sample_known_world : world :=
  mk_world
    (mk_files
       (Some {[ "eur-lex" := [stamp sample_noon (sample_update "Reg A");
                              stamp sample_noon (sample_update "Reg B")] ]})
       (Some ∅) (Some sample_clients)) 0 [] [].

(** A world whose update log cannot be loaded. *)
Definition sample_broken_world : world :=
  mk_world (mk_files None (Some ∅) (Some sample_clients)) 0 [] [].

(** A log whose one record holds [None] as its discovery stamp. *)
Definition sample_null_world : world :=
  mk_world
    (mk_files
       (Some {[ "eur-lex" := [<["discovered_date" := PNone]> (sample_update "Reg Z")] ]})
       (Some ∅) (Some sample_clients)) 0 [] [].

(** The records of a timed log discovered at [threshold] or later, source
    by source and in their order. *)
Definition recent_timed (threshold : datetime.t) (TL : timed_log) : timed_log :=
  (fun l : list (update * datetime.t) =>
     filter (fun x => datetime_leb threshold (snd x) = true) l) <$> TL.

(** An impact assessment on 2025-09-10 whose API call fails. *)
Definition sample_impact_env : impact_env :=
  mk_impact_env sample_noon (fun _ _ => None) sample_loads.

(** The client's profile, as the prompt shows it. *)
Definition sample_profile : json := JDict [("industry", JStr "retail")].

(** A timed log with a record of the day and one of 2025-01-01. *)
Definition sample_old_and_new : timed_log :=
  {[ "eur-lex" := [(sample_update "Old rule", datetime.mk 739252 0);
                   (sample_update "Reg A", sample_noon)] ]}.

(** Only white space. *)
Definition all_space (l : text) : Prop := Forall (fun c => is_space c = true) l.

(** The inputs of [_format_ojdate] considered: a date object that Python
    can build lies between the years 1 and 9999, and those whose year has
    four digits are written the same by every C library. *)
Definition date_input_valid (x : date_input) : Prop :=
  match x with
  | InDate d => datetime.valid d /\ four_digit_year d
  | _ => True
  end.

(** A text without a colon. *)
Definition no_colon (l : text) : bool :=
  forallb (fun c => negb (N.eqb c colon)) l.

(** The date key the scraper uses without an override: the configured
    date when it is there and formats, today's otherwise. *)
Definition date_without_override (e : scraper_env) : text :=
  default (codes (datetime.strftime_dmY (scraper_today e)))
    (config_ojDate e ≫= try_format).

Definition sample_scraper_env : scraper_env :=
  mk_scraper_env (Some (InStr (codes "10-09-2025"))) sample_noon (fun _ => []).

(** The year 2025 and the date 2025-09-10 in Arabic-Indic digits, and a
    no-break space. *)
Definition sample_arabic_2025 : text := [1634; 1632; 1634; 1637]%N.

Definition sample_arabic_date : text :=
  sample_arabic_2025 ++ [dash; 1632; 1641; dash; 1633; 1632]%N.

Definition nbsp : N := 160%N.

(** A server that never answers 429. *)
Definition never_429 (net : nat -> http_outcome) : Prop :=
  forall i r, net i <> Http429 r.

(** An attempt of the API call after which the loop goes on. *)
Definition retryable (o : api_outcome) : Prop :=
  match o with
  | Api200 (Some _) => False
  | ApiOtherException => False
  | _ => True
  end.

Definition sample_net_500 : nat -> http_outcome := fun _ => HttpOther 500.

Definition sample_net_timeout : nat -> http_outcome := fun _ => HttpRaises.

(** Two failures, then an answer. *)
Definition sample_net_recovers : nat -> http_outcome :=
  fun i => if (i <? 2)%nat then HttpOther 503 else Http200 "page".

(** The analyzer behind the retry loop: what [_call_deepseek_api] returns
    is what the loop ends with. *)
Definition analyzer_behind (net : nat -> api_outcome) (loads : string -> option json)
    (t : datetime.t) : analyzer_env :=
  mk_analyzer_env (api_result (_call_deepseek_api net)) loads t.

(** A decoder that knows one answer, an object with a score and a date of
    its own. *)
Definition sample_loads_object (s : string) : option json :=
  if String.eqb s "{...}"
  then Some (JDict [("analysis_date", JStr "yesterday"); ("overall_compliance_score", JInt 70)])
  else None.

Definition sample_object_env : analyzer_env :=
  mk_analyzer_env (Some (sample_response "{...}")) sample_loads_object sample_noon.

(** A decoder that knows one answer, a list. *)
Definition sample_loads_list (s : string) : option json :=
  if String.eqb s "[]" then Some (JList []) else None.

Definition sample_list_env : analyzer_env :=
  mk_analyzer_env (Some (sample_response "[]")) sample_loads_list sample_noon.

(** The API is down: every attempt ends with status 503. *)
Definition sample_api_down : nat -> api_outcome := fun _ => ApiStatus 503.

(** A JSON value that is an object. *)
Definition is_object (v : json) : bool :=
  match v with JDict _ => true | _ => false end.

(** The first three entries of the defaults of the monitoring system and
    of the service. *)
Definition sample_defaults : list (string * json) :=
  [("deepseek_api_key", JStr "your-deepseek-api-key");
   ("email", JDict [("smtp_server", JStr "smtp.gmail.com");
                    ("smtp_port", JInt 587);
                    ("username", JStr "your-email@gmail.com");
                    ("password", JStr "your-app-password")]);
   ("monitoring", JDict [("check_interval_hours", JInt 24);
                         ("alert_threshold", JInt 3)])].

(** A configuration file that sets the interval only. *)
Definition sample_config_file : list (string * json) :=
  [("monitoring", JDict [("check_interval_hours", JInt 6)])].

(** ** Order of strings *)

Lemma ascii_compare_refl (a : ascii) : Ascii.compare a a = Eq.
Proof. unfold Ascii.compare. apply N.compare_refl. Qed.

Lemma ascii_compare_lt_trans (a b c : ascii) :
  Ascii.compare a b = Lt -> Ascii.compare b c = Lt -> Ascii.compare a c = Lt.
Proof.
  unfold Ascii.compare. rewrite !N.compare_lt_iff. apply N.lt_trans.
Qed.

Lemma string_compare_refl (s : string) : String.compare s s = Eq.
Proof.
  induction s as [|a s IH]; simpl; [reflexivity|]. by rewrite ascii_compare_refl.
Qed.

Lemma string_compare_lt_trans (a b c : string) :
  String.compare a b = Lt -> String.compare b c = Lt -> String.compare a c = Lt.
Proof.
  revert b c. induction a as [|x a IH]; intros [|y b] [|z c]; simpl; try done.
  destruct (Ascii.compare x y) eqn:Exy; try done.
  - apply Ascii.compare_eq_iff in Exy as ->.
    destruct (Ascii.compare y z); try done. apply IH.
  - destruct (Ascii.compare y z) eqn:Eyz; try done.
    + apply Ascii.compare_eq_iff in Eyz as <-. by rewrite Exy.
    + by rewrite (ascii_compare_lt_trans _ _ _ Exy Eyz).
Qed.

Lemma string_ltb_leb (a b : string) : String.ltb a b = true -> String.leb a b = true.
Proof. unfold String.ltb, String.leb. by destruct (String.compare a b). Qed.

Lemma string_not_ltb_leb (a b : string) : String.ltb a b = false -> String.leb b a = true.
Proof.
  unfold String.ltb, String.leb. rewrite (String.compare_antisym a b).
  by destruct (String.compare b a).
Qed.

Lemma string_leb_ltb_trans (a b c : string) :
  String.leb a b = true -> String.ltb b c = true -> String.ltb a c = true.
Proof.
  unfold String.leb, String.ltb.
  destruct (String.compare a b) eqn:Eab; try done.
  - apply String.compare_eq_iff in Eab as ->. done.
  - destruct (String.compare b c) eqn:Ebc; try done.
    by rewrite (string_compare_lt_trans _ _ _ Eab Ebc).
Qed.

Lemma string_ltb_irrefl (a : string) : String.ltb a a = false.
Proof. unfold String.ltb. by rewrite string_compare_refl. Qed.
(** ** The merge *)

Lemma is_new_spec (l : list update) (u : update) :
  is_new l u = true <-> dict_get u "title" ∉ titles l.
Proof.
  induction l as [|x l IH]; simpl.
  - split; [intros _; apply not_elem_of_nil | done].
  - destruct (decide (dict_get x "title" = dict_get u "title")) as [Heq|Hne].
    + split; [done|]. intros Hn. exfalso. apply Hn. rewrite Heq. apply list_elem_of_here.
    + rewrite IH, not_elem_of_cons.
      split; [intros ?; split; [congruence | done] | by intros [_ ?]].
Qed.

Lemma stamp_title (d : datetime.t) (u : update) :
  dict_get (stamp d u) "title" = dict_get u "title".
Proof. unfold dict_get, stamp. by rewrite lookup_insert_ne. Qed.

Lemma titles_app (a b : list update) : titles (a ++ b) = titles a ++ titles b.
Proof. unfold titles. apply fmap_app. Qed.

Lemma records_of_insert (L : update_log) (s s' : string) (l : list update) :
  records_of (<[s := l]> L) s' = if decide (s = s') then l else records_of L s'.
Proof.
  unfold records_of. rewrite lookup_insert. by destruct (decide (s = s')).
Qed.

Lemma ensure_source_records (s s' : string) (st : merge_state) :
  records_of (ms_log (ensure_source s st)) s' = records_of (ms_log st) s'.
Proof.
  unfold ensure_source. destruct (ms_log st !! s) eqn:E; [done|]. simpl.
  rewrite records_of_insert. destruct (decide (s = s')) as [->|]; [|done].
  unfold records_of. by rewrite E.
Qed.

Lemma ensure_source_key (s : string) (st : merge_state) :
  is_Some (ms_log (ensure_source s st) !! s).
Proof.
  unfold ensure_source. destruct (ms_log st !! s) eqn:E; simpl.
  - rewrite E. eauto.
  - rewrite lookup_insert_eq. eauto.
Qed.

Lemma ensure_source_keys (s s' : string) (st : merge_state) :
  is_Some (ms_log st !! s') -> is_Some (ms_log (ensure_source s st) !! s').
Proof.
  unfold ensure_source. destruct (ms_log st !! s) eqn:E; simpl; [done|].
  intros H. rewrite lookup_insert. destruct (decide (s = s')); eauto.
Qed.

(** One step of the inner loop, seen from one source. *)
Lemma merge_update_records clk src st u s :
  records_of (ms_log (merge_update clk src st u)) s =
  records_of (ms_log st) s ++
  (if decide (src = s) then
     if is_new (records_of (ms_log st) src) u then [stamp (clk (ms_tick st)) u] else []
   else []).
Proof.
  unfold merge_update. fold (records_of (ms_log st) src).
  destruct (is_new (records_of (ms_log st) src) u) eqn:E; simpl.
  - rewrite records_of_insert. destruct (decide (src = s)) as [->|]; [done|].
    by rewrite app_nil_r.
  - destruct (decide (src = s)); by rewrite app_nil_r.
Qed.

Lemma merge_update_keys clk src st u s :
  is_Some (ms_log st !! s) -> is_Some (ms_log (merge_update clk src st u) !! s).
Proof.
  unfold merge_update. destruct (is_new _ u); simpl; [|done].
  intros H. rewrite lookup_insert. destruct (decide (src = s)); eauto.
Qed.

Lemma added_since_start clk inc L k :
  added_since clk inc L (mk_merge L false k []).
Proof.
  intros s. exists []. simpl. rewrite app_nil_r.
  repeat split; [constructor | | constructor].
  intros t Ht. by apply elem_of_nil in Ht.
Qed.

Lemma added_since_ensure clk inc L st s :
  added_since clk inc L st -> added_since clk inc L (ensure_source s st).
Proof.
  intros H s'. destruct (H s') as (added & ? & ? & ? & ?).
  exists added. rewrite ensure_source_records. done.
Qed.

Lemma added_since_update clk inc L st src ups u :
  (src, ups) ∈ inc -> u ∈ ups ->
  added_since clk inc L st -> added_since clk inc L (merge_update clk src st u).
Proof.
  intros Hin Hu H s. destruct (H s) as (added & Hrec & Hnd & Hfresh & Hprov).
  rewrite merge_update_records.
  destruct (decide (src = s)) as [->|].
  2:{ exists added. by rewrite app_nil_r. }
  destruct (is_new (records_of (ms_log st) s) u) eqn:Hnew.
  2:{ exists added. by rewrite app_nil_r. }
  apply is_new_spec in Hnew. rewrite Hrec, titles_app, not_elem_of_app in Hnew.
  destruct Hnew as [HnL Hna].
  exists (added ++ [stamp (clk (ms_tick st)) u]). split; [|split; [|split]].
  - by rewrite Hrec, app_assoc.
  - rewrite titles_app. apply NoDup_app. split; [done|]. split.
    + intros t Ht Ht'. simpl in Ht'. apply list_elem_of_singleton in Ht'.
      rewrite stamp_title in Ht'. by subst t.
    + simpl. apply NoDup_singleton.
  - intros t. rewrite titles_app, elem_of_app. intros [Ht|Ht]; [by apply Hfresh|].
    simpl in Ht. apply list_elem_of_singleton in Ht. rewrite stamp_title in Ht. by subst t.
  - apply Forall_app. split; [done|]. constructor; [|constructor].
    exists ups, u, (ms_tick st). done.
Qed.

Lemma added_since_updates clk inc L src ups :
  (src, ups) ∈ inc ->
  forall us st, us ⊆ ups -> added_since clk inc L st ->
  added_since clk inc L (foldl (merge_update clk src) st us).
Proof.
  intros Hin us. induction us as [|u us IH]; intros st Hsub H; simpl; [done|].
  apply IH.
  - intros x Hx. apply Hsub. by apply list_elem_of_further.
  - eapply added_since_update; [done| |done]. apply Hsub, list_elem_of_here.
Qed.

Lemma added_since_sources clk inc L :
  forall items st, items ⊆ inc -> added_since clk inc L st ->
  added_since clk inc L (foldl (merge_source clk) st items).
Proof.
  induction items as [|[src ups] items IH]; intros st Hsub H; simpl; [done|].
  apply IH.
  - intros x Hx. apply Hsub. by apply list_elem_of_further.
  - unfold merge_source. simpl. eapply added_since_updates.
    + apply Hsub, list_elem_of_here.
    + done.
    + by apply added_since_ensure.
Qed.

Lemma merge_added_since clk k L inc :
  added_since clk inc L (merge clk k L inc).
Proof.
  unfold merge. apply added_since_sources; [done|apply added_since_start].
Qed.

(** A merge keeps a log with one record per title in that shape. *)
Lemma merge_one_per_title clk k L inc :
  one_per_title L -> one_per_title (ms_log (merge clk k L inc)).
Proof.
  intros HL s. destruct (merge_added_since clk k L inc s) as (added & -> & Hnd & Hfresh & _).
  rewrite titles_app. apply NoDup_app. split; [apply HL|]. split; [|done].
  intros t Ht Ht'. by apply (Hfresh t).
Qed.

Lemma merge_history_one_per_title h : one_per_title (merge_history h).
Proof.
  unfold merge_history.
  assert (Hgen : forall L, one_per_title L ->
    one_per_title (foldl (fun L c => ms_log (merge (fst (fst c)) (snd (fst c)) L (snd c))) L h)).
  { induction h as [|c h IH]; intros L HL; simpl; [done|].
    apply IH. by apply merge_one_per_title. }
  apply Hgen. intros s. unfold records_of. rewrite lookup_empty. simpl. constructor.
Qed.

(** *** Replaying a batch *)

Lemma merge_update_present clk src st u :
  dict_get u "title" ∈ titles (records_of (ms_log (merge_update clk src st u)) src).
Proof.
  rewrite merge_update_records. destruct (decide (src = src)); [|done].
  destruct (is_new (records_of (ms_log st) src) u) eqn:E.
  - rewrite titles_app, elem_of_app. right. simpl. rewrite stamp_title.
    apply list_elem_of_here.
  - rewrite app_nil_r. destruct (decide (dict_get u "title" ∈ titles (records_of (ms_log st) src)))
      as [|Hn]; [done|]. apply is_new_spec in Hn. congruence.
Qed.

Lemma merge_update_mono clk src st u s t :
  t ∈ titles (records_of (ms_log st) s) ->
  t ∈ titles (records_of (ms_log (merge_update clk src st u)) s).
Proof.
  intros H. rewrite merge_update_records, titles_app, elem_of_app. by left.
Qed.

Lemma merge_updates_mono clk src us : forall st s t,
  t ∈ titles (records_of (ms_log st) s) ->
  t ∈ titles (records_of (ms_log (foldl (merge_update clk src) st us)) s).
Proof.
  induction us as [|u us IH]; intros st s t H; simpl; [done|].
  by apply IH, merge_update_mono.
Qed.

Lemma merge_updates_keys clk src us : forall st s,
  is_Some (ms_log st !! s) ->
  is_Some (ms_log (foldl (merge_update clk src) st us) !! s).
Proof.
  induction us as [|u us IH]; intros st s H; simpl; [done|].
  by apply IH, merge_update_keys.
Qed.

Lemma merge_updates_present clk src us : forall st u,
  u ∈ us ->
  dict_get u "title" ∈ titles (records_of (ms_log (foldl (merge_update clk src) st us)) src).
Proof.
  induction us as [|x us IH]; intros st u Hu; simpl.
  - by apply elem_of_nil in Hu.
  - apply elem_of_cons in Hu as [->|Hu].
    + apply merge_updates_mono, merge_update_present.
    + by apply IH.
Qed.

Lemma merge_source_present clk st item :
  batch_present (ms_log (merge_source clk st item)) item.
Proof.
  unfold merge_source. split.
  - apply merge_updates_keys, ensure_source_key.
  - intros u Hu. by apply merge_updates_present.
Qed.

Lemma merge_source_mono clk st item item' :
  batch_present (ms_log st) item' ->
  batch_present (ms_log (merge_source clk st item)) item'.
Proof.
  intros [Hk Ht]. unfold merge_source. split.
  - by apply merge_updates_keys, ensure_source_keys.
  - intros u Hu. apply merge_updates_mono. rewrite ensure_source_records. by apply Ht.
Qed.

Lemma merge_sources_mono clk items : forall st item',
  batch_present (ms_log st) item' ->
  batch_present (ms_log (foldl (merge_source clk) st items)) item'.
Proof.
  induction items as [|it items IH]; intros st item' H; simpl; [done|].
  by apply IH, merge_source_mono.
Qed.

Lemma merge_sources_present clk items : forall st item,
  item ∈ items -> batch_present (ms_log (foldl (merge_source clk) st items)) item.
Proof.
  induction items as [|it items IH]; intros st item Hin; simpl.
  - by apply elem_of_nil in Hin.
  - apply elem_of_cons in Hin as [->|Hin].
    + apply merge_sources_mono, merge_source_present.
    + by apply IH.
Qed.

(** After a merge every record of the batch is in the log. *)
Lemma merge_present clk k L inc item :
  item ∈ inc -> batch_present (ms_log (merge clk k L inc)) item.
Proof. apply merge_sources_present. Qed.

(** A batch whose records are all in the log changes nothing. *)
Lemma merge_update_noop clk src st u :
  dict_get u "title" ∈ titles (records_of (ms_log st) src) ->
  merge_update clk src st u = st.
Proof.
  intros H. unfold merge_update. fold (records_of (ms_log st) src).
  destruct (is_new (records_of (ms_log st) src) u) eqn:E; [|done].
  apply is_new_spec in E. done.
Qed.

Lemma merge_source_noop clk st item :
  batch_present (ms_log st) item -> merge_source clk st item = st.
Proof.
  intros [[l Hk] Ht]. unfold merge_source.
  assert (ensure_source (fst item) st = st) as ->.
  { unfold ensure_source. by rewrite Hk. }
  induction (snd item) as [|u us IH]; simpl; [done|].
  rewrite merge_update_noop.
  - apply IH. intros x Hx. apply Ht. by apply list_elem_of_further.
  - apply Ht, list_elem_of_here.
Qed.

Lemma merge_sources_noop clk items : forall st,
  (forall item, item ∈ items -> batch_present (ms_log st) item) ->
  foldl (merge_source clk) st items = st.
Proof.
  induction items as [|it items IH]; intros st H; simpl; [done|].
  rewrite merge_source_noop by apply H, list_elem_of_here.
  apply IH. intros x Hx. apply H. by apply list_elem_of_further.
Qed.

(** C1: a merge only appends, and what it appends for a source are stamped
    records of the batch whose titles the source did not hold and which
    differ from one another (the test sees the records appended earlier in
    the same call); every record of the batch has its title in the log
    afterwards; hence every log built by merges from the empty log holds at
    most one record per source and title, whatever the content of the
    records. *)
Theorem merge_appends_absent_titles_once clk k (L : update_log)
    (inc : list (string * list update)) :
  (forall s, exists added,
      records_of (ms_log (merge clk k L inc)) s = records_of L s ++ added /\
      NoDup (titles added) /\
      (forall t, t ∈ titles added -> t ∉ titles (records_of L s)) /\
      Forall (fun a => exists ups u j, (s, ups) ∈ inc /\ u ∈ ups /\ a = stamp (clk j) u)
        added) /\
  (forall s ups u, (s, ups) ∈ inc -> u ∈ ups ->
      dict_get u "title" ∈ titles (records_of (ms_log (merge clk k L inc)) s)) /\
  (forall h, one_per_title (merge_history (h ++ [(clk, k, inc)]))).
Proof.
  split; [|split].
  - apply merge_added_since.
  - intros s ups u Hin Hu.
    destruct (merge_present clk k L inc (s, ups) Hin) as [_ H]. by apply H.
  - intros h. apply merge_history_one_per_title.
Qed.

(** C2: merging a batch and then the same batch again changes nothing the
    second time: the log is the one the first merge produced, no record is
    stamped, nothing is reported as new. *)
Theorem merge_replay_adds_nothing clk k clk' k' (L : update_log)
    (inc : list (string * list update)) :
  merge clk' k' (ms_log (merge clk k L inc)) inc =
  mk_merge (ms_log (merge clk k L inc)) false k' [].
Proof.
  unfold merge at 1. apply merge_sources_noop. simpl.
  intros item Hin. by apply merge_present.
Qed.

(** ** A cycle whose write fails *)

(** C3, as stated, fails: when the write of the merged log fails, the
    caller is handed [True] like after a successful cycle, not an error; and
    a write that fails after the file was opened does not leave the
    previous log in place. *)
Lemma failed_save_returns_true :
  write_regulatory_updates (sample_env WriteFailsOnOpen) = WriteFailsOnOpen /\
  snd (check_regulatory_updates sample_config (sample_env WriteFailsOnOpen) sample_world)
    = Ok true /\
  regulatory_updates_db
    (fs (fst (check_regulatory_updates sample_config (sample_env WriteFailsAfterOpen)
                sample_world)))
    <> regulatory_updates_db (fs sample_world).
Proof. vm_compute. repeat split. discriminate. Qed.

(** C3, amended: when the write of the merged log fails, the cycle logs the
    failure and returns [True]; nothing of the alert evaluation happens (the
    clock is not read again, no mail leaves, the ledger and the clients file
    are as before, the failure is the last log entry); the log file is as
    before when the file could not be opened, and unreadable when the write
    failed after that. *)
Theorem failed_save_skips_alerts cfg e w new_updates :
  scraper_check_for_updates e = Ok new_updates ->
  ms_has_new (merge (clock e) (tick w) (default ∅ (regulatory_updates_db (fs w)))
                new_updates) = true ->
  write_regulatory_updates e <> WriteOk ->
  snd (check_regulatory_updates cfg e w) = Ok true /\
  tick (fst (check_regulatory_updates cfg e w)) =
    ms_tick (merge (clock e) (tick w) (default ∅ (regulatory_updates_db (fs w)))
               new_updates) /\
  trace (fst (check_regulatory_updates cfg e w)) =
    (trace w ++
     match regulatory_updates_db (fs w) with Some _ => [] | None => [ErrorLoadingUpdates] end ++
     ms_trace (merge (clock e) (tick w) (default ∅ (regulatory_updates_db (fs w)))
                 new_updates)) ++ [ErrorSavingUpdates IOError] /\
  outbox (fst (check_regulatory_updates cfg e w)) = outbox w /\
  client_alerts_db (fs (fst (check_regulatory_updates cfg e w))) = client_alerts_db (fs w) /\
  clients_db (fs (fst (check_regulatory_updates cfg e w))) = clients_db (fs w) /\
  regulatory_updates_db (fs (fst (check_regulatory_updates cfg e w))) =
    match write_regulatory_updates e with
    | WriteFailsOnOpen => regulatory_updates_db (fs w)
    | _ => None
    end.
Proof.
  intros Hs Hnew Hw. unfold check_regulatory_updates. rewrite Hs.
  destruct (regulatory_updates_db (fs w)) as [l|] eqn:El; simpl in *;
    rewrite Hnew; destruct (write_regulatory_updates e); try done; simpl;
    rewrite ?El, ?app_nil_r, <- ?app_assoc; repeat split; done.
Qed.

Lemma failed_save_skips_alerts_witness :
  scraper_check_for_updates (sample_env WriteFailsOnOpen) =
    Ok [("eur-lex", [sample_update "Reg A"; sample_update "Reg B"])] /\
  ms_has_new (merge sample_clock 0 ∅
                [("eur-lex", [sample_update "Reg A"; sample_update "Reg B"])]) = true /\
  write_regulatory_updates (sample_env WriteFailsOnOpen) <> WriteOk /\
  snd (check_regulatory_updates sample_config (sample_env WriteFailsOnOpen) sample_world)
    = Ok true /\
  regulatory_updates_db
    (fs (fst (check_regulatory_updates sample_config (sample_env WriteFailsOnOpen)
                sample_world))) = Some ∅.
Proof.
  assert (H1 : scraper_check_for_updates (sample_env WriteFailsOnOpen) =
    Ok [("eur-lex", [sample_update "Reg A"; sample_update "Reg B"])]) by reflexivity.
  assert (H2 : ms_has_new (merge sample_clock 0 ∅
    [("eur-lex", [sample_update "Reg A"; sample_update "Reg B"])]) = true)
    by (vm_compute; reflexivity).
  assert (H3 : write_regulatory_updates (sample_env WriteFailsOnOpen) <> WriteOk)
    by (simpl; discriminate).
  pose proof (failed_save_skips_alerts sample_config (sample_env WriteFailsOnOpen)
                sample_world _ H1 H2 H3) as (Hr & _ & _ & _ & _ & _ & Hf).
  repeat split; assumption.
Defined.

(** ** Dispatch and the ledger *)

(** The loop over the clients attempts every client, whatever happened to
    the ones before. *)
Lemma send_loop_spec e body (cs : list (string * gmap string pyval)) : forall w,
  foldl (send_one e body) w cs =
  mk_world (fs w) (tick w) (trace w ++ (send_entry e <$> cs))
    (outbox w ++ omap (send_mail e body) cs).
Proof.
  induction cs as [|c cs IH]; intros w; simpl.
  - rewrite !app_nil_r. by destruct w.
  - rewrite IH. unfold send_one, send_entry, send_mail, client_email, log_msg.
    destruct (smtp_delivers e (fst c)); simpl; by rewrite <- !app_assoc.
Qed.

Lemma send_all_spec e body (cl : clients) w :
  send_all e body cl w =
  mk_world (fs w) (tick w) (trace w ++ (send_entry e <$> map_to_list cl))
    (outbox w ++ omap (send_mail e body) (map_to_list cl)).
Proof. apply send_loop_spec. Qed.

Lemma count_list_keys thr l : forall acc n,
  count_list thr l acc = Ok n -> forallb is_str (discovered_key <$> l) = true.
Proof.
  induction l as [|u l IH]; intros acc n H; simpl in *; [done|].
  unfold discovered_key at 1.
  destruct (dict_get_or u "discovered_date" (PStr "")) as [|s]; simpl in *; [done|].
  destruct (String.leb thr s); eauto.
Qed.

Lemma sorted_of_str_keys l :
  forallb is_str (discovered_key <$> l) = true ->
  sorted_discovered_desc l = Ok (foldl (fun acc x => insert_desc x acc) [] l).
Proof.
  intros H. unfold sorted_discovered_desc. rewrite H. simpl.
  by rewrite andb_false_r.
Qed.

(** When the count goes through, so does the composition of the body. *)
Lemma count_items_compose thr items : forall acc n,
  count_items thr items acc = Ok n -> exists body, compose_items items = Ok body.
Proof.
  induction items as [|[s l] items IH]; intros acc n H; simpl in *; [eauto|].
  destruct (count_list thr l acc) as [m|] eqn:E; [|done].
  apply count_list_keys in E. rewrite (sorted_of_str_keys _ E).
  destruct (IH _ _ H) as [body ->]. eauto.
Qed.

Lemma log_msg_fs m w : fs (log_msg m w) = fs w.
Proof. done. Qed.

Lemma log_msg_tick m w : tick (log_msg m w) = tick w.
Proof. done. Qed.

(** C8: when the threshold is reached, every client of the clients file is
    attempted, whether or not the delivery to another client failed: a
    client the server accepts gets the mail, a failure is logged for that
    client; and the alert is recorded in the ledger with [updates_sent] set,
    whatever the deliveries did. *)
Theorem dispatch_failures_do_not_block cfg e w (updates : update_log) thr n :
  regulatory_updates_db (fs w) = Some updates ->
  datetime.sub_days (clock e (tick w)) 7 = Ok thr ->
  count_recent updates (datetime.isoformat thr) = Ok n ->
  alert_threshold cfg <= n ->
  write_client_alerts e = WriteOk ->
  snd (_check_and_send_alerts cfg e w) = None /\
  (forall id info, default ∅ (clients_db (fs w)) !! id = Some info ->
     if smtp_delivers e id
     then exists body,
       mk_mail id (client_email info) body ∈ outbox (fst (_check_and_send_alerts cfg e w))
     else ErrorFailedToSend (client_email info) SMTPException
            ∈ trace (fst (_check_and_send_alerts cfg e w))) /\
  client_alerts_db (fs (fst (_check_and_send_alerts cfg e w))) =
    Some (<[make_alert_id (clock e (S (tick w))) :=
              mk_alert (make_alert_id (clock e (S (tick w))))
                (datetime.isoformat (clock e (S (S (tick w))))) n true]>
            (default ∅ (client_alerts_db (fs w)))).
Proof.
  intros Hu Ht Hc Hn Hw.
  destruct (count_items_compose _ _ _ _ Hc) as [body Hbody].
  assert (Hle : (alert_threshold cfg <=? n) = true) by by apply Z.leb_le.
  unfold _check_and_send_alerts. rewrite Hu.
  destruct (client_alerts_db (fs w)) as [a|] eqn:Ea;
  destruct (clients_db (fs w)) as [c|] eqn:Ec; simpl;
    rewrite ?Ec; simpl; rewrite Ht, Hc, Hle; unfold _send_alerts_to_clients, compose_body;
    rewrite Hbody; simpl; unfold save_alert_history; rewrite Hw; simpl;
    rewrite send_all_spec; simpl; (split; [done|]); (split; [|done]);
    intros id info Hl; try by rewrite lookup_empty in Hl.
  all: apply elem_of_map_to_list in Hl;
    destruct (smtp_delivers e id) eqn:Es.
  all: try (exists body; apply elem_of_app; right; apply list_elem_of_omap;
            exists (id, info); split; [done|]; unfold send_mail; simpl; by rewrite Es).
  all: apply elem_of_app; left; apply elem_of_app; right; apply list_elem_of_fmap;
       exists (id, info); split; [|done]; unfold send_entry; simpl; by rewrite Es.
Qed.

Lemma dispatch_failures_do_not_block_witness :
  smtp_delivers sample_alert_env "c1" = false /\
  snd (_check_and_send_alerts sample_config sample_alert_env sample_alert_world) = None /\
  (exists body,
     mk_mail "c2" "b@example.com" body
       ∈ outbox (fst (_check_and_send_alerts sample_config sample_alert_env
                        sample_alert_world))) /\
  ErrorFailedToSend "a@example.com" SMTPException
    ∈ trace (fst (_check_and_send_alerts sample_config sample_alert_env sample_alert_world)) /\
  client_alerts_db
    (fs (fst (_check_and_send_alerts sample_config sample_alert_env sample_alert_world))) =
  Some {[ "alert_20250910_120000" :=
            mk_alert "alert_20250910_120000" "2025-09-10T12:00:00" 3 true ]}.
Proof.
  assert (H1 : regulatory_updates_db (fs sample_alert_world) = Some sample_log)
    by reflexivity.
  assert (H2 : datetime.sub_days (clock sample_alert_env (tick sample_alert_world)) 7 =
               Ok (datetime.mk 739497 43200000000)) by reflexivity.
  assert (H3 : count_recent sample_log
                 (datetime.isoformat (datetime.mk 739497 43200000000)) = Ok 3)
    by (vm_compute; reflexivity).
  assert (H4 : alert_threshold sample_config <= 3) by (vm_compute; discriminate).
  assert (H5 : write_client_alerts sample_alert_env = WriteOk) by reflexivity.
  pose proof (dispatch_failures_do_not_block sample_config sample_alert_env
                sample_alert_world sample_log _ 3 H1 H2 H3 H4 H5) as (Hr & Hs & Hl).
  split; [reflexivity|]. split; [exact Hr|]. split; [|split].
  - assert (Hk : default ∅ (clients_db (fs sample_alert_world)) !! "c2" =
                 Some {[ "email" := PStr "b@example.com" ]}) by (vm_compute; reflexivity).
    exact (Hs _ _ Hk).
  - assert (Hk : default ∅ (clients_db (fs sample_alert_world)) !! "c1" =
                 Some {[ "email" := PStr "a@example.com" ]}) by (vm_compute; reflexivity).
    exact (Hs _ _ Hk).
  - rewrite Hl. vm_compute. reflexivity.
Defined.

(** *** The ledger *)

Lemma same_second_same_clock_fields (a b : datetime.t) :
  datetime.usec a / 1000000 = datetime.usec b / 1000000 ->
  datetime.hour a = datetime.hour b /\ datetime.minute a = datetime.minute b /\
  datetime.second a = datetime.second b.
Proof.
  intros H. unfold datetime.hour, datetime.minute, datetime.second.
  replace 3600000000 with (1000000 * 3600) by done.
  replace 60000000 with (1000000 * 60) by done.
  rewrite <- !Z.div_div by done. by rewrite H.
Qed.

Lemma same_second_same_id (a b : datetime.t) :
  datetime.ordinal a = datetime.ordinal b ->
  datetime.usec a / 1000000 = datetime.usec b / 1000000 ->
  make_alert_id a = make_alert_id b.
Proof.
  intros Ho Hu. destruct (same_second_same_clock_fields a b Hu) as (Hh & Hm & Hs).
  unfold make_alert_id, datetime.strftime_Ymd_HMS. by rewrite Ho, Hh, Hm, Hs.
Qed.

(** C9, as stated, fails: two evaluations within the same second both
    fire, and the ledger file then holds one event, the second: the event
    that the first evaluation recorded has been replaced. *)
Lemma same_second_alert_replaces_earlier :
  client_alerts_db
    (fs (fst (_check_and_send_alerts sample_config sample_same_second_env
                sample_alert_world))) =
  Some {[ "alert_20250910_120000" :=
            mk_alert "alert_20250910_120000" "2025-09-10T12:00:00.000002" 3 true ]} /\
  client_alerts_db
    (fs (fst (_check_and_send_alerts sample_config sample_same_second_env
                (fst (_check_and_send_alerts sample_config sample_same_second_env
                        sample_alert_world))))) =
  Some {[ "alert_20250910_120000" :=
            mk_alert "alert_20250910_120000" "2025-09-10T12:00:00.000005" 3 true ]}.
Proof. split; vm_compute; reflexivity. Qed.

(** C9, amended: what the ledger file holds after an evaluation that
    fires.  When the write succeeds, the file holds the new event under its
    id and, under every other id, what the ledger held when it was loaded
    (nothing, when it could not be loaded: the file is then the new event
    alone); an earlier event with the id of the new one is replaced, and two
    times within the same second of the same day give the same id.  When the
    file cannot be opened for writing it stays as it was and the event is not
    recorded; when the write fails after the file was opened, the file does
    not load any more: every earlier event is lost. *)
Theorem ledger_after_recording_an_alert cfg e w (updates : update_log) thr n :
  regulatory_updates_db (fs w) = Some updates ->
  datetime.sub_days (clock e (tick w)) 7 = Ok thr ->
  count_recent updates (datetime.isoformat thr) = Ok n ->
  alert_threshold cfg <= n ->
  (write_client_alerts e = WriteOk ->
   exists L',
     client_alerts_db (fs (fst (_check_and_send_alerts cfg e w))) = Some L' /\
     L' !! make_alert_id (clock e (S (tick w))) =
       Some (mk_alert (make_alert_id (clock e (S (tick w))))
               (datetime.isoformat (clock e (S (S (tick w))))) n true) /\
     forall k, k <> make_alert_id (clock e (S (tick w))) ->
       L' !! k = default ∅ (client_alerts_db (fs w)) !! k) /\
  (write_client_alerts e = WriteFailsOnOpen ->
   client_alerts_db (fs (fst (_check_and_send_alerts cfg e w))) =
     client_alerts_db (fs w)) /\
  (write_client_alerts e = WriteFailsAfterOpen ->
   client_alerts_db (fs (fst (_check_and_send_alerts cfg e w))) = None) /\
  (forall t', datetime.ordinal t' = datetime.ordinal (clock e (S (tick w))) ->
     datetime.usec t' / 1000000 = datetime.usec (clock e (S (tick w))) / 1000000 ->
     make_alert_id t' = make_alert_id (clock e (S (tick w)))).
Proof.
  intros Hu Ht Hc Hn.
  destruct (count_items_compose _ _ _ _ Hc) as [body Hbody].
  assert (Hle : (alert_threshold cfg <=? n) = true) by by apply Z.leb_le.
  assert (Hfile :
    client_alerts_db (fs (fst (_check_and_send_alerts cfg e w))) =
    match write_client_alerts e with
    | WriteOk =>
        Some (record_alert (default ∅ (client_alerts_db (fs w)))
                (clock e (S (tick w))) (clock e (S (S (tick w)))) n)
    | WriteFailsOnOpen => client_alerts_db (fs w)
    | WriteFailsAfterOpen => None
    end).
  { unfold _check_and_send_alerts. rewrite Hu.
    destruct (client_alerts_db (fs w)) as [a|] eqn:Ea;
    destruct (clients_db (fs w)) as [c|] eqn:Ec; simpl;
      rewrite ?Ec; simpl; rewrite Ht, Hc, Hle;
      unfold _send_alerts_to_clients, compose_body;
      rewrite Hbody; simpl; unfold save_alert_history;
      destruct (write_client_alerts e); simpl; rewrite ?send_all_spec; simpl;
      by rewrite ?Ea. }
  split; [|split; [|split]].
  - intros Hw. rewrite Hw in Hfile. eexists. split; [exact Hfile|].
    unfold record_alert. split.
    + by rewrite lookup_insert_eq.
    + intros k Hk. by rewrite lookup_insert_ne.
  - intros Hw. by rewrite Hw in Hfile.
  - intros Hw. by rewrite Hw in Hfile.
  - intros t' Ho Hs. by apply same_second_same_id.
Qed.

Lemma ledger_after_recording_an_alert_witness :
  client_alerts_db
    (fs (fst (_check_and_send_alerts sample_config sample_lost_ledger_env
                sample_fired_world))) = None /\
  client_alerts_db (fs sample_fired_world) =
    Some {[ "alert_20250909_120000" :=
              mk_alert "alert_20250909_120000" "2025-09-09T12:00:00" 3 true ]}.
Proof.
  assert (H1 : regulatory_updates_db (fs sample_fired_world) = Some sample_log)
    by reflexivity.
  assert (H2 : datetime.sub_days (clock sample_lost_ledger_env (tick sample_fired_world)) 7 =
               Ok (datetime.mk 739497 43200000000)) by reflexivity.
  assert (H3 : count_recent sample_log
                 (datetime.isoformat (datetime.mk 739497 43200000000)) = Ok 3)
    by (vm_compute; reflexivity).
  assert (H4 : alert_threshold sample_config <= 3) by (vm_compute; discriminate).
  destruct (ledger_after_recording_an_alert sample_config sample_lost_ledger_env
              sample_fired_world sample_log _ 3 H1 H2 H3 H4) as (_ & _ & H & _).
  split; [exact (H eq_refl)|reflexivity].
Defined.

(** ** The body of the alert *)

Lemma insert_desc_perm x (l : list update) : insert_desc x l ≡ₚ x :: l.
Proof.
  induction l as [|y l IH]; simpl; [done|].
  destruct (String.ltb _ _); [done|]. rewrite IH. apply Permutation_swap.
Qed.

Lemma insert_desc_sorted x (l : list update) :
  StronglySorted newest_first l -> StronglySorted newest_first (insert_desc x l).
Proof.
  induction l as [|y l IH]; intros Hs; simpl.
  - repeat constructor.
  - apply StronglySorted_inv in Hs as [Hl Hy].
    destruct (String.ltb (py_str (discovered_key y)) (py_str (discovered_key x))) eqn:E.
    + constructor; [by constructor|]. constructor.
      * by apply string_ltb_leb.
      * eapply Forall_impl; [exact Hy|]. intros z Hz.
        apply string_ltb_leb. eapply string_leb_ltb_trans; [exact Hz|exact E].
    + constructor; [by apply IH|].
      rewrite insert_desc_perm. constructor; [|done].
      by apply string_not_ltb_leb.
Qed.

Lemma filter_none {A} (P : A -> Prop) `{!forall x, Decision (P x)} (l : list A) :
  Forall (fun x => ~ P x) l -> filter P l = [].
Proof.
  induction 1 as [|x l Hx _ IH]; [done|]. by rewrite filter_cons_False.
Qed.

Lemma insert_desc_stable x (l : list update) k :
  StronglySorted newest_first l ->
  filter (fun u => discovered_str u = k) (insert_desc x l) =
  filter (fun u => discovered_str u = k) l ++
  (if decide (discovered_str x = k) then [x] else []).
Proof.
  induction l as [|y l IH]; intros Hs; simpl.
  - rewrite filter_cons, filter_nil. by destruct (decide (discovered_str x = k)).
  - apply StronglySorted_inv in Hs as [Hl Hy].
    destruct (String.ltb (py_str (discovered_key y)) (py_str (discovered_key x))) eqn:E.
    + rewrite filter_cons. destruct (decide (discovered_str x = k)) as [Hk|Hk];
        [|by rewrite app_nil_r].
      assert (Hnone : filter (fun u => discovered_str u = k) (y :: l) = []).
      { apply filter_none. constructor.
        - intros Hyk. unfold discovered_str in *. rewrite Hyk, <- Hk in E.
          by rewrite string_ltb_irrefl in E.
        - rewrite Forall_forall. intros z Hz Hzk.
          rewrite Forall_forall in Hy. specialize (Hy z Hz).
          pose proof (string_leb_ltb_trans _ _ _ Hy E) as Hlt.
          unfold discovered_str in *. rewrite Hzk, <- Hk in Hlt.
          by rewrite string_ltb_irrefl in Hlt. }
      by rewrite Hnone.
    + rewrite !filter_cons, IH by done.
      by destruct (decide (discovered_str y = k)).
Qed.

Lemma insertion_sort_stable (l : list update) : forall acc,
  StronglySorted newest_first acc ->
  foldl (fun acc x => insert_desc x acc) acc l ≡ₚ acc ++ l /\
  StronglySorted newest_first (foldl (fun acc x => insert_desc x acc) acc l) /\
  forall k, filter (fun u => discovered_str u = k)
              (foldl (fun acc x => insert_desc x acc) acc l) =
            filter (fun u => discovered_str u = k) (acc ++ l).
Proof.
  induction l as [|x l IH]; intros acc Hacc; simpl.
  - rewrite app_nil_r. done.
  - destruct (IH (insert_desc x acc) (insert_desc_sorted x acc Hacc)) as (Hp & Hs & Hf).
    split; [|split; [done|]].
    + rewrite Hp, insert_desc_perm. simpl. apply Permutation_middle.
    + intros k. rewrite Hf, !filter_app, insert_desc_stable by done.
      rewrite filter_cons, <- app_assoc.
      by destruct (decide (discovered_str x = k)).
Qed.

(** The model of [sorted(..., reverse=True)] is the stable sort, newest
    first. *)
Lemma sorted_discovered_desc_spec (l sorted : list update) :
  sorted_discovered_desc l = Ok sorted -> stable_newest_first l sorted.
Proof.
  unfold sorted_discovered_desc. destruct (_ && _); [done|]. intros [= <-].
  destruct (insertion_sort_stable l [] (SSorted_nil _)) as (Hp & Hs & Hf). done.
Qed.

Lemma compose_items_spec (items : list (string * list update)) : forall body,
  compose_items items = Ok body ->
  Forall2 (fun section item =>
     fst section = upper (fst item) /\
     exists sorted, stable_newest_first (snd item) sorted /\
                    snd section = render_update <$> take 3 sorted) body items.
Proof.
  induction items as [|[s l] items IH]; intros body H; simpl in H.
  - injection H as <-. constructor.
  - destruct (sorted_discovered_desc l) as [sorted|] eqn:Es; [|done].
    destruct (compose_items items) as [rest|]; [|done].
    injection H as <-. constructor; [|by apply IH].
    simpl. split; [done|]. exists sorted. split; [|done].
    by apply sorted_discovered_desc_spec.
Qed.

(** C7, as stated, fails: in a cycle that adds two records for [eur-lex]
    and none for [gdpr], the mail has a section for [gdpr] with its old
    record; the content of a record is shown as it is stored. *)
Lemma alert_body_shows_unchanged_source :
  records_of sample_gdpr_log "gdpr" =
    [stamp (datetime.mk 739252 0) (sample_update "Old rule")] /\
  scraper_check_for_updates (sample_env WriteOk) =
    Ok [("eur-lex", [sample_update "Reg A"; sample_update "Reg B"])] /\
  mail_body <$>
    outbox (fst (check_regulatory_updates sample_threshold_2 (sample_env WriteOk)
                   sample_gdpr_world)) =
  [ [("GDPR", [mk_rendered "Old rule" "2025-09-10" "text" "None"]);
     ("EUR-LEX", [mk_rendered "Reg A" "2025-09-10" "text" "None";
                  mk_rendered "Reg B" "2025-09-10" "text" "None"])];
    [("GDPR", [mk_rendered "Old rule" "2025-09-10" "text" "None"]);
     ("EUR-LEX", [mk_rendered "Reg A" "2025-09-10" "text" "None";
                  mk_rendered "Reg B" "2025-09-10" "text" "None"])] ].
Proof. repeat split; vm_compute; reflexivity. Qed.

(** C7, amended: the body has one section for every source of the log,
    whether or not the cycle added a record for it; a section shows the
    first three records of the source in the order newest first by
    [discovered_date], records with the same stamp in the order of the log;
    each is rendered with its title, date, content (in full) and url; and
    every mail of the dispatch carries this body. *)
Theorem alert_body_sections (updates : update_log) (body : payload) :
  compose_body updates = Ok body ->
  Forall2 (fun section item =>
     fst section = upper (fst item) /\
     exists sorted, stable_newest_first (snd item) sorted /\
                    snd section = render_update <$> take 3 sorted)
    body (map_to_list updates) /\
  Forall (fun section => (length (snd section) <= 3)%nat) body /\
  (forall u, r_content (render_update u) =
             py_str (dict_get_or u "content" (PStr "No content available"))) /\
  (forall e cl w m, m ∈ outbox (fst (_send_alerts_to_clients e updates cl w)) ->
     m ∈ outbox w \/ mail_body m = body).
Proof.
  intros H. pose proof (compose_items_spec _ _ H) as HF.
  split; [done|]. split; [|split; [done|]].
  - clear H. induction HF as [|sec item body items (_ & sorted & _ & Hsec) _ IH];
      constructor; [|done].
    rewrite Hsec, length_fmap, length_take. lia.
  - intros e cl w m. unfold _send_alerts_to_clients. rewrite H. simpl.
    rewrite send_all_spec. simpl. rewrite elem_of_app. intros [Hm|Hm]; [by left|].
    right. apply list_elem_of_omap in Hm as (c & _ & Hc).
    unfold send_mail in Hc. destruct (smtp_delivers e (fst c)); [|done].
    by injection Hc as <-.
Qed.

Lemma alert_body_sections_witness :
  compose_body sample_log =
    Ok [("EUR-LEX", [mk_rendered "Reg A" "2025-09-10" "text" "None";
                     mk_rendered "Reg B" "2025-09-10" "text" "None";
                     mk_rendered "Reg C" "2025-09-10" "text" "None"])] /\
  Forall (fun section : string * list rendered_update => (length (snd section) <= 3)%nat)
    [("EUR-LEX", [mk_rendered "Reg A" "2025-09-10" "text" "None";
                  mk_rendered "Reg B" "2025-09-10" "text" "None";
                  mk_rendered "Reg C" "2025-09-10" "text" "None"])].
Proof.
  assert (H : compose_body sample_log =
    Ok [("EUR-LEX", [mk_rendered "Reg A" "2025-09-10" "text" "None";
                     mk_rendered "Reg B" "2025-09-10" "text" "None";
                     mk_rendered "Reg C" "2025-09-10" "text" "None"])])
    by (vm_compute; reflexivity).
  split; [exact H|]. exact (proj1 (proj2 (alert_body_sections _ _ H))).
Defined.

(** ** The date normalizer *)

Lemma digits_upto_spec hi : forall l x rest,
  (x, rest) ∈ digits_upto hi l <-> l = x ++ rest /\ all_digits x /\ (length x <= hi)%nat.
Proof.
  induction hi as [|h IH]; intros l x rest; simpl.
  - rewrite list_elem_of_singleton. split.
    + intros [= -> ->]. repeat split; [constructor|done].
    + intros (-> & _ & Hl). destruct x; [done|simpl in Hl; lia].
  - destruct l as [|c r].
    { rewrite list_elem_of_singleton. split.
      - intros [= -> ->]. repeat split; [constructor|simpl; lia].
      - intros (Hl & _ & _). symmetry in Hl. apply app_eq_nil in Hl as [-> ->]. done. }
    destruct (is_digit c) eqn:Ec.
    + rewrite elem_of_app, list_elem_of_fmap, list_elem_of_singleton. split.
      * intros [([x' rest'] & [= -> ->] & Hin)|[= -> ->]].
        -- apply IH in Hin as (-> & Hd & Hl). simpl.
           repeat split; [by constructor|lia].
        -- repeat split; [constructor|simpl; lia].
      * intros (Hl & Hd & Hn). destruct x as [|c' x]; simpl in *.
        -- right. by subst.
        -- left. injection Hl as <- ->. exists (x, rest). split; [done|].
           apply IH. apply Forall_cons in Hd as [_ Hd]. repeat split; [done|lia].
    + rewrite list_elem_of_singleton. split.
      * intros [= -> ->]. repeat split; [constructor|simpl; lia].
      * intros (Hl & Hd & _). destruct x as [|c' x]; simpl in *; [by subst|].
        injection Hl as <- ->. apply Forall_cons in Hd as [Hc _]. congruence.
Qed.

Lemma digits_spec lo hi l x rest :
  (x, rest) ∈ digits lo hi l <-> l = x ++ rest /\ digit_run lo hi x.
Proof.
  unfold digits, digit_run. rewrite list_elem_of_filter, digits_upto_spec. simpl.
  rewrite Nat.leb_le. tauto.
Qed.

Lemma lit_spec c l u rest : (u, rest) ∈ lit c l <-> l = c :: rest.
Proof.
  unfold lit. destruct l as [|x r]; [by rewrite elem_of_nil|].
  destruct (N.eqb_spec x c) as [->|Hne].
  - rewrite list_elem_of_singleton. destruct u. split; [by intros [= ->]|by intros [= ->]].
  - rewrite elem_of_nil. split; [done|]. intros [= ? ?]. done.
Qed.

Lemma eos_spec l u rest : (u, rest) ∈ eos l <-> l = [] /\ rest = [].
Proof.
  unfold eos. destruct l.
  - rewrite list_elem_of_singleton. destruct u.
    split; [by intros [= ->]|by intros [_ ->]].
  - rewrite elem_of_nil. split; [done|by intros [? _]].
Qed.

Lemma pbind_spec {A B} (p : pattern A) (f : A -> pattern B) l b rest :
  (b, rest) ∈ pbind p f l <-> exists a mid, (a, mid) ∈ p l /\ (b, rest) ∈ f a mid.
Proof.
  unfold pbind. rewrite list_elem_of_bind. split.
  - intros ([a mid] & H1 & H2). eauto.
  - intros (a & mid & H1 & H2). exists (a, mid). done.
Qed.

Lemma pret_spec {A} (a : A) l b rest : (b, rest) ∈ pret a l <-> b = a /\ rest = l.
Proof.
  unfold pret. rewrite list_elem_of_singleton.
  split; [by intros [= -> ->]|by intros [-> ->]].
Qed.

Ltac pat_inv H :=
  repeat match type of H with
  | (_, _) ∈ pbind _ _ _ =>
      let a := fresh "a" in
      let mid := fresh "mid" in
      let H1 := fresh "H" in
      apply pbind_spec in H as (a & mid & H1 & H);
      first [ apply digits_spec in H1 as (-> & H1)
            | apply lit_spec in H1 as ->
            | apply eos_spec in H1 as (-> & ->) ]
  | (_, _) ∈ pret _ _ => apply pret_spec in H as (-> & ->)
  end.

Ltac pat_step :=
  apply pbind_spec; first [exists tt; eexists | eexists _, _]; split;
  [ first [ apply digits_spec; split;
              [first [reflexivity | symmetry; apply app_nil_r]|eassumption]
          | apply lit_spec; reflexivity
          | apply eos_spec; split; reflexivity ] | ].

Lemma re_ymd_spec l x rest :
  (x, rest) ∈ re_ymd l <->
  rest = [] /\ shape_ymd l (fst (fst x)) (snd (fst x)) (snd x).
Proof.
  unfold re_ymd, shape_ymd. split.
  - intros H. pat_inv H. simpl. rewrite app_nil_r. done.
  - destruct x as [[y mo] da]. simpl. intros (-> & -> & Hy & Hm & Hd).
    do 6 pat_step. by apply pret_spec.
Qed.

Lemma re_dmy_spec l x rest :
  (x, rest) ∈ re_dmy l <->
  rest = [] /\ shape_dmy l (fst (fst x)) (snd (fst x)) (snd x).
Proof.
  unfold re_dmy, shape_dmy. split.
  - intros H. pat_inv H. simpl. rewrite app_nil_r. done.
  - destruct x as [[da mo] y]. simpl. intros (-> & -> & Hd & Hm & Hy).
    do 6 pat_step. by apply pret_spec.
Qed.

Lemma re_compact_spec l x rest :
  (x, rest) ∈ re_compact l <->
  rest = [] /\ l = fst (fst x) ++ snd (fst x) ++ snd x /\
  digit_run 2 2 (fst (fst x)) /\ digit_run 2 2 (snd (fst x)) /\ digit_run 4 4 (snd x).
Proof.
  unfold re_compact. split.
  - intros H. pat_inv H. simpl. rewrite app_nil_r. done.
  - destruct x as [[da mo] y]. simpl. intros (-> & -> & Hd & Hm & Hy).
    do 4 pat_step. by apply pret_spec.
Qed.

Lemma re_match_Some {A} (p : pattern A) l x :
  re_match p l = Some x -> exists rest, (x, rest) ∈ p l.
Proof.
  unfold re_match. destruct (p l) as [|[y rest] t]; simpl; [done|].
  intros [= ->]. exists rest. apply list_elem_of_here.
Qed.

Lemma re_match_None {A} (p : pattern A) l x rest :
  re_match p l = None -> (x, rest) ∉ p l.
Proof.
  unfold re_match. destruct (p l) as [|[y r] t]; simpl; [|done].
  intros _. apply not_elem_of_nil.
Qed.

Lemma re_match_unique {A} (p : pattern A) l x rest :
  (x, rest) ∈ p l -> (forall y r, (y, r) ∈ p l -> y = x) -> re_match p l = Some x.
Proof.
  unfold re_match. destruct (p l) as [|[y r] t]; simpl.
  - intros H. by apply elem_of_nil in H.
  - intros _ Hu. f_equal. apply (Hu y r), list_elem_of_here.
Qed.

Lemma dash_not_digit : is_digit dash = false.
Proof. vm_compute. reflexivity. Qed.

Lemma digit_prefix_unique (x x' t t' : text) :
  all_digits x -> all_digits x' ->
  x ++ dash :: t = x' ++ dash :: t' -> x = x' /\ t = t'.
Proof.
  revert x'. induction x as [|c x IH]; intros [|c' x'] Hx Hx' Heq; simpl in Heq.
  - by injection Heq as ->.
  - injection Heq as <- _. apply Forall_cons in Hx' as [Hc _].
    by rewrite dash_not_digit in Hc.
  - injection Heq as -> _. apply Forall_cons in Hx as [Hc _].
    by rewrite dash_not_digit in Hc.
  - injection Heq as -> Heq. apply Forall_cons in Hx as [_ Hx].
    apply Forall_cons in Hx' as [_ Hx'].
    destruct (IH x' Hx Hx' Heq) as [-> ->]. done.
Qed.

Lemma shape_ymd_unique l y mo da y' mo' da' :
  shape_ymd l y mo da -> shape_ymd l y' mo' da' -> (y', mo', da') = (y, mo, da).
Proof.
  intros (-> & [Hy _] & [Hm _] & _) (Heq & [Hy' _] & [Hm' _] & _).
  apply digit_prefix_unique in Heq as [-> Heq]; [|done..].
  apply digit_prefix_unique in Heq as [-> ->]; done.
Qed.

Lemma shape_dmy_unique l y mo da y' mo' da' :
  shape_dmy l da mo y -> shape_dmy l da' mo' y' -> (da', mo', y') = (da, mo, y).
Proof.
  intros (-> & [Hd _] & [Hm _] & _) (Heq & [Hd' _] & [Hm' _] & _).
  apply digit_prefix_unique in Heq as [-> Heq]; [|done..].
  apply digit_prefix_unique in Heq as [-> ->]; done.
Qed.

Lemma shape_ymd_not_dmy l y mo da y' mo' da' :
  shape_ymd l y mo da -> shape_dmy l da' mo' y' -> False.
Proof.
  intros (-> & [Hy Hly] & _) (Heq & [Hd' Hld] & _).
  apply digit_prefix_unique in Heq as [-> _]; [|done..]. lia.
Qed.

Lemma digits_no_dash (l a b : text) :
  all_digits l -> l = a ++ dash :: b -> False.
Proof.
  intros Hl ->. apply Forall_app in Hl as [_ Hl].
  apply Forall_cons in Hl as [Hc _]. by rewrite dash_not_digit in Hc.
Qed.

Lemma re_compact_matches l :
  (exists x, re_match re_compact l = Some x) <-> shape_compact l.
Proof.
  unfold shape_compact, digit_run. split.
  - intros [x Hx]. apply re_match_Some in Hx as [rest Hx].
    apply re_compact_spec in Hx as (_ & -> & [Hd Hld] & [Hm Hlm] & [Hy Hly]).
    rewrite !length_app. split; [|lia]. by repeat apply Forall_app_2.
  - intros [Hd Hl].
    destruct (re_match re_compact l) as [x|] eqn:E; [eauto|]. exfalso.
    apply (re_match_None _ _ (take 2 l, take 2 (drop 2 l), drop 4 l) []) in E.
    apply E, re_compact_spec. simpl. split; [done|].
    assert (Hl4 : drop 4 l = drop 2 (drop 2 l)) by by rewrite drop_drop.
    split; [by rewrite Hl4, !take_drop|].
    unfold digit_run, all_digits.
    repeat split; try (by repeat first [apply Forall_take | apply Forall_drop]);
      rewrite ?length_take, ?length_drop; lia.
Qed.

(** ** The analysis boundary *)

(** C6, as stated, fails: on a content that is not JSON the result carries
    one-element placeholder lists for the requirements, the gaps and the
    risks, not empty lists. *)
Lemma fallback_lists_hold_placeholders :
  json_loads sample_analyzer_env "I cannot answer in JSON." = None /\
  analyze_compliance sample_analyzer_env [] =
    Ok [("regulatory_requirements", JList [JStr "Error parsing AI response"]);
        ("compliance_gaps", JList [JStr "Please try again"]);
        ("action_items", JList []);
        ("risks", JList [JStr "Unable to complete analysis"]);
        ("overall_compliance_score", JInt 0);
        ("raw_response", JStr "I cannot answer in JSON.");
        ("analysis_date", JStr "2025-09-10T12:00:00");
        ("business_info", JDict [])].
Proof. split; vm_compute; reflexivity. Qed.

(** C6, amended: when the content of the response is a text that is not
    JSON, the result has an empty [action_items], a score of zero, the raw
    text under [raw_response], and one placeholder message in each of
    [regulatory_requirements], [compliance_gaps] and [risks], followed by
    the analysis date and the business information; and whatever the API and
    the decoder answer, the call returns a dictionary: what the [try] built,
    or the error result of the outer [except]. *)
Theorem malformed_output_gives_placeholders e business_info response content :
  call_deepseek_api e = Some response ->
  response_content response = inr (JStr content) ->
  json_loads e content = None ->
  analyze_compliance e business_info =
    Ok [("regulatory_requirements", JList [JStr "Error parsing AI response"]);
        ("compliance_gaps", JList [JStr "Please try again"]);
        ("action_items", JList []);
        ("risks", JList [JStr "Unable to complete analysis"]);
        ("overall_compliance_score", JInt 0);
        ("raw_response", JStr content);
        ("analysis_date", JStr (datetime.isoformat (analysis_time e)));
        ("business_info", JDict business_info)] /\
  (forall e' business_info',
     (exists d, analyze_try e' business_info' = inr d /\
                analyze_compliance e' business_info' = Ok d) \/
     (exists x, analyze_compliance e' business_info' =
                Ok [("error", JStr (exn_text x));
                    ("regulatory_requirements", JList []);
                    ("compliance_gaps", JList []);
                    ("action_items", JList []);
                    ("risks",
                     JList [JStr "Unable to complete analysis due to technical error"]);
                    ("overall_compliance_score", JInt 0);
                    ("analysis_date", JStr (datetime.isoformat (analysis_time e')))])).
Proof.
  intros Hc Hr Hl. split.
  - unfold analyze_compliance, analyze_try. by rewrite Hc, Hr, Hl.
  - intros e' bi'. unfold analyze_compliance.
    destruct (analyze_try e' bi') as [x|d]; [right|left]; eauto.
Qed.

Lemma malformed_output_gives_placeholders_witness :
  call_deepseek_api sample_analyzer_env =
    Some (sample_response "I cannot answer in JSON.") /\
  response_content (sample_response "I cannot answer in JSON.") =
    inr (JStr "I cannot answer in JSON.") /\
  json_loads sample_analyzer_env "I cannot answer in JSON." = None /\
  exists d, analyze_compliance sample_analyzer_env [] = Ok d /\
            jdict_get d "raw_response" = Some (JStr "I cannot answer in JSON.").
Proof.
  assert (H1 : call_deepseek_api sample_analyzer_env =
               Some (sample_response "I cannot answer in JSON.")) by reflexivity.
  assert (H2 : response_content (sample_response "I cannot answer in JSON.") =
               inr (JStr "I cannot answer in JSON.")) by reflexivity.
  assert (H3 : json_loads sample_analyzer_env "I cannot answer in JSON." = None)
    by reflexivity.
  destruct (malformed_output_gives_placeholders sample_analyzer_env [] _ _ H1 H2 H3)
    as [H _].
  repeat split; try assumption. eexists. split; [exact H|reflexivity].
Defined.

(** ** The calendar *)

Lemma check_range_spec f n : forall start,
  check_range f n start = true ->
  forall z, start <= z < start + Z.of_nat n -> f z = true.
Proof.
  induction n as [|n IH]; intros start H z Hz; [lia|].
  simpl in H. apply andb_true_iff in H as [H0 H1].
  destruct (decide (z = start)) as [->|Hne]; [done|].
  apply (IH (start + 1) H1). lia.
Qed.

Lemma tail_steps_leap :
  check_range (tail_step_ok true) 1460 0 = true.
Proof. vm_compute. reflexivity. Qed.

Lemma tail_steps_common :
  check_range (tail_step_ok false) 1459 0 = true.
Proof. vm_compute. reflexivity. Qed.

Lemma tail_last_leap : ymd_tail false true 1460 = (3, 12, 31).
Proof. reflexivity. Qed.

Lemma tail_last_common : ymd_tail false false 1459 = (3, 12, 31).
Proof. reflexivity. Qed.

Lemma tail_step leapable n :
  0 <= n < cycle_days leapable - 1 ->
  tail_step_ok leapable n = true.
Proof.
  intros H. destruct leapable; simpl in H.
  - apply (check_range_spec _ _ _ tail_steps_leap). lia.
  - apply (check_range_spec _ _ _ tail_steps_common). lia.
Qed.

Lemma tail_range leapable n :
  0 <= n < cycle_days leapable ->
  0 <= fst (fst (ymd_tail false leapable n)) <= 3 /\
  1 <= snd (fst (ymd_tail false leapable n)) <= 12 /\
  1 <= snd (ymd_tail false leapable n) <= 31.
Proof.
  intros H. destruct (decide (n = cycle_days leapable - 1)) as [->|Hne].
  - destruct leapable.
    + change (cycle_days true - 1) with 1460. rewrite tail_last_leap. simpl. lia.
    + change (cycle_days false - 1) with 1459. rewrite tail_last_common. simpl. lia.
  - assert (Hs : tail_step_ok leapable n = true) by (apply tail_step; lia).
    unfold tail_step_ok in Hs. destruct (ymd_tail false leapable n) as [[k m] d].
    simpl. rewrite !andb_true_iff in Hs. lia.
Qed.

Lemma tail_mono leapable n n' :
  0 <= n -> n < n' -> n' < cycle_days leapable ->
  ymd_code (ymd_tail false leapable n) < ymd_code (ymd_tail false leapable n').
Proof.
  intros H0 Hlt Hn'.
  assert (Hgen : forall k : nat,
    n + 1 + Z.of_nat k < cycle_days leapable ->
    ymd_code (ymd_tail false leapable n) <
    ymd_code (ymd_tail false leapable (n + 1 + Z.of_nat k))).
  { induction k as [|k IH]; intros Hk.
    - rewrite Z.add_0_r.
      assert (Hs : tail_step_ok leapable n = true) by (apply tail_step; lia).
      unfold tail_step_ok in Hs. destruct (ymd_tail false leapable n) as [[y m] d].
      rewrite !andb_true_iff in Hs. lia.
    - assert (Hs : tail_step_ok leapable (n + 1 + Z.of_nat k) = true)
        by (apply tail_step; lia).
      unfold tail_step_ok in Hs.
      replace (n + 1 + Z.of_nat (S k)) with (n + 1 + Z.of_nat k + 1) by lia.
      specialize (IH ltac:(lia)).
      destruct (ymd_tail false leapable (n + 1 + Z.of_nat k)) as [[y m] d].
      rewrite !andb_true_iff in Hs. lia. }
  specialize (Hgen (Z.to_nat (n' - n - 1)) ltac:(lia)).
  by replace (n + 1 + Z.of_nat (Z.to_nat (n' - n - 1))) with n' in Hgen by lia.
Qed.

Lemma ymd_in_cycle_tail n :
  datetime.ymd_in_cycle n =
  (1 + n / 36524 * 100 + n mod 36524 / 1461 * 4 +
     fst (fst (ymd_tail (n / 36524 =? 4)
                 (negb (n mod 36524 / 1461 =? 24) || (n / 36524 =? 3))
                 ((n mod 36524) mod 1461))),
   snd (fst (ymd_tail (n / 36524 =? 4)
               (negb (n mod 36524 / 1461 =? 24) || (n / 36524 =? 3))
               ((n mod 36524) mod 1461))),
   snd (ymd_tail (n / 36524 =? 4)
          (negb (n mod 36524 / 1461 =? 24) || (n / 36524 =? 3))
          ((n mod 36524) mod 1461))).
Proof.
  unfold datetime.ymd_in_cycle, ymd_tail, datetime._DI100Y, datetime._DI4Y.
  cbv zeta.
  destruct ((_ =? 4) || (_ =? 4)); simpl; [f_equal; f_equal; lia|].
  destruct (_ <? _); reflexivity.
Qed.

Lemma cycle_decompose n :
  0 <= n < 146097 ->
  n = 36524 * (n / 36524) + 1461 * (n mod 36524 / 1461) + (n mod 36524) mod 1461 /\
  0 <= n / 36524 <= 4 /\
  0 <= n mod 36524 / 1461 <= 24 /\
  0 <= (n mod 36524) mod 1461 < 1461 /\
  1461 * (n mod 36524 / 1461) + (n mod 36524) mod 1461 < 36524 /\
  (n / 36524 = 4 -> n = 146096).
Proof. intros H. Z.to_euclidean_division_equations. lia. Qed.

Lemma ymd_in_cycle_at n :
  datetime.ymd_in_cycle n = ymd_at (n / 36524) (n mod 36524 / 1461) ((n mod 36524) mod 1461).
Proof. apply ymd_in_cycle_tail. Qed.

Lemma ymd_at_last : ymd_at 4 0 0 = (400, 12, 31).
Proof. reflexivity. Qed.

Lemma leapable_days a b r :
  0 <= a <= 3 -> 0 <= b <= 24 -> 0 <= r < 1461 -> 1461 * b + r < 36524 ->
  (a =? 4) = false /\ r < cycle_days (negb (b =? 24) || (a =? 3)).
Proof.
  intros Ha Hb Hr Hbr. split; [lia|].
  destruct (Z.eqb_spec b 24), (Z.eqb_spec a 3); simpl; lia.
Qed.

Lemma ymd_at_range a b r :
  0 <= a <= 3 -> 0 <= b <= 24 -> 0 <= r < 1461 -> 1461 * b + r < 36524 ->
  1 <= fst (fst (ymd_at a b r)) <= 400 /\
  1 <= snd (fst (ymd_at a b r)) <= 12 /\
  1 <= snd (ymd_at a b r) <= 31.
Proof.
  intros Ha Hb Hr Hbr. destruct (leapable_days a b r Ha Hb Hr Hbr) as [Hc Hd].
  unfold ymd_at. rewrite Hc. cbv zeta. simpl fst. simpl snd.
  pose proof (tail_range (negb (b =? 24) || (a =? 3)) r ltac:(lia)) as (Hk & Hm & Hdd).
  lia.
Qed.

(** Before the last day of the cycle, of two places the later one has the
    later date. *)
Lemma ymd_at_mono a b r a' b' r' :
  0 <= a <= 3 -> 0 <= b <= 24 -> 0 <= r < 1461 -> 1461 * b + r < 36524 ->
  0 <= a' <= 3 -> 0 <= b' <= 24 -> 0 <= r' < 1461 -> 1461 * b' + r' < 36524 ->
  36524 * a + 1461 * b + r < 36524 * a' + 1461 * b' + r' ->
  ymd_code (ymd_at a b r) < ymd_code (ymd_at a' b' r').
Proof.
  intros Ha Hb Hr Hbr Ha' Hb' Hr' Hbr' Hlt.
  destruct (leapable_days a b r Ha Hb Hr Hbr) as [Hc Hd].
  destruct (leapable_days a' b' r' Ha' Hb' Hr' Hbr') as [Hc' Hd'].
  destruct (decide (a = a' /\ b = b')) as [[-> ->]|Hne].
  - pose proof (tail_mono (negb (b' =? 24) || (a' =? 3)) r r' ltac:(lia) ltac:(lia) Hd')
      as Hm.
    unfold ymd_at, ymd_code in *. rewrite Hc. cbv zeta. simpl fst in *. simpl snd in *.
    lia.
  - pose proof (tail_range (negb (b =? 24) || (a =? 3)) r ltac:(lia)) as (Hk & Hm & Hdd).
    pose proof (tail_range (negb (b' =? 24) || (a' =? 3)) r' ltac:(lia))
      as (Hk' & Hm' & Hdd').
    unfold ymd_at, ymd_code. rewrite Hc, Hc'. cbv zeta. simpl fst. simpl snd.
    assert (100 * a + 4 * b + 4 <= 100 * a' + 4 * b') by lia.
    lia.
Qed.

Lemma ymd_at_before_last a b r :
  0 <= a <= 3 -> 0 <= b <= 24 -> 0 <= r < 1461 -> 1461 * b + r < 36524 ->
  ymd_code (ymd_at a b r) < ymd_code (400, 12, 31).
Proof.
  intros Ha Hb Hr Hbr. destruct (leapable_days a b r Ha Hb Hr Hbr) as [Hc Hd].
  pose proof (tail_range (negb (b =? 24) || (a =? 3)) r ltac:(lia)) as (Hk & Hm & Hdd).
  destruct (decide (a = 3 /\ b = 24)) as [[-> ->]|Hne].
  - assert (Hr' : r < 1460) by lia.
    pose proof (tail_mono true r 1460 ltac:(lia) Hr' ltac:(simpl; lia)) as Hmono.
    rewrite tail_last_leap in Hmono.
    unfold ymd_at, ymd_code in *. simpl in *. lia.
  - unfold ymd_at, ymd_code. rewrite Hc. cbv zeta. simpl fst. simpl snd.
    assert (100 * a + 4 * b <= 392) by lia. lia.
Qed.

Lemma cycle_range n :
  0 <= n < 146097 ->
  1 <= fst (fst (datetime.ymd_in_cycle n)) <= 400 /\
  1 <= snd (fst (datetime.ymd_in_cycle n)) <= 12 /\
  1 <= snd (datetime.ymd_in_cycle n) <= 31.
Proof.
  intros H. destruct (cycle_decompose n H) as (Hn & Ha & Hb & Hr & Hbr & Hlast).
  rewrite ymd_in_cycle_at.
  destruct (decide (n / 36524 = 4)) as [E|E].
  - rewrite (Hlast E). vm_compute. repeat split; discriminate.
  - apply ymd_at_range; lia.
Qed.

Lemma cycle_mono n n' :
  0 <= n -> n < n' -> n' < 146097 ->
  ymd_code (datetime.ymd_in_cycle n) < ymd_code (datetime.ymd_in_cycle n').
Proof.
  intros H0 Hlt Hn'.
  destruct (cycle_decompose n ltac:(lia)) as (Hn & Ha & Hb & Hr & Hbr & Hlast).
  destruct (cycle_decompose n' ltac:(lia)) as (Hn2 & Ha' & Hb' & Hr' & Hbr' & Hlast').
  assert (Hna : n / 36524 <> 4) by (intros E; specialize (Hlast E); lia).
  rewrite (ymd_in_cycle_at n).
  destruct (decide (n' / 36524 = 4)) as [E|E].
  - rewrite (Hlast' E). change (datetime.ymd_in_cycle 146096) with (400, 12, 31).
    apply ymd_at_before_last; lia.
  - rewrite (ymd_in_cycle_at n'). apply ymd_at_mono; lia.
Qed.

Lemma ord2ymd_cycle o :
  datetime._ord2ymd o =
  ((o - 1) / 146097 * 400 + fst (fst (datetime.ymd_in_cycle ((o - 1) mod 146097))),
   snd (fst (datetime.ymd_in_cycle ((o - 1) mod 146097))),
   snd (datetime.ymd_in_cycle ((o - 1) mod 146097))).
Proof.
  unfold datetime._ord2ymd, datetime._DI400Y. cbv zeta.
  by destruct (datetime.ymd_in_cycle _) as [[y m] d].
Qed.

Lemma ord2ymd_mono o o' :
  1 <= o -> o < o' ->
  ymd_code (datetime._ord2ymd o) < ymd_code (datetime._ord2ymd o').
Proof.
  intros H1 Hlt. rewrite !ord2ymd_cycle.
  assert (Hr : 0 <= (o - 1) mod 146097 < 146097) by (apply Z.mod_pos_bound; lia).
  assert (Hr' : 0 <= (o' - 1) mod 146097 < 146097) by (apply Z.mod_pos_bound; lia).
  pose proof (cycle_range _ Hr) as (Hy & Hm & Hd).
  pose proof (cycle_range _ Hr') as (Hy' & Hm' & Hd').
  assert (Hq : (o - 1) / 146097 <= (o' - 1) / 146097)
    by (apply Z.div_le_mono; lia).
  destruct (decide ((o - 1) / 146097 = (o' - 1) / 146097)) as [E|E].
  - assert (Hlt' : (o - 1) mod 146097 < (o' - 1) mod 146097).
    { pose proof (Z.div_mod (o - 1) 146097 ltac:(lia)).
      pose proof (Z.div_mod (o' - 1) 146097 ltac:(lia)). lia. }
    pose proof (cycle_mono _ _ (proj1 Hr) Hlt' (proj2 Hr')) as Hc.
    unfold ymd_code in *. simpl fst in *. simpl snd in *. rewrite E. lia.
  - unfold ymd_code. simpl fst. simpl snd. lia.
Qed.

Lemma ord2ymd_range o :
  1 <= o <= datetime._MAXORDINAL ->
  1 <= fst (fst (datetime._ord2ymd o)) <= 9999 /\
  1 <= snd (fst (datetime._ord2ymd o)) <= 12 /\
  1 <= snd (datetime._ord2ymd o) <= 31.
Proof.
  unfold datetime._MAXORDINAL. intros H.
  assert (Hr : 0 <= (o - 1) mod 146097 < 146097) by (apply Z.mod_pos_bound; lia).
  pose proof (cycle_range _ Hr) as (Hy & Hm & Hd).
  assert (Hmax : datetime._ord2ymd 3652059 = (9999, 12, 31)) by reflexivity.
  destruct (decide (o = 3652059)) as [->|Hne]; [rewrite Hmax; simpl; lia|].
  pose proof (ord2ymd_mono o 3652059 ltac:(lia) ltac:(lia)) as Hlt.
  rewrite Hmax in Hlt. rewrite ord2ymd_cycle in *.
  assert (0 <= (o - 1) / 146097) by (apply Z.div_pos; lia).
  unfold ymd_code in Hlt. simpl fst in *. simpl snd in *. lia.
Qed.

Lemma lex_then_assoc a b c : lex_then (lex_then a b) c = lex_then a (lex_then b c).
Proof. by destruct a. Qed.

Lemma ymd_code_compare y m d y' m' d' :
  1 <= m <= 12 -> 1 <= d <= 31 -> 1 <= m' <= 12 -> 1 <= d' <= 31 ->
  lex_then (y ?= y') (lex_then (m ?= m') (d ?= d')) =
  (ymd_code (y, m, d) ?= ymd_code (y', m', d')).
Proof.
  intros Hm Hd Hm' Hd'. unfold ymd_code, lex_then. simpl.
  destruct (Z.compare_spec y y'), (Z.compare_spec m m'), (Z.compare_spec d d');
    symmetry; first [apply Z.compare_eq_iff | apply Z.compare_lt_iff
                    | apply Z.compare_gt_iff]; lia.
Qed.

(** The date of a later day is later, as (year, month, day). *)
Lemma ord2ymd_compare o o' :
  1 <= o <= datetime._MAXORDINAL -> 1 <= o' <= datetime._MAXORDINAL ->
  lex_then (fst (fst (datetime._ord2ymd o)) ?= fst (fst (datetime._ord2ymd o')))
    (lex_then (snd (fst (datetime._ord2ymd o)) ?= snd (fst (datetime._ord2ymd o')))
       (snd (datetime._ord2ymd o) ?= snd (datetime._ord2ymd o'))) =
  (o ?= o').
Proof.
  intros H H'.
  pose proof (ord2ymd_range o H) as (_ & Hm & Hd).
  pose proof (ord2ymd_range o' H') as (_ & Hm' & Hd').
  rewrite ymd_code_compare by done.
  rewrite <- !surjective_pairing.
  destruct (Z.compare_spec o o') as [->|Hlt|Hgt].
  - apply Z.compare_refl.
  - apply Z.compare_lt_iff, ord2ymd_mono; lia.
  - apply Z.compare_gt_iff, ord2ymd_mono; lia.
Qed.

(** ** Fixed-width decimal fields *)

Lemma string_length_app (a b : string) :
  String.length (a +:+ b) = (String.length a + String.length b)%nat.
Proof. induction a as [|c a IH]; simpl; [done|]. by rewrite IH. Qed.

Lemma compare_app_same_length (a a' b b' : string) :
  String.length a = String.length a' ->
  String.compare (a +:+ b) (a' +:+ b') =
  lex_then (String.compare a a') (String.compare b b').
Proof.
  revert a'. induction a as [|c a IH]; intros [|c' a'] H; simpl in *; try done.
  destruct (Ascii.compare c c'); try done. apply IH. lia.
Qed.

Lemma digit_char_compare a b :
  0 <= a < 10 -> 0 <= b < 10 ->
  Ascii.compare (digit_char a) (digit_char b) = (a ?= b).
Proof.
  intros Ha Hb. unfold Ascii.compare, digit_char, ascii_of_nat.
  rewrite !N_ascii_embedding by lia.
  rewrite <- N2Z.inj_compare, !nat_N_Z, !Nat2Z.inj_add, !Z2Nat.id by lia.
  apply Z.add_compare_mono_l.
Qed.

Lemma length_digits_fix w : forall n, String.length (digits_fix w n) = w.
Proof.
  induction w as [|w IH]; intros n; cbn [digits_fix]; [done|].
  rewrite string_length_app, IH. cbn [String.length]. lia.
Qed.

Lemma lex_div_mod n m :
  (n ?= m) = lex_then (n / 10 ?= m / 10) (n mod 10 ?= m mod 10).
Proof.
  unfold lex_then.
  destruct (Z.compare_spec (n / 10) (m / 10)),
           (Z.compare_spec (n mod 10) (m mod 10));
    first [apply Z.compare_eq_iff | apply Z.compare_lt_iff | apply Z.compare_gt_iff];
    Z.to_euclidean_division_equations; lia.
Qed.

Lemma compare_single c c' :
  String.compare (String c EmptyString) (String c' EmptyString) = Ascii.compare c c'.
Proof. cbn [String.compare]. by destruct (Ascii.compare c c'). Qed.

Lemma digits_fix_compare w : forall n m,
  0 <= n < 10 ^ Z.of_nat w -> 0 <= m < 10 ^ Z.of_nat w ->
  String.compare (digits_fix w n) (digits_fix w m) = (n ?= m).
Proof.
  induction w as [|w IH]; intros n m Hn Hm.
  - simpl in *. symmetry. apply Z.compare_eq_iff. lia.
  - rewrite Nat2Z.inj_succ, Z.pow_succ_r in Hn, Hm by lia.
    cbn [digits_fix]. rewrite compare_app_same_length by by rewrite !length_digits_fix.
    rewrite IH by (Z.to_euclidean_division_equations; lia).
    rewrite compare_single, digit_char_compare by (apply Z.mod_pos_bound; lia).
    by rewrite (lex_div_mod n m).
Qed.

Lemma ndigits_aux_le fuel : forall w n,
  (1 <= w)%nat -> 0 <= n < 10 ^ Z.of_nat w -> (ndigits_aux fuel n <= w)%nat.
Proof.
  induction fuel as [|f IH]; intros w n Hw Hn; simpl; [done|].
  destruct (Z.ltb_spec n 10); [done|].
  destruct w as [|w]; [lia|]. destruct w as [|w]; [simpl in Hn; lia|].
  apply le_n_S, IH; [lia|].
  rewrite (Nat2Z.inj_succ (S w)), Z.pow_succ_r in Hn by lia.
  Z.to_euclidean_division_equations; lia.
Qed.

(** A number that fits the field is written with exactly its width. *)
Lemma fmt_0d_fits w n :
  (1 <= w)%nat -> 0 <= n < 10 ^ Z.of_nat w -> fmt_0d w n = digits_fix w n.
Proof.
  intros Hw Hn. unfold fmt_0d, ndigits.
  by rewrite Nat.max_l by by apply ndigits_aux_le.
Qed.

Lemma fmt_0d_compare w n m :
  (1 <= w)%nat -> 0 <= n < 10 ^ Z.of_nat w -> 0 <= m < 10 ^ Z.of_nat w ->
  String.compare (fmt_0d w n) (fmt_0d w m) = (n ?= m).
Proof.
  intros Hw Hn Hm. rewrite !fmt_0d_fits by done. by apply digits_fix_compare.
Qed.

Lemma fmt_0d_length w n :
  (1 <= w)%nat -> 0 <= n < 10 ^ Z.of_nat w -> String.length (fmt_0d w n) = w.
Proof. intros Hw Hn. rewrite fmt_0d_fits by done. apply length_digits_fix. Qed.

(** ** The order of [isoformat] texts *)

Lemma lex_div_mod_60 n m :
  (n ?= m) = lex_then (n / 60 ?= m / 60) (n mod 60 ?= m mod 60).
Proof.
  unfold lex_then.
  destruct (Z.compare_spec (n / 60) (m / 60)),
           (Z.compare_spec (n mod 60) (m mod 60));
    first [apply Z.compare_eq_iff | apply Z.compare_lt_iff | apply Z.compare_gt_iff];
    Z.to_euclidean_division_equations; lia.
Qed.

Lemma lex_div_mod_1000000 n m :
  (n ?= m) = lex_then (n / 1000000 ?= m / 1000000) (n mod 1000000 ?= m mod 1000000).
Proof.
  unfold lex_then.
  destruct (Z.compare_spec (n / 1000000) (m / 1000000)),
           (Z.compare_spec (n mod 1000000) (m mod 1000000));
    first [apply Z.compare_eq_iff | apply Z.compare_lt_iff | apply Z.compare_gt_iff];
    Z.to_euclidean_division_equations; lia.
Qed.

(** The time of day orders as (hour, minute, second, microsecond) does. *)
Lemma time_compare a b :
  lex_then (datetime.hour a ?= datetime.hour b)
    (lex_then (datetime.minute a ?= datetime.minute b)
       (lex_then (datetime.second a ?= datetime.second b)
          (datetime.microsecond a ?= datetime.microsecond b))) =
  (datetime.usec a ?= datetime.usec b).
Proof.
  unfold datetime.hour, datetime.minute, datetime.second, datetime.microsecond.
  rewrite (lex_div_mod_1000000 (datetime.usec a) (datetime.usec b)).
  rewrite (lex_div_mod_60 (datetime.usec a / 1000000) (datetime.usec b / 1000000)).
  rewrite (lex_div_mod_60 (datetime.usec a / 1000000 / 60)
             (datetime.usec b / 1000000 / 60)).
  rewrite !Z.div_div by lia. simpl Z.mul.
  by rewrite !lex_then_assoc.
Qed.

Lemma time_fields_range d :
  0 <= datetime.usec d < datetime.day_usec ->
  0 <= datetime.hour d < 24 /\ 0 <= datetime.minute d < 60 /\
  0 <= datetime.second d < 60 /\ 0 <= datetime.microsecond d < 1000000.
Proof.
  unfold datetime.day_usec, datetime.hour, datetime.minute, datetime.second,
    datetime.microsecond.
  intros H. Z.to_euclidean_division_equations. lia.
Qed.

Lemma compare_field w n m (R R' : string) :
  (1 <= w)%nat -> 0 <= n < 10 ^ Z.of_nat w -> 0 <= m < 10 ^ Z.of_nat w ->
  String.compare (fmt_0d w n +:+ R) (fmt_0d w m +:+ R') =
  lex_then (n ?= m) (String.compare R R').
Proof.
  intros Hw Hn Hm.
  rewrite compare_app_same_length by by rewrite !fmt_0d_length.
  by rewrite fmt_0d_compare.
Qed.

Lemma compare_sep c (R R' : string) :
  String.compare (String c EmptyString +:+ R) (String c EmptyString +:+ R') =
  String.compare R R'.
Proof.
  change (String c EmptyString +:+ R) with (String c R).
  change (String c EmptyString +:+ R') with (String c R').
  cbn [String.compare]. by rewrite ascii_compare_refl.
Qed.

Lemma iso_fraction_compare a b :
  0 <= a < 1000000 -> 0 <= b < 1000000 ->
  String.compare (iso_fraction a) (iso_fraction b) = (a ?= b).
Proof.
  intros Ha Hb. unfold iso_fraction.
  destruct (Z.eqb_spec a 0) as [->|Ea], (Z.eqb_spec b 0) as [->|Eb].
  - done.
  - change ("." +:+ fmt_0d 6 b) with (String "."%char (fmt_0d 6 b)).
    cbn [String.compare]. symmetry. apply Z.compare_lt_iff. lia.
  - change ("." +:+ fmt_0d 6 a) with (String "."%char (fmt_0d 6 a)).
    cbn [String.compare]. symmetry. apply Z.compare_gt_iff. lia.
  - rewrite compare_sep. apply fmt_0d_compare; [lia| |];
      change (10 ^ Z.of_nat 6) with 1000000; lia.
Qed.

Lemma isoformat_fields d :
  datetime.isoformat d =
  fmt_0d 4 (fst (fst (datetime._ord2ymd (datetime.ordinal d)))) +:+ "-" +:+
  fmt_0d 2 (snd (fst (datetime._ord2ymd (datetime.ordinal d)))) +:+ "-" +:+
  fmt_0d 2 (snd (datetime._ord2ymd (datetime.ordinal d))) +:+ "T" +:+
  fmt_0d 2 (datetime.hour d) +:+ ":" +:+ fmt_0d 2 (datetime.minute d) +:+ ":" +:+
  fmt_0d 2 (datetime.second d) +:+ iso_fraction (datetime.microsecond d).
Proof.
  unfold datetime.isoformat, iso_fraction.
  by destruct (datetime._ord2ymd _) as [[y m] dd].
Qed.

Ltac field_bound :=
  try change (10 ^ Z.of_nat 4) with 10000;
  try change (10 ^ Z.of_nat 2) with 100;
  lia.

(** [isoformat] texts compare as the times they write do. *)
Lemma isoformat_compare a b :
  datetime.valid a -> datetime.valid b ->
  String.compare (datetime.isoformat a) (datetime.isoformat b) =
  lex_then (datetime.ordinal a ?= datetime.ordinal b)
    (datetime.usec a ?= datetime.usec b).
Proof.
  intros [Hoa Hua] [Hob Hub].
  pose proof (ord2ymd_range _ Hoa) as (Hy & Hm & Hd).
  pose proof (ord2ymd_range _ Hob) as (Hy' & Hm' & Hd').
  pose proof (time_fields_range a Hua) as (Hh & Hmi & Hs & Hus).
  pose proof (time_fields_range b Hub) as (Hh' & Hmi' & Hs' & Hus').
  rewrite !isoformat_fields.
  rewrite compare_field, compare_sep by field_bound.
  rewrite compare_field, compare_sep by field_bound.
  rewrite compare_field, compare_sep by field_bound.
  rewrite compare_field, compare_sep by field_bound.
  rewrite compare_field, compare_sep by field_bound.
  rewrite compare_field by field_bound.
  rewrite iso_fraction_compare by done.
  rewrite time_compare.
  rewrite <- (ord2ymd_compare _ _ Hoa Hob).
  by rewrite !lex_then_assoc.
Qed.

Lemma datetime_leb_le a b : datetime_leb a b = true <-> datetime.le a b.
Proof. unfold datetime_leb, datetime.le. lia. Qed.

(** The test of the alert count, read as a comparison of times. *)
Lemma isoformat_leb a b :
  datetime.valid a -> datetime.valid b ->
  String.leb (datetime.isoformat a) (datetime.isoformat b) = datetime_leb a b.
Proof.
  intros Ha Hb. unfold String.leb. rewrite isoformat_compare by done.
  unfold datetime_leb, lex_then.
  destruct (Z.compare_spec (datetime.ordinal a) (datetime.ordinal b)),
           (Z.compare_spec (datetime.usec a) (datetime.usec b));
    symmetry; lia.
Qed.

(** ** The count of recent updates *)

Lemma count_list_spec thr (l : list update) : forall acc,
  count_list thr l acc =
  if keys_are_str l then Ok (acc + n_recent thr l) else Raise TypeError.
Proof.
  unfold keys_are_str, n_recent.
  induction l as [|u l IH]; intros acc; simpl.
  - by rewrite Z.add_0_r.
  - rewrite filter_cons. unfold discovered_key at 2. fold (discovered_key u).
    assert (Hr : recent thr u = String.leb thr (py_str (discovered_key u))) by done.
    change (dict_get_or u "discovered_date" (PStr "")) with (discovered_key u).
    destruct (discovered_key u) as [|s]; simpl in *; [done|].
    rewrite IH. destruct (String.leb thr s) eqn:E.
    + rewrite decide_True by done. destruct (forallb _ _); [|done].
      simpl length. rewrite Nat2Z.inj_succ. by rewrite <- Z.add_1_l, Z.add_assoc.
    + rewrite decide_False by (rewrite Hr; done). done.
Qed.

Lemma keys_are_str_app (a b : list update) :
  keys_are_str (a ++ b) = keys_are_str a && keys_are_str b.
Proof. unfold keys_are_str. by rewrite fmap_app, forallb_app. Qed.

Lemma n_recent_app thr (a b : list update) :
  n_recent thr (a ++ b) = n_recent thr a + n_recent thr b.
Proof. unfold n_recent. rewrite filter_app, length_app. lia. Qed.

Lemma count_items_spec thr (items : list (string * list update)) : forall acc,
  count_items thr items acc =
  if keys_are_str (concat (snd <$> items))
  then Ok (acc + n_recent thr (concat (snd <$> items)))
  else Raise TypeError.
Proof.
  induction items as [|[s l] items IH]; intros acc; simpl.
  - by rewrite Z.add_0_r.
  - rewrite count_list_spec, keys_are_str_app, n_recent_app.
    destruct (keys_are_str l); simpl; [|done].
    rewrite IH. destruct (keys_are_str _); [|done]. by rewrite Z.add_assoc.
Qed.

(** The count: the number of records, over all sources, whose stamp is not
    before the threshold as text; a [TypeError] when a stamp is [None]. *)
Lemma count_recent_spec (L : update_log) thr :
  count_recent L thr =
  if keys_are_str (all_records L) then Ok (n_recent thr (all_records L))
  else Raise TypeError.
Proof. unfold count_recent. by rewrite count_items_spec. Qed.

Lemma concat_perm {A} (l l' : list (list A)) : l ≡ₚ l' -> concat l ≡ₚ concat l'.
Proof.
  induction 1 as [|x l l' _ IH|x y l|l l' l'' _ IH1 _ IH2]; simpl.
  - done.
  - by rewrite IH.
  - rewrite !app_assoc. f_equiv. apply Permutation_app_comm.
  - by rewrite IH1.
Qed.

Lemma keys_are_str_perm (l l' : list update) :
  l ≡ₚ l' -> keys_are_str l = keys_are_str l'.
Proof.
  unfold keys_are_str.
  induction 1 as [|x l l' _ IH|x y l|l l' l'' _ IH1 _ IH2]; csimpl.
  - done.
  - by rewrite IH.
  - by rewrite !andb_assoc, (andb_comm (is_str (discovered_key y))).
  - by rewrite IH1.
Qed.

Lemma n_recent_perm thr (l l' : list update) :
  l ≡ₚ l' -> n_recent thr l = n_recent thr l'.
Proof. unfold n_recent. by intros ->. Qed.

Lemma all_records_split (L : update_log) s l :
  L !! s = Some l -> all_records L ≡ₚ l ++ all_records (delete s L).
Proof.
  intros H. unfold all_records.
  rewrite <- (concat_perm _ _ (fmap_Permutation snd _ _ (map_to_list_delete L s l H))).
  done.
Qed.

Lemma all_records_replace (L : update_log) s l :
  all_records (<[s := l]> L) ≡ₚ l ++ all_records (delete s L).
Proof.
  rewrite (all_records_split (<[s := l]> L) s l) by apply lookup_insert_eq.
  by rewrite delete_insert_eq.
Qed.

Lemma string_app_empty (a b : string) : a +:+ b = "" -> a = "".
Proof. by destruct a. Qed.

Lemma digits_fix_nonempty w n : digits_fix (S w) n <> "".
Proof.
  simpl. intros H. destruct (digits_fix w (n / 10)); simpl in H; discriminate.
Qed.

Lemma fmt_0d_nonempty w n : fmt_0d w n <> "".
Proof.
  unfold fmt_0d. assert (H : exists k, Nat.max w (ndigits n) = S k).
  { unfold ndigits. destruct (Z.to_nat n) as [|f]; simpl.
    - exists (Nat.max w 1 - 1)%nat. lia.
    - destruct (n <? 10).
      + exists (Nat.max w 1 - 1)%nat. lia.
      + exists (Nat.max w (S (ndigits_aux f (n / 10))) - 1)%nat. lia. }
  destruct H as [k ->]. apply digits_fix_nonempty.
Qed.

Lemma isoformat_nonempty d : datetime.isoformat d <> "".
Proof.
  unfold datetime.isoformat. destruct (datetime._ord2ymd _) as [[y m] dd].
  intros H. apply string_app_empty in H. by apply fmt_0d_nonempty in H.
Qed.

Lemma leb_empty_r (s : string) : s <> "" -> String.leb s "" = false.
Proof. by destruct s. Qed.

(** A record without a stamp is not recent, whatever the threshold. *)
Lemma lacks_stamp_not_recent threshold u :
  lacks_stamp u ->
  discovered_key u = PStr "" /\ recent (datetime.isoformat threshold) u = false.
Proof.
  intros H.
  assert (Hk : discovered_key u = PStr "").
  { unfold discovered_key, dict_get_or. by destruct H as [-> | ->]. }
  split; [done|]. unfold recent, discovered_str. rewrite Hk. simpl.
  apply leb_empty_r, isoformat_nonempty.
Qed.

(** C10: a record without a discovery stamp (no [discovered_date], or an
    empty one) counts for nothing: the count of recent updates, on which
    alone the alert depends, is the same with the record and without it,
    whatever the other fields of the record hold; and a log of such records
    only has a count of zero. *)
Theorem unstamped_record_is_not_counted (L : update_log) source l1 u l2 threshold :
  L !! source = Some (l1 ++ u :: l2) ->
  lacks_stamp u ->
  count_recent L (datetime.isoformat threshold) =
    count_recent (<[source := l1 ++ l2]> L) (datetime.isoformat threshold) /\
  (forall L' : update_log, Forall lacks_stamp (all_records L') ->
     count_recent L' (datetime.isoformat threshold) = Ok 0).
Proof.
  intros HL Hu. destruct (lacks_stamp_not_recent threshold u Hu) as [Hk Hr]. split.
  - rewrite !count_recent_spec.
    rewrite (keys_are_str_perm _ _ (all_records_split L source _ HL)).
    rewrite (keys_are_str_perm _ _ (all_records_replace L source (l1 ++ l2))).
    rewrite (n_recent_perm _ _ _ (all_records_split L source _ HL)).
    rewrite (n_recent_perm _ _ _ (all_records_replace L source (l1 ++ l2))).
    rewrite !keys_are_str_app, !n_recent_app.
    assert (H1 : keys_are_str (u :: l2) = keys_are_str l2).
    { unfold keys_are_str. csimpl. by rewrite Hk. }
    assert (H2 : n_recent (datetime.isoformat threshold) (u :: l2) =
                 n_recent (datetime.isoformat threshold) l2).
    { unfold n_recent. rewrite filter_cons_False; [done|]. by rewrite Hr. }
    by rewrite H1, H2.
  - intros L' HF. rewrite count_recent_spec.
    induction HF as [|x l Hx _ IH]; [done|].
    destruct (lacks_stamp_not_recent threshold x Hx) as [Hkx Hrx].
    unfold keys_are_str, n_recent in *. csimpl. rewrite Hkx. simpl.
    rewrite filter_cons_False by by rewrite Hrx. done.
Qed.

Lemma unstamped_record_is_not_counted_witness :
  count_recent
    {[ "eur-lex" := [stamp sample_noon (sample_update "Reg A"); sample_update "Reg B"] ]}
    (datetime.isoformat (datetime.mk 739497 43200000000)) =
  count_recent
    (<["eur-lex" := [stamp sample_noon (sample_update "Reg A")] ++ []]>
       {[ "eur-lex" := [stamp sample_noon (sample_update "Reg A"); sample_update "Reg B"] ]})
    (datetime.isoformat (datetime.mk 739497 43200000000)).
Proof.
  apply (unstamped_record_is_not_counted
           {[ "eur-lex" := [stamp sample_noon (sample_update "Reg A");
                            sample_update "Reg B"] ]}
           "eur-lex" [stamp sample_noon (sample_update "Reg A")] (sample_update "Reg B") []
           (datetime.mk 739497 43200000000)).
  - vm_compute. reflexivity.
  - left. vm_compute. reflexivity.
Defined.

(** ** The alert threshold *)

Lemma all_records_log_of (TL : timed_log) :
  all_records (log_of TL) = stamped <$> all_entries TL.
Proof.
  unfold all_records, log_of, all_entries. rewrite map_to_list_fmap.
  induction (map_to_list TL) as [|[s l] items IH]; csimpl; [done|].
  by rewrite IH, fmap_app.
Qed.

Lemma stamped_key x : discovered_key (stamped x) = PStr (datetime.isoformat (snd x)).
Proof.
  unfold discovered_key, dict_get_or, stamped, stamp. by rewrite lookup_insert_eq.
Qed.

Lemma keys_are_str_stamped (l : list (update * datetime.t)) :
  keys_are_str (stamped <$> l) = true.
Proof.
  unfold keys_are_str. induction l as [|x l IH]; csimpl; [done|].
  by rewrite stamped_key, IH.
Qed.

Lemma recent_stamped thr x :
  datetime.valid thr -> datetime.valid (snd x) ->
  recent (datetime.isoformat thr) (stamped x) = datetime_leb thr (snd x).
Proof.
  intros Ht Hx. unfold recent, discovered_str. rewrite stamped_key. simpl.
  by apply isoformat_leb.
Qed.

Lemma n_recent_stamped thr (l : list (update * datetime.t)) :
  datetime.valid thr -> Forall (fun x => datetime.valid (snd x)) l ->
  n_recent (datetime.isoformat thr) (stamped <$> l) =
  Z.of_nat (length (filter (fun x => datetime_leb thr (snd x) = true) l)).
Proof.
  intros Ht Hl. unfold n_recent. f_equal.
  induction Hl as [|x l Hx _ IH]; csimpl; [done|].
  rewrite !filter_cons, recent_stamped by done.
  destruct (decide (datetime_leb thr (snd x) = true)); simpl; by rewrite IH.
Qed.

(** The count is the number of records discovered at the threshold or
    later. *)
Lemma count_recent_since (TL : timed_log) thr :
  datetime.valid thr -> stamps_valid TL ->
  count_recent (log_of TL) (datetime.isoformat thr) = Ok (n_since thr TL).
Proof.
  intros Ht Hv. rewrite count_recent_spec, all_records_log_of, keys_are_str_stamped.
  by rewrite n_recent_stamped.
Qed.

Lemma sub_days_valid d k thr :
  datetime.valid d -> datetime.sub_days d k = Ok thr ->
  datetime.valid thr /\ thr = datetime.mk (datetime.ordinal d - k) (datetime.usec d).
Proof.
  unfold datetime.sub_days, datetime.valid. intros [Ho Hu].
  destruct (Z.ltb_spec 0 (datetime.ordinal d - k)),
           (Z.leb_spec (datetime.ordinal d - k) datetime._MAXORDINAL);
    simpl; try done.
  intros [= <-]. simpl. split; [lia|done].
Qed.

(** What [_check_and_send_alerts] does once the log is loaded and
    counted. *)
Lemma check_alerts_counted cfg e w (updates : update_log) thr n :
  regulatory_updates_db (fs w) = Some updates ->
  datetime.sub_days (clock e (tick w)) 7 = Ok thr ->
  count_recent updates (datetime.isoformat thr) = Ok n ->
  _check_and_send_alerts cfg e w =
  if alert_threshold cfg <=? n then
    match _send_alerts_to_clients e updates (default ∅ (clients_db (fs w)))
            (log_msg (InfoThresholdReached n) (loaded w)) with
    | (w', Some x) => (w', Some x)
    | (w', None) =>
        (save_alert_history e
           (record_alert (default ∅ (client_alerts_db (fs w)))
              (clock e (tick w')) (clock e (S (tick w'))) n)
           (mk_world (fs w') (S (S (tick w'))) (trace w') (outbox w')), None)
    end
  else (loaded w, None).
Proof.
  intros Hu Ht Hc. unfold _check_and_send_alerts, loaded. rewrite Hu.
  destruct (client_alerts_db (fs w)) as [a|] eqn:Ea;
  destruct (clients_db (fs w)) as [c|] eqn:Ec; simpl;
    rewrite ?Ec; simpl; rewrite Ht, Hc;
    (destruct (alert_threshold cfg <=? n); [|done]);
    by destruct (_send_alerts_to_clients _ _ _ _) as [w' [x|]].
Qed.

Lemma send_alerts_trace e (updates : update_log) cl w m :
  m ∈ trace w -> m ∈ trace (fst (_send_alerts_to_clients e updates cl w)).
Proof.
  intros H. unfold _send_alerts_to_clients.
  destruct (compose_body updates) as [body|x]; simpl; [|done].
  rewrite send_all_spec. simpl. apply elem_of_app. by left.
Qed.

Lemma save_alert_history_trace e (L : ledger) w m :
  m ∈ trace w -> m ∈ trace (save_alert_history e L w).
Proof.
  intros H. unfold save_alert_history.
  destruct (write_client_alerts e); simpl; apply elem_of_app; by left.
Qed.

(** C4, as stated, fails: a record stamped after the evaluation time lies
    outside the window that ends at that time and is counted all the same;
    here it alone reaches the threshold. *)
Lemma future_stamp_is_counted :
  clock sample_alert_env (tick sample_future_world) = datetime.mk 739504 43200000000 /\
  regulatory_updates_db (fs sample_future_world) =
    Some {[ "eur-lex" := [stamp (datetime.mk 739505 43200000000)
                            (sample_update "Reg A")] ]} /\
  ~ datetime.le (datetime.mk 739505 43200000000) (datetime.mk 739504 43200000000) /\
  trace (fst (_check_and_send_alerts sample_threshold_1 sample_alert_env
                sample_future_world)) =
    [InfoThresholdReached 1; ErrorFailedToSend "a@example.com" SMTPException;
     InfoAlertSent "b@example.com"; InfoUpdatedAlertHistory].
Proof.
  split; [reflexivity|]. split; [reflexivity|]. split.
  - unfold datetime.le. simpl. lia.
  - vm_compute. reflexivity.
Qed.

(** C4, amended: the window is the seven days before the evaluation time
    [now]: the threshold is the same time of day seven days earlier.  For a
    log whose records carry their discovery time, the count is the number of
    records, over all sources, discovered at the threshold or later (the
    threshold itself included, no upper end tested); the alert is raised
    when the count reaches the configured threshold and nothing happens
    when it does not; a record discovered eight days before [now] is not
    counted. *)
Theorem alert_counts_discoveries_since_threshold cfg e w (TL : timed_log) thr :
  regulatory_updates_db (fs w) = Some (log_of TL) ->
  stamps_valid TL ->
  datetime.valid (clock e (tick w)) ->
  datetime.sub_days (clock e (tick w)) 7 = Ok thr ->
  thr = datetime.mk (datetime.ordinal (clock e (tick w)) - 7)
          (datetime.usec (clock e (tick w))) /\
  count_recent (log_of TL) (datetime.isoformat thr) = Ok (n_since thr TL) /\
  (alert_threshold cfg <= n_since thr TL ->
     InfoThresholdReached (n_since thr TL)
       ∈ trace (fst (_check_and_send_alerts cfg e w))) /\
  (n_since thr TL < alert_threshold cfg ->
     _check_and_send_alerts cfg e w = (loaded w, None)) /\
  (forall u, recent (datetime.isoformat thr) (stamped (u, thr)) = true) /\
  (forall u, 8 < datetime.ordinal (clock e (tick w)) ->
     recent (datetime.isoformat thr)
       (stamped (u, datetime.mk (datetime.ordinal (clock e (tick w)) - 8)
                      (datetime.usec (clock e (tick w))))) = false).
Proof.
  intros Hf Hv Hnow Hsub.
  destruct (sub_days_valid _ _ _ Hnow Hsub) as [Hthr Heq].
  pose proof (count_recent_since TL thr Hthr Hv) as Hc.
  pose proof (check_alerts_counted cfg e w _ _ _ Hf Hsub Hc) as Hrun.
  split; [done|]. split; [done|]. split; [|split; [|split]].
  - intros Hge. rewrite Hrun. rewrite (proj2 (Z.leb_le _ _) Hge).
    set (w0 := log_msg (InfoThresholdReached (n_since thr TL)) (loaded w)).
    assert (Hin : InfoThresholdReached (n_since thr TL) ∈ trace w0).
    { unfold w0, log_msg. simpl. apply elem_of_app. right. apply list_elem_of_here. }
    pose proof (send_alerts_trace e (log_of TL) (default ∅ (clients_db (fs w))) w0 _ Hin)
      as Hs.
    destruct (_send_alerts_to_clients _ _ _ w0) as [w' [x|]]; simpl in *; [done|].
    by apply save_alert_history_trace.
  - intros Hlt. rewrite Hrun. by rewrite (proj2 (Z.leb_gt _ _) Hlt).
  - intros u. rewrite recent_stamped by done. simpl.
    apply datetime_leb_le. unfold datetime.le. lia.
  - intros u H8. destruct Hnow as [Ho Hu].
    rewrite recent_stamped; [|done|split; simpl; lia].
    subst thr. unfold datetime_leb. simpl. lia.
Qed.

Lemma alert_counts_discoveries_since_threshold_witness :
  regulatory_updates_db (fs sample_alert_world) = Some (log_of sample_timed_log) /\
  datetime.sub_days (clock sample_alert_env (tick sample_alert_world)) 7 =
    Ok (datetime.mk 739497 43200000000) /\
  count_recent (log_of sample_timed_log)
    (datetime.isoformat (datetime.mk 739497 43200000000)) = Ok 3 /\
  InfoThresholdReached 3
    ∈ trace (fst (_check_and_send_alerts sample_config sample_alert_env
                    sample_alert_world)).
Proof.
  assert (H1 : regulatory_updates_db (fs sample_alert_world) =
               Some (log_of sample_timed_log)) by (vm_compute; reflexivity).
  assert (H2 : stamps_valid sample_timed_log).
  { unfold stamps_valid.
    change (all_entries sample_timed_log) with
      [(sample_update "Reg A", sample_noon); (sample_update "Reg B", sample_noon);
       (sample_update "Reg C", sample_noon)].
    repeat constructor; vm_compute; discriminate. }
  assert (H3 : datetime.valid (clock sample_alert_env (tick sample_alert_world))).
  { repeat split; vm_compute; discriminate. }
  assert (H4 : datetime.sub_days (clock sample_alert_env (tick sample_alert_world)) 7 =
               Ok (datetime.mk 739497 43200000000)) by reflexivity.
  pose proof (alert_counts_discoveries_since_threshold sample_config sample_alert_env
                sample_alert_world sample_timed_log _ H1 H2 H3 H4)
    as (_ & Hc & Hfire & _).
  assert (Hn : n_since (datetime.mk 739497 43200000000) sample_timed_log = 3)
    by (vm_compute; reflexivity).
  rewrite Hn in Hc, Hfire.
  split; [exact H1|]. split; [exact H4|]. split; [exact Hc|].
  apply Hfire. vm_compute. discriminate.
Defined.

(** ** More on the monitoring cycle *)

Lemma quiet_update clk L k src st u :
  quiet_since L k st -> quiet_since L k (merge_update clk src st u).
Proof.
  unfold quiet_since, merge_update. intros H.
  destruct (is_new _ u); simpl; [done|exact H].
Qed.

Lemma quiet_updates clk L k src us : forall st,
  quiet_since L k st -> quiet_since L k (foldl (merge_update clk src) st us).
Proof.
  induction us as [|u us IH]; intros st H; simpl; [done|].
  by apply IH, quiet_update.
Qed.

Lemma quiet_ensure L k s st :
  quiet_since L k st -> quiet_since L k (ensure_source s st).
Proof.
  unfold quiet_since. intros H Hn.
  assert (Hn' : ms_has_new st = false).
  { unfold ensure_source in Hn. by destruct (ms_log st !! s). }
  destruct (H Hn') as (Hr & Ht & Htr). split; [|split].
  - intros s'. rewrite ensure_source_records. apply Hr.
  - unfold ensure_source. by destruct (ms_log st !! s).
  - unfold ensure_source. by destruct (ms_log st !! s).
Qed.

Lemma quiet_sources clk L k items : forall st,
  quiet_since L k st -> quiet_since L k (foldl (merge_source clk) st items).
Proof.
  induction items as [|it items IH]; intros st H; simpl; [done|].
  apply IH. unfold merge_source. by apply quiet_updates, quiet_ensure.
Qed.

Lemma merge_quiet clk k L inc : quiet_since L k (merge clk k L inc).
Proof. unfold merge. apply quiet_sources. intros _. done. Qed.

Lemma cause_update clk inc L st src ups u :
  (src, ups) ∈ inc -> u ∈ ups ->
  added_since clk inc L st -> news_has_cause L inc st ->
  news_has_cause L inc (merge_update clk src st u).
Proof.
  intros Hin Hu Hadd H. unfold news_has_cause, merge_update.
  fold (records_of (ms_log st) src).
  destruct (is_new (records_of (ms_log st) src) u) eqn:E; [|exact H].
  intros _. apply is_new_spec in E.
  destruct (Hadd src) as (added & Hrec & _).
  rewrite Hrec, titles_app, not_elem_of_app in E.
  exists src, ups, u. by destruct E.
Qed.

Lemma cause_updates clk inc L src ups :
  (src, ups) ∈ inc ->
  forall us st, us ⊆ ups -> added_since clk inc L st -> news_has_cause L inc st ->
  news_has_cause L inc (foldl (merge_update clk src) st us).
Proof.
  intros Hin us. induction us as [|u us IH]; intros st Hsub Hadd H; simpl; [done|].
  assert (Hu : u ∈ ups) by apply Hsub, list_elem_of_here.
  apply IH.
  - intros x Hx. apply Hsub. by apply list_elem_of_further.
  - by eapply added_since_update.
  - by eapply cause_update.
Qed.

Lemma cause_sources clk inc L :
  forall items st, items ⊆ inc -> added_since clk inc L st -> news_has_cause L inc st ->
  news_has_cause L inc (foldl (merge_source clk) st items).
Proof.
  induction items as [|[src ups] items IH]; intros st Hsub Hadd H; simpl; [done|].
  assert (Hin : (src, ups) ∈ inc) by apply Hsub, list_elem_of_here.
  assert (Hsub' : items ⊆ inc).
  { intros x Hx. apply Hsub. by apply list_elem_of_further. }
  apply IH; [done| |]; unfold merge_source; simpl.
  - eapply added_since_updates; [done|done|by apply added_since_ensure].
  - eapply cause_updates; [done|done|by apply added_since_ensure|].
    unfold news_has_cause, ensure_source in *. by destruct (ms_log st !! src).
Qed.

Lemma merge_reports_news_aux clk k (L : update_log) (inc : list (string * list update)) :
  ms_has_new (merge clk k L inc) = true -> brings_news L inc.
Proof.
  unfold merge. apply cause_sources; [done|apply added_since_start|].
  intros H. discriminate H.
Qed.

(** X1: the merge reports new updates exactly when some record of the
    batch has a title that its source did not hold; and when it reports
    none, the records of every source, the clock and the log of the process
    are as before. *)
Theorem merge_reports_news_iff_absent_title clk k (L : update_log)
    (inc : list (string * list update)) :
  (ms_has_new (merge clk k L inc) = true <-> brings_news L inc) /\
  (ms_has_new (merge clk k L inc) = false ->
     (forall s, records_of (ms_log (merge clk k L inc)) s = records_of L s) /\
     ms_tick (merge clk k L inc) = k /\ ms_trace (merge clk k L inc) = []).
Proof.
  split; [split|].
  - apply merge_reports_news_aux.
  - intros (s & ups & u & Hin & Hu & Habs).
    destruct (ms_has_new (merge clk k L inc)) eqn:E; [done|]. exfalso.
    destruct (merge_quiet clk k L inc E) as (Hr & _ & _).
    destruct (merge_present clk k L inc (s, ups) Hin) as [_ Hp].
    specialize (Hp u Hu). simpl in Hp. rewrite Hr in Hp. done.
  - apply merge_quiet.
Qed.

Lemma loaded_fs w : fs (loaded w) = fs w.
Proof.
  unfold loaded. destruct (client_alerts_db (fs w)); simpl;
    by destruct (clients_db (fs w)).
Qed.

Lemma loaded_outbox w : outbox (loaded w) = outbox w.
Proof.
  unfold loaded. destruct (client_alerts_db (fs w)); simpl;
    by destruct (clients_db (fs w)).
Qed.

Lemma send_alerts_fs e (updates : update_log) cl w :
  fs (fst (_send_alerts_to_clients e updates cl w)) = fs w.
Proof.
  unfold _send_alerts_to_clients. destruct (compose_body updates); simpl; [|done].
  by rewrite send_all_spec.
Qed.

Lemma save_alert_history_frame e (L : ledger) w :
  regulatory_updates_db (fs (save_alert_history e L w)) = regulatory_updates_db (fs w) /\
  clients_db (fs (save_alert_history e L w)) = clients_db (fs w) /\
  outbox (save_alert_history e L w) = outbox w.
Proof. unfold save_alert_history. by destruct (write_client_alerts e). Qed.

(** The alert check leaves the update log and the clients file alone. *)
Lemma check_alerts_frame cfg e w :
  regulatory_updates_db (fs (fst (_check_and_send_alerts cfg e w))) =
    regulatory_updates_db (fs w) /\
  clients_db (fs (fst (_check_and_send_alerts cfg e w))) = clients_db (fs w).
Proof.
  destruct (regulatory_updates_db (fs w)) as [updates|] eqn:Eu.
  2:{ unfold _check_and_send_alerts. rewrite Eu. simpl. by rewrite Eu. }
  destruct (datetime.sub_days (clock e (tick w)) 7) as [thr|x] eqn:Et.
  2:{ unfold _check_and_send_alerts. rewrite Eu.
      destruct (client_alerts_db (fs w)) eqn:Ea; destruct (clients_db (fs w)) eqn:Ec;
        simpl; rewrite ?Ec; simpl; rewrite Et; simpl; by rewrite ?Eu, ?Ec. }
  destruct (count_recent updates (datetime.isoformat thr)) as [n|x] eqn:En.
  2:{ unfold _check_and_send_alerts. rewrite Eu.
      destruct (client_alerts_db (fs w)) eqn:Ea; destruct (clients_db (fs w)) eqn:Ec;
        simpl; rewrite ?Ec; simpl; rewrite Et, En; simpl; by rewrite ?Eu, ?Ec. }
  rewrite (check_alerts_counted cfg e w updates thr n Eu Et En).
  destruct (alert_threshold cfg <=? n).
  2:{ cbn [fst]. by rewrite loaded_fs, Eu. }
  pose proof (send_alerts_fs e updates (default ∅ (clients_db (fs w)))
                (log_msg (InfoThresholdReached n) (loaded w))) as Hfs.
  destruct (_send_alerts_to_clients _ _ _ _) as [w' [x|]]; cbn [fst] in *.
  - rewrite Hfs. cbn [fs log_msg]. by rewrite loaded_fs, Eu.
  - destruct (save_alert_history_frame e
      (record_alert (default ∅ (client_alerts_db (fs w))) (clock e (tick w'))
         (clock e (S (tick w'))) n)
      (mk_world (fs w') (S (S (tick w'))) (trace w') (outbox w'))) as (H1 & H2 & _).
    rewrite H1, H2. cbn [fs]. rewrite Hfs. cbn [fs log_msg]. by rewrite loaded_fs, Eu.
Qed.

(** X2: a cycle in which the scraper fails, or in which every fetched
    record has a title that the log already holds for its source, returns
    [False] and leaves the three files, the mail and the clock as they
    were: nothing is written and no alert is evaluated. *)
Theorem quiet_cycle_changes_nothing cfg e w :
  (exists x, scraper_check_for_updates e = Raise x) \/
  (exists inc, scraper_check_for_updates e = Ok inc /\ ~ brings_news (starting_log w) inc) ->
  snd (check_regulatory_updates cfg e w) = Ok false /\
  fs (fst (check_regulatory_updates cfg e w)) = fs w /\
  outbox (fst (check_regulatory_updates cfg e w)) = outbox w /\
  tick (fst (check_regulatory_updates cfg e w)) = tick w.
Proof.
  unfold check_regulatory_updates, starting_log.
  intros [[x Hx]|(inc & Hinc & Hno)].
  - rewrite Hx. by destruct (regulatory_updates_db (fs w)).
  - rewrite Hinc.
    destruct (regulatory_updates_db (fs w)) as [l|] eqn:El; simpl in *.
    + destruct (ms_has_new (merge (clock e) (tick w) l inc)) eqn:E.
      * exfalso. by apply Hno, (merge_reports_news_aux (clock e) (tick w) l inc).
      * destruct (merge_quiet (clock e) (tick w) l inc E) as (_ & Ht & _).
        simpl. by rewrite Ht.
    + destruct (ms_has_new (merge (clock e) (tick w) ∅ inc)) eqn:E.
      * exfalso. by apply Hno, (merge_reports_news_aux (clock e) (tick w) ∅ inc).
      * destruct (merge_quiet (clock e) (tick w) ∅ inc E) as (_ & Ht & _).
        simpl. by rewrite Ht.
Qed.

Lemma quiet_cycle_changes_nothing_witness :
  ~ brings_news (starting_log sample_known_world)
      [("eur-lex", [sample_update "Reg A"; sample_update "Reg B"])] /\
  snd (check_regulatory_updates sample_config (sample_env WriteOk) sample_known_world)
    = Ok false /\
  fs (fst (check_regulatory_updates sample_config (sample_env WriteOk) sample_known_world))
    = fs sample_known_world.
Proof.
  assert (Hno : ~ brings_news (starting_log sample_known_world)
                    [("eur-lex", [sample_update "Reg A"; sample_update "Reg B"])]).
  { intros (s & ups & u & Hin & Hu & Habs).
    apply list_elem_of_singleton in Hin. injection Hin as -> ->.
    apply Habs.
    change (titles (records_of (starting_log sample_known_world) "eur-lex"))
      with [dict_get (sample_update "Reg A") "title";
            dict_get (sample_update "Reg B") "title"].
    apply elem_of_cons in Hu as [->|Hu]; [apply list_elem_of_here|].
    apply list_elem_of_singleton in Hu as ->.
    apply list_elem_of_further, list_elem_of_here. }
  split; [exact Hno|].
  destruct (quiet_cycle_changes_nothing sample_config (sample_env WriteOk)
              sample_known_world) as (H1 & H2 & _).
  - right. eexists. split; [reflexivity|exact Hno].
  - split; assumption.
Defined.

Lemma merge_log_prefix clk k (L : update_log) inc s :
  records_of L s `prefix_of` records_of (ms_log (merge clk k L inc)) s.
Proof.
  destruct (merge_added_since clk k L inc s) as (added & -> & _).
  by exists added.
Qed.

(** X3: a cycle that finds news and whose write succeeds leaves in the
    update log file exactly the merge of the log it started from with the
    batch, so every source keeps its earlier records as a prefix; the alert
    check that follows does not change that file; and when the file could
    not be loaded at the start, the cycle starts from the empty log, so the
    file then holds stamped records of the current batch only. *)
Theorem cycle_saves_the_merge cfg e w inc :
  scraper_check_for_updates e = Ok inc ->
  brings_news (starting_log w) inc ->
  write_regulatory_updates e = WriteOk ->
  snd (check_regulatory_updates cfg e w) = Ok true /\
  regulatory_updates_db (fs (fst (check_regulatory_updates cfg e w))) =
    Some (ms_log (merge (clock e) (tick w) (starting_log w) inc)) /\
  (forall s, records_of (starting_log w) s
               `prefix_of` records_of (ms_log (merge (clock e) (tick w)
                                                 (starting_log w) inc)) s) /\
  (regulatory_updates_db (fs w) = None ->
   forall s a,
     a ∈ records_of (ms_log (merge (clock e) (tick w) (starting_log w) inc)) s ->
     exists ups u j, (s, ups) ∈ inc /\ u ∈ ups /\ a = stamp (clock e j) u).
Proof.
  intros Hs Hnews Hw.
  assert (Hnew : ms_has_new (merge (clock e) (tick w) (starting_log w) inc) = true).
  { destruct (ms_has_new _) eqn:E; [done|]. exfalso.
    destruct (merge_quiet _ _ _ _ E) as (Hr & _ & _).
    destruct Hnews as (s & ups & u & Hin & Hu & Habs).
    destruct (merge_present (clock e) (tick w) (starting_log w) inc (s, ups) Hin)
      as [_ Hp].
    specialize (Hp u Hu). simpl in Hp. rewrite Hr in Hp. done. }
  split; [|split; [|split]].
  - unfold check_regulatory_updates, starting_log in *. rewrite Hs.
    destruct (regulatory_updates_db (fs w)); simpl in *; rewrite Hnew, Hw;
      by destruct (_check_and_send_alerts _ _ _) as [w' [x|]].
  - unfold check_regulatory_updates, starting_log in *. rewrite Hs.
    destruct (regulatory_updates_db (fs w)) as [l|]; simpl in *; rewrite Hnew, Hw.
    + match goal with |- context [_check_and_send_alerts cfg e ?w0] =>
        pose proof (check_alerts_frame cfg e w0) as [Hf _];
        destruct (_check_and_send_alerts cfg e w0) as [w' [x|]] end;
        simpl in *; by rewrite Hf.
    + match goal with |- context [_check_and_send_alerts cfg e ?w0] =>
        pose proof (check_alerts_frame cfg e w0) as [Hf _];
        destruct (_check_and_send_alerts cfg e w0) as [w' [x|]] end;
        simpl in *; by rewrite Hf.
  - intros s. apply merge_log_prefix.
  - intros Hnone s a Ha.
    destruct (merge_added_since (clock e) (tick w) (starting_log w) inc s)
      as (added & Hrec & _ & _ & Hprov).
    assert (Hempty : records_of (starting_log w) s = []).
    { unfold starting_log, records_of. rewrite Hnone. simpl. by rewrite lookup_empty. }
    rewrite Hrec, Hempty in Ha. simpl in Ha.
    rewrite Forall_forall in Hprov. by apply Hprov.
Qed.

Lemma cycle_saves_the_merge_witness :
  regulatory_updates_db (fs sample_broken_world) = None /\
  snd (check_regulatory_updates sample_config (sample_env WriteOk) sample_broken_world)
    = Ok true /\
  regulatory_updates_db
    (fs (fst (check_regulatory_updates sample_config (sample_env WriteOk)
                sample_broken_world))) =
  Some {[ "eur-lex" := [stamp sample_noon (sample_update "Reg A");
                        stamp sample_noon (sample_update "Reg B")] ]}.
Proof.
  assert (H1 : scraper_check_for_updates (sample_env WriteOk) =
    Ok [("eur-lex", [sample_update "Reg A"; sample_update "Reg B"])]) by reflexivity.
  assert (H2 : brings_news (starting_log sample_broken_world)
    [("eur-lex", [sample_update "Reg A"; sample_update "Reg B"])]).
  { exists "eur-lex", [sample_update "Reg A"; sample_update "Reg B"],
      (sample_update "Reg A").
    split; [apply list_elem_of_here|]. split; [apply list_elem_of_here|].
    apply not_elem_of_nil. }
  assert (H3 : write_regulatory_updates (sample_env WriteOk) = WriteOk) by reflexivity.
  destruct (cycle_saves_the_merge sample_config (sample_env WriteOk) sample_broken_world
              _ H1 H2 H3) as (Hr & Hf & _).
  split; [reflexivity|]. split; [exact Hr|]. rewrite Hf. vm_compute. reflexivity.
Defined.

Lemma null_stamp_in_all_records (updates : update_log) s l u :
  updates !! s = Some l -> u ∈ l -> u !! "discovered_date" = Some PNone ->
  keys_are_str (all_records updates) = false.
Proof.
  intros Hl Hu Hn.
  rewrite (keys_are_str_perm _ _ (all_records_split updates s l Hl)), keys_are_str_app.
  assert (Hf : keys_are_str l = false).
  { clear Hl. unfold keys_are_str. induction l as [|x l IH]; csimpl.
    - by apply elem_of_nil in Hu.
    - apply elem_of_cons in Hu as [<-|Hu].
      + unfold discovered_key at 1, dict_get_or. by rewrite Hn.
      + rewrite (IH Hu). apply andb_false_r. }
  by rewrite Hf.
Qed.

Lemma check_alerts_count_raises cfg e w (updates : update_log) thr x :
  regulatory_updates_db (fs w) = Some updates ->
  datetime.sub_days (clock e (tick w)) 7 = Ok thr ->
  count_recent updates (datetime.isoformat thr) = Raise x ->
  _check_and_send_alerts cfg e w = (loaded w, Some x).
Proof.
  intros Hu Ht Hc. unfold _check_and_send_alerts, loaded. rewrite Hu.
  destruct (client_alerts_db (fs w)) as [a|] eqn:Ea;
  destruct (clients_db (fs w)) as [c|] eqn:Ec; simpl;
    rewrite ?Ec; simpl; by rewrite Ht, Hc.
Qed.

Lemma news_is_reported clk k (L : update_log) inc :
  brings_news L inc -> ms_has_new (merge clk k L inc) = true.
Proof.
  intros (s & ups & u & Hin & Hu & Habs).
  destruct (ms_has_new (merge clk k L inc)) eqn:E; [done|]. exfalso.
  destruct (merge_quiet clk k L inc E) as (Hr & _ & _).
  destruct (merge_present clk k L inc (s, ups) Hin) as [_ Hp].
  specialize (Hp u Hu). simpl in Hp. rewrite Hr in Hp. done.
Qed.

(** A record of the log a cycle starts from is in the merged log. *)
Lemma merge_keeps_record clk k (L : update_log) inc s u :
  u ∈ records_of L s ->
  exists l, ms_log (merge clk k L inc) !! s = Some l /\ u ∈ l.
Proof.
  intros Hu. destruct (merge_log_prefix clk k L inc s) as [added Hp].
  unfold records_of in Hp at 1.
  destruct (ms_log (merge clk k L inc) !! s) as [l|] eqn:E; simpl in Hp.
  - exists l. split; [done|]. rewrite Hp. apply elem_of_app. by left.
  - symmetry in Hp. apply app_eq_nil in Hp as [Hp _]. rewrite Hp in Hu.
    by apply elem_of_nil in Hu.
Qed.

(** X4: a record whose [discovered_date] is [None] anywhere in the log
    makes the count raise [TypeError]: the alert check ends there, whatever
    the number of recent records and the threshold; no mail is sent and the
    ledger is not written.  And a cycle that starts from such a log, finds
    news and saves the merged log returns [True] all the same: the exception
    of the alert check is caught, logged as an error of saving the updates,
    and neither mail nor ledger changes. *)
Theorem null_stamp_blocks_alerts cfg e :
  (forall w (updates : update_log) thr s l u,
     regulatory_updates_db (fs w) = Some updates ->
     datetime.sub_days (clock e (tick w)) 7 = Ok thr ->
     updates !! s = Some l -> u ∈ l -> u !! "discovered_date" = Some PNone ->
     _check_and_send_alerts cfg e w = (loaded w, Some TypeError) /\
     outbox (loaded w) = outbox w /\ fs (loaded w) = fs w) /\
  (forall w inc thr s u,
     scraper_check_for_updates e = Ok inc ->
     brings_news (starting_log w) inc ->
     write_regulatory_updates e = WriteOk ->
     u ∈ records_of (starting_log w) s -> u !! "discovered_date" = Some PNone ->
     datetime.sub_days
       (clock e (ms_tick (merge (clock e) (tick w) (starting_log w) inc))) 7 = Ok thr ->
     snd (check_regulatory_updates cfg e w) = Ok true /\
     (exists t, trace (fst (check_regulatory_updates cfg e w)) =
                t ++ [ErrorSavingUpdates TypeError]) /\
     outbox (fst (check_regulatory_updates cfg e w)) = outbox w /\
     client_alerts_db (fs (fst (check_regulatory_updates cfg e w))) =
       client_alerts_db (fs w)).
Proof.
  split.
  - intros w updates thr s l u Hu Ht Hl Hin Hn.
    split; [|split; [apply loaded_outbox|apply loaded_fs]].
    apply (check_alerts_count_raises cfg e w updates thr); [done..|].
    by rewrite count_recent_spec, (null_stamp_in_all_records updates s l u).
  - intros w inc thr s u Hs Hnews Hw Hu Hn Ht.
    pose proof (news_is_reported (clock e) (tick w) (starting_log w) inc Hnews) as Hnew.
    destruct (merge_keeps_record (clock e) (tick w) (starting_log w) inc s u Hu)
      as (l & Hl & Hin).
    assert (Hc : count_recent (ms_log (merge (clock e) (tick w) (starting_log w) inc))
                   (datetime.isoformat thr) = Raise TypeError).
    { by rewrite count_recent_spec, (null_stamp_in_all_records _ s l u). }
    unfold check_regulatory_updates, starting_log in *. rewrite Hs.
    destruct (regulatory_updates_db (fs w)) as [L|]; simpl in *;
      rewrite Hnew, Hw;
      match goal with |- context [_check_and_send_alerts cfg e ?w0] =>
        rewrite (check_alerts_count_raises cfg e w0 _ thr TypeError eq_refl Ht Hc);
        cbn [fst snd]; (split; [done|]); (split; [by eexists|]); split;
        [ transitivity (outbox (loaded w0)); [reflexivity|by rewrite loaded_outbox]
        | transitivity (client_alerts_db (fs (loaded w0)));
            [reflexivity|by rewrite loaded_fs] ]
      end.
Qed.

Lemma null_stamp_blocks_alerts_witness :
  snd (check_regulatory_updates sample_threshold_1 (sample_env WriteOk)
         sample_null_world) = Ok true /\
  outbox (fst (check_regulatory_updates sample_threshold_1 (sample_env WriteOk)
                 sample_null_world)) = [] /\
  client_alerts_db (fs (fst (check_regulatory_updates sample_threshold_1 (sample_env WriteOk)
                               sample_null_world))) = Some ∅.
Proof.
  destruct (null_stamp_blocks_alerts sample_threshold_1 (sample_env WriteOk)) as [_ H].
  destruct (H sample_null_world
              [("eur-lex", [sample_update "Reg A"; sample_update "Reg B"])]
              (datetime.mk 739497 43200000000) "eur-lex"
              (<["discovered_date" := PNone]> (sample_update "Reg Z")))
    as (H1 & _ & H3 & H4).
  - reflexivity.
  - exists "eur-lex", [sample_update "Reg A"; sample_update "Reg B"],
      (sample_update "Reg A").
    split; [apply list_elem_of_here|]. split; [apply list_elem_of_here|].
    change (titles (records_of (starting_log sample_null_world) "eur-lex"))
      with [PStr "Reg Z"].
    intros Hx. apply list_elem_of_singleton in Hx. vm_compute in Hx. discriminate.
  - reflexivity.
  - change (records_of (starting_log sample_null_world) "eur-lex")
      with [<["discovered_date" := PNone]> (sample_update "Reg Z")].
    apply list_elem_of_here.
  - vm_compute. reflexivity.
  - vm_compute. reflexivity.
  - split; [exact H1|]. split; [exact H3|exact H4].
Defined.

(** X5: whatever its outcome, the alert check writes neither the update
    log file nor the clients file: the ledger is the only file it may
    change. *)
Theorem alert_check_writes_ledger_only cfg e w :
  regulatory_updates_db (fs (fst (_check_and_send_alerts cfg e w))) =
    regulatory_updates_db (fs w) /\
  clients_db (fs (fst (_check_and_send_alerts cfg e w))) = clients_db (fs w).
Proof. apply check_alerts_frame. Qed.

(** ** The impact assessment *)

Lemma recent_list_stamped thr (l : list (update * datetime.t)) :
  datetime.valid thr -> Forall (fun x => datetime.valid (snd x)) l ->
  recent_list (datetime.isoformat thr) (stamped <$> l) =
  Ok (stamped <$> filter (fun x => datetime_leb thr (snd x) = true) l).
Proof.
  intros Ht Hl. induction Hl as [|x l Hx _ IH]; csimpl; [done|].
  change (dict_get_or (stamped x) "discovered_date" (PStr ""))
    with (discovered_key (stamped x)).
  rewrite stamped_key. simpl. rewrite isoformat_leb by done. rewrite IH.
  rewrite filter_cons. by destruct (datetime_leb thr (snd x)).
Qed.

Lemma recent_items_stamped thr (items : list (string * list (update * datetime.t))) :
  datetime.valid thr ->
  Forall (fun it => Forall (fun x => datetime.valid (snd x)) (snd it)) items ->
  recent_items (datetime.isoformat thr)
    (prod_map id (fun l : list (update * datetime.t) => stamped <$> l) <$> items) =
  Ok (list_to_map
        (prod_map id
           (fun l : list (update * datetime.t) =>
              stamped <$> filter (fun x => datetime_leb thr (snd x) = true) l)
           <$> items)).
Proof.
  intros Ht Hv. induction Hv as [|[s l] items Hl _ IH]; csimpl; [done|].
  by rewrite (recent_list_stamped thr l Ht Hl), IH.
Qed.

Lemma stamps_valid_items (TL : timed_log) :
  stamps_valid TL ->
  Forall (fun it => Forall (fun x => datetime.valid (snd x)) (snd it)) (map_to_list TL).
Proof.
  unfold stamps_valid, all_entries.
  induction (map_to_list TL) as [|[s l] items IH]; csimpl; intros H; [done|].
  apply Forall_app in H as [H1 H2]. constructor; [done|by apply IH].
Qed.

(** X6: the impact assessment looks at the last thirty days.  For a
    profile that [json.dumps] can write and a log whose records carry their
    discovery time, [assess_impact_of_updates] returns what its [try] makes
    of the prompt built from the profile and, for every source of the log
    (also one left with none), the records discovered at the same time of
    day thirty days before now or later, in the order of the log. *)
Theorem impact_window_is_thirty_days e profile (TL : timed_log) :
  stamps_valid TL ->
  datetime.valid (impact_now e) ->
  30 < datetime.ordinal (impact_now e) ->
  assess_impact_of_updates e (Dumpable profile) (Some (log_of TL)) =
    Ok (impact_try e profile
          (log_of (recent_timed
                     (datetime.mk (datetime.ordinal (impact_now e) - 30)
                        (datetime.usec (impact_now e))) TL))) /\
  dom (log_of (recent_timed
                 (datetime.mk (datetime.ordinal (impact_now e) - 30)
                    (datetime.usec (impact_now e))) TL)) = dom (log_of TL).
Proof.
  intros Hv Hnow H30.
  assert (Hsub : datetime.sub_days (impact_now e) 30 =
                 Ok (datetime.mk (datetime.ordinal (impact_now e) - 30)
                       (datetime.usec (impact_now e)))).
  { unfold datetime.sub_days. destruct Hnow as [[Ho1 Ho2] _].
    cbv zeta.
    destruct (Z.ltb_spec 0 (datetime.ordinal (impact_now e) - 30)); [|lia].
    destruct (Z.leb_spec (datetime.ordinal (impact_now e) - 30) datetime._MAXORDINAL);
      [done|lia]. }
  destruct (sub_days_valid _ _ _ Hnow Hsub) as [Hthr _].
  split.
  - unfold assess_impact_of_updates. rewrite Hsub.
    unfold log_of at 1. rewrite map_to_list_fmap.
    rewrite (recent_items_stamped _ _ Hthr (stamps_valid_items TL Hv)).
    do 2 f_equal. unfold log_of, recent_timed.
    rewrite <- map_fmap_compose, <- map_to_list_fmap.
    apply list_to_map_to_list.
  - unfold log_of, recent_timed. by rewrite !dom_fmap_L.
Qed.

Lemma impact_window_is_thirty_days_witness :
  assess_impact_of_updates sample_impact_env (Dumpable sample_profile)
    (Some (log_of sample_old_and_new)) =
  Ok (impact_try sample_impact_env sample_profile
        (log_of (recent_timed (datetime.mk 739474 43200000000) sample_old_and_new))) /\
  recent_timed (datetime.mk 739474 43200000000) sample_old_and_new !! "eur-lex" =
    Some [(sample_update "Reg A", sample_noon)].
Proof.
  assert (H1 : stamps_valid sample_old_and_new).
  { unfold stamps_valid.
    change (all_entries sample_old_and_new) with
      [(sample_update "Old rule", datetime.mk 739252 0);
       (sample_update "Reg A", sample_noon)].
    repeat constructor; vm_compute; discriminate. }
  assert (H2 : datetime.valid (impact_now sample_impact_env)).
  { repeat split; vm_compute; discriminate. }
  assert (H3 : 30 < datetime.ordinal (impact_now sample_impact_env)) by reflexivity.
  destruct (impact_window_is_thirty_days sample_impact_env sample_profile
              sample_old_and_new H1 H2 H3) as (Hr & _).
  split; [exact Hr|]. vm_compute. reflexivity.
Defined.

Lemma recent_list_ok thr (l : list update) :
  recent_list thr l =
  if keys_are_str l then Ok (filter (fun u => recent thr u = true) l)
  else Raise TypeError.
Proof.
  unfold keys_are_str. induction l as [|u l IH]; csimpl; [done|].
  change (dict_get_or u "discovered_date" (PStr "")) with (discovered_key u).
  rewrite filter_cons.
  assert (Hr : recent thr u = String.leb thr (py_str (discovered_key u))) by done.
  destruct (discovered_key u) as [|s]; simpl in *; [done|].
  rewrite IH. destruct (forallb is_str _); [|done].
  destruct (String.leb thr s) eqn:E.
  - by rewrite decide_True.
  - rewrite decide_False; [done|]. by rewrite Hr.
Qed.

Lemma recent_items_raise thr (items : list (string * list update)) :
  (keys_are_str (concat (snd <$> items)) = true ->
   exists m, recent_items thr items = Ok m) /\
  (keys_are_str (concat (snd <$> items)) = false ->
   recent_items thr items = Raise TypeError).
Proof.
  induction items as [|[s l] items [IH1 IH2]]; csimpl.
  - split; [eauto|done].
  - rewrite keys_are_str_app, recent_list_ok.
    destruct (keys_are_str l); simpl; [|by split].
    split.
    + intros H. destruct (IH1 H) as [m ->]. eauto.
    + intros H. by rewrite (IH2 H).
Qed.

Lemma keys_are_str_false (l : list update) :
  keys_are_str l = false <-> exists u, u ∈ l /\ u !! "discovered_date" = Some PNone.
Proof.
  unfold keys_are_str. induction l as [|x l IH]; csimpl.
  - split; [done|]. intros (u & Hu & _). by apply elem_of_nil in Hu.
  - rewrite andb_false_iff, IH. unfold discovered_key at 1, dict_get_or. split.
    + intros [H|(u & Hu & Hn)].
      * exists x. split; [apply list_elem_of_here|].
        destruct (x !! "discovered_date") as [[|s]|]; done.
      * exists u. split; [by apply list_elem_of_further|done].
    + intros (u & Hu & Hn). apply elem_of_cons in Hu as [->|Hu].
      * left. by rewrite Hn.
      * right. eauto.
Qed.

(** X7: what [assess_impact_of_updates] raises to its caller.  Once the
    log is loaded and the threshold computed, it raises exactly when some
    record of the log holds [None] as its [discovered_date] (a [TypeError]
    of the loop over the log) or [json.dumps] cannot write the profile (what
    [json.dumps] raises): both happen outside the [try].  In every other case
    it returns a value, also when the API fails or answers with something
    that is not JSON; and a log that cannot be loaded gives an error
    dictionary, whatever the profile. *)
Theorem impact_assessment_raises_exactly_when e bi (updates : update_log) thr :
  datetime.sub_days (impact_now e) 30 = Ok thr ->
  ((exists x, assess_impact_of_updates e bi (Some updates) = Raise x) <->
   (exists u, u ∈ all_records updates /\ u !! "discovered_date" = Some PNone) \/
   (exists x, bi = NotDumpable x)) /\
  ((exists u, u ∈ all_records updates /\ u !! "discovered_date" = Some PNone) ->
   assess_impact_of_updates e bi (Some updates) = Raise TypeError) /\
  (forall x, bi = NotDumpable x ->
     assess_impact_of_updates e bi (Some updates) = Raise x \/
     assess_impact_of_updates e bi (Some updates) = Raise TypeError) /\
  (forall v, bi = Dumpable v ->
     assess_impact_of_updates e bi (Some updates) = Raise TypeError \/
     exists recent_updates,
       assess_impact_of_updates e bi (Some updates) =
       Ok (impact_try e v recent_updates)) /\
  assess_impact_of_updates e bi None =
    Ok (JDict [("error", JStr "Could not load regulatory updates")]).
Proof.
  intros Hsub. unfold assess_impact_of_updates. rewrite Hsub.
  destruct (recent_items_raise (datetime.isoformat thr) (map_to_list updates))
    as [Hok Hraise].
  fold (all_records updates) in Hok, Hraise.
  rewrite <- keys_are_str_false.
  destruct (keys_are_str (all_records updates)) eqn:E.
  - destruct (Hok eq_refl) as [m ->].
    split; [|split; [done|split; [|split; [|done]]]].
    + split.
      * intros [x Hx]. right. destruct bi as [v|y]; [done|]. eauto.
      * intros [?|[x ->]]; [done|]. eauto.
    + intros x ->. by left.
    + intros v ->. right. eauto.
  - rewrite (Hraise eq_refl).
    split; [|split; [done|split; [|split; [|done]]]].
    + split; [by left|]. eauto.
    + intros x _. by right.
    + intros v _. by left.
Qed.

Lemma impact_assessment_raises_exactly_when_witness :
  assess_impact_of_updates sample_impact_env (NotDumpable TypeError)
    (Some (log_of sample_old_and_new)) = Raise TypeError /\
  assess_impact_of_updates sample_impact_env (Dumpable sample_profile)
    (Some {[ "eur-lex" := [<["discovered_date" := PNone]> (sample_update "Reg B")] ]}) =
  Raise TypeError.
Proof.
  split.
  - destruct (impact_assessment_raises_exactly_when sample_impact_env
                (NotDumpable TypeError) (log_of sample_old_and_new)
                (datetime.mk 739474 43200000000) eq_refl) as (_ & _ & H & _).
    by destruct (H TypeError eq_refl).
  - destruct (impact_assessment_raises_exactly_when sample_impact_env
                (Dumpable sample_profile)
                {[ "eur-lex" := [<["discovered_date" := PNone]> (sample_update "Reg B")] ]}
                (datetime.mk 739474 43200000000) eq_refl) as (_ & H & _).
    apply H.
    exists (<["discovered_date" := PNone]> (sample_update "Reg B")). split.
    + change (all_records
                {[ "eur-lex" := [<["discovered_date" := PNone]> (sample_update "Reg B")] ]})
        with [<["discovered_date" := PNone]> (sample_update "Reg B")].
      apply list_elem_of_here.
    + vm_compute. reflexivity.
Defined.
(** ** The result of the date normalizer *)

Lemma digit_cases d :
  0 <= d < 10 ->
  d = 0 \/ d = 1 \/ d = 2 \/ d = 3 \/ d = 4 \/ d = 5 \/ d = 6 \/ d = 7 \/ d = 8 \/ d = 9.
Proof. lia. Qed.

Lemma is_digit_digit_char d : 0 <= d < 10 -> is_digit (N_of_ascii (digit_char d)) = true.
Proof.
  intros H. apply digit_cases in H.
  repeat (destruct H as [->|H]; [vm_compute; reflexivity|]).
  subst. vm_compute. reflexivity.
Qed.

Lemma ascii_digit_digit_char d :
  0 <= d < 10 -> ascii_digit (N_of_ascii (digit_char d)) = true.
Proof.
  intros H. apply digit_cases in H.
  repeat (destruct H as [->|H]; [vm_compute; reflexivity|]).
  subst. vm_compute. reflexivity.
Qed.

Lemma list_ascii_app (a b : string) :
  list_ascii_of_string (a +:+ b) = list_ascii_of_string a ++ list_ascii_of_string b.
Proof. induction a as [|c a IH]; simpl; [done|]. by rewrite IH. Qed.

Lemma codes_app (a b : string) : codes (a +:+ b) = codes a ++ codes b.
Proof. unfold codes. by rewrite list_ascii_app, fmap_app. Qed.

Lemma length_list_ascii (s : string) :
  length (list_ascii_of_string s) = String.length s.
Proof. induction s as [|c s IH]; simpl; [done|]. by rewrite IH. Qed.

Lemma length_codes (s : string) : length (codes s) = String.length s.
Proof. unfold codes. by rewrite length_fmap, length_list_ascii. Qed.

Lemma digits_fix_codes (P : N -> Prop) :
  (forall d, 0 <= d < 10 -> P (N_of_ascii (digit_char d))) ->
  forall w n, Forall P (codes (digits_fix w n)).
Proof.
  intros HP. induction w as [|w IH]; intros n; cbn [digits_fix]; [constructor|].
  rewrite codes_app. apply Forall_app. split; [apply IH|].
  change (codes (String (digit_char (n mod 10)) EmptyString))
    with [N_of_ascii (digit_char (n mod 10))].
  constructor; [|constructor].
  apply HP, Z.mod_pos_bound. lia.
Qed.

Lemma digits_fix_all_digits w n : all_digits (codes (digits_fix w n)).
Proof. apply digits_fix_codes. apply is_digit_digit_char. Qed.

Lemma digits_fix_ascii_digits w n :
  Forall (fun c => ascii_digit c = true) (codes (digits_fix w n)).
Proof. apply (digits_fix_codes (fun c => ascii_digit c = true)), ascii_digit_digit_char. Qed.

(** A number that fits a field of [w] digits is written as a run of [w]
    digits. *)
Lemma fmt_0d_digit_run w n :
  (1 <= w)%nat -> 0 <= n < 10 ^ Z.of_nat w ->
  digit_run w w (codes (fmt_0d w n)).
Proof.
  intros Hw Hn. rewrite fmt_0d_fits by done. split.
  - apply digits_fix_all_digits.
  - rewrite length_codes, length_digits_fix. lia.
Qed.

Lemma fmt_0d_ascii_digits w n :
  (1 <= w)%nat -> 0 <= n < 10 ^ Z.of_nat w ->
  Forall (fun c => ascii_digit c = true) (codes (fmt_0d w n)).
Proof. intros Hw Hn. rewrite fmt_0d_fits by done. apply digits_fix_ascii_digits. Qed.

(** A digit lies in the run of ten that starts at its zero. *)
Lemma decimal_value_zero c v :
  decimal_value c = Some v ->
  exists zero, In zero decimal_zeros /\ (zero <= c < zero + 10)%N /\ v = (c - zero)%N.
Proof.
  unfold decimal_value.
  destruct (find _ decimal_zeros) as [zero|] eqn:E; [|done].
  intros [= <-]. apply find_some in E as [Hin Hz].
  apply andb_true_iff in Hz as [H1 H2].
  apply N.leb_le in H1. apply N.ltb_lt in H2. eauto.
Qed.

Lemma is_digit_value c :
  is_digit c = true -> 0 <= Z.of_N (default 0%N (decimal_value c)) <= 9.
Proof.
  unfold is_digit. destruct (decimal_value c) as [v|] eqn:E; [|done]. intros _.
  apply decimal_value_zero in E as (zero & _ & Hz & ->). simpl. lia.
Qed.

(** Below 128 the decimal digits are the ten of ASCII. *)
Lemma ascii_is_digit c : (c < 128)%N -> is_digit c = true -> ascii_digit c = true.
Proof.
  unfold is_digit. intros Hc. destruct (decimal_value c) as [v|] eqn:E; [|done].
  intros _. apply decimal_value_zero in E as (zero & Hin & Hz & _).
  assert (Hall : forallb (fun z => (z =? 48) || (128 <=? z))%N decimal_zeros = true)
    by (vm_compute; reflexivity).
  rewrite forallb_forall in Hall. specialize (Hall zero Hin).
  apply orb_true_iff in Hall as [H|H].
  - apply N.eqb_eq in H. subst zero. unfold ascii_digit.
    apply andb_true_iff. split; [apply N.leb_le|apply N.leb_le]; lia.
  - apply N.leb_le in H. lia.
Qed.

Lemma int_of_short_run (l : text) :
  digit_run 1 2 l -> 0 <= int_of_digits l < 100.
Proof.
  intros [Hd Hl]. unfold int_of_digits.
  destruct l as [|c1 [|c2 [|c3 l]]]; simpl in Hl; try lia.
  - apply Forall_cons in Hd as [H1 _]. apply is_digit_value in H1.
    cbn [foldl]. lia.
  - apply Forall_cons in Hd as [H1 Hd]. apply Forall_cons in Hd as [H2 _].
    apply is_digit_value in H1, H2. cbn [foldl]. lia.
Qed.

Lemma digit_run_app a b (x y : text) :
  digit_run a a x -> digit_run b b y -> digit_run (a + b) (a + b) (x ++ y).
Proof.
  intros [Hx Hlx] [Hy Hly]. split; [by apply Forall_app|].
  rewrite length_app. lia.
Qed.

Lemma composed_date_is_compact (da mo y : text) :
  digit_run 1 2 da -> digit_run 1 2 mo -> digit_run 4 4 y ->
  digit_run 8 8
    (codes (fmt_0d 2 (int_of_digits da)) ++ codes (fmt_0d 2 (int_of_digits mo)) ++ y).
Proof.
  intros Hd Hm Hy.
  apply (digit_run_app 2 6); [apply fmt_0d_digit_run; [lia|]|].
  - change (10 ^ Z.of_nat 2) with 100. by apply int_of_short_run.
  - apply (digit_run_app 2 4); [apply fmt_0d_digit_run; [lia|]|done].
    change (10 ^ Z.of_nat 2) with 100. by apply int_of_short_run.
Qed.

Lemma format_ojdate_str_cases s r :
  _format_ojdate (InStr s) = Ok r ->
  (exists y mo da l1 l2,
     strip s = l1 ++ y ++ l2 /\
     digit_run 4 4 y /\ digit_run 1 2 mo /\ digit_run 1 2 da /\
     r = codes (fmt_0d 2 (int_of_digits da)) ++
         codes (fmt_0d 2 (int_of_digits mo)) ++ y) \/
  (shape_compact (strip s) /\ r = strip s).
Proof.
  simpl. set (l := strip s).
  destruct (re_match re_ymd l) as [[[y mo] da]|] eqn:E1.
  { intros [= <-]. left. exists y, mo, da.
    apply re_match_Some in E1 as [rest H].
    apply re_ymd_spec in H as [_ (Hl & Hy & Hm & Hd)]. simpl in *.
    exists [], (dash :: mo ++ dash :: da). done. }
  destruct (re_match re_dmy l) as [[[da mo] y]|] eqn:E2.
  { intros [= <-]. left. exists y, mo, da.
    apply re_match_Some in E2 as [rest H].
    apply re_dmy_spec in H as [_ (Hl & Hd & Hm & Hy)]. simpl in *.
    exists (da ++ dash :: mo ++ [dash]), []. split; [|done].
    rewrite Hl, app_nil_r, <- !app_assoc. simpl. by rewrite <- app_assoc. }
  destruct (re_match re_compact l) as [x|] eqn:E3; [|done].
  intros [= <-]. right. split; [|done]. apply re_compact_matches. eauto.
Qed.

(** A year of four digits is written with its four digits. *)
Lemma strftime_Y_four y :
  1000 <= y <= 9999 -> datetime.strftime_Y y = fmt_0d 4 y.
Proof.
  intros Hy. unfold datetime.strftime_Y, fmt_0d. f_equal.
  assert (Hn : ndigits y = 4%nat); [|by rewrite Hn].
  unfold ndigits.
  assert (exists f, Z.to_nat y = S (S (S (S f)))) as [f ->].
  { exists (Z.to_nat y - 4)%nat. lia. }
  cbn [ndigits_aux].
  destruct (Z.ltb_spec y 10); [lia|].
  destruct (Z.ltb_spec (y / 10) 10);
    [Z.to_euclidean_division_equations; lia|].
  destruct (Z.ltb_spec (y / 10 / 10) 10);
    [Z.to_euclidean_division_equations; lia|].
  destruct (Z.ltb_spec (y / 10 / 10 / 10) 10);
    [done|Z.to_euclidean_division_equations; lia].
Qed.

Lemma strftime_dmY_parts d :
  datetime.valid d -> four_digit_year d ->
  exists y m dd,
    1000 <= y <= 9999 /\ 1 <= m <= 12 /\ 1 <= dd <= 31 /\
    codes (datetime.strftime_dmY d) =
    codes (fmt_0d 2 dd) ++ codes (fmt_0d 2 m) ++ codes (fmt_0d 4 y).
Proof.
  intros [Ho _] H4. unfold four_digit_year in H4.
  pose proof (ord2ymd_range _ Ho) as (Hy & Hm & Hd).
  unfold datetime.strftime_dmY.
  destruct (datetime._ord2ymd (datetime.ordinal d)) as [[y m] dd]. simpl in *.
  exists y, m, dd. rewrite strftime_Y_four by lia. rewrite !codes_app.
  repeat split; lia.
Qed.

Lemma strftime_dmY_compact d :
  datetime.valid d -> four_digit_year d ->
  digit_run 8 8 (codes (datetime.strftime_dmY d)) /\
  Forall (fun c => ascii_digit c = true) (codes (datetime.strftime_dmY d)).
Proof.
  intros Hv H4.
  destruct (strftime_dmY_parts d Hv H4) as (y & m & dd & Hy & Hm & Hd & ->). split.
  - apply (digit_run_app 2 6);
      [apply fmt_0d_digit_run; [lia|change (10 ^ Z.of_nat 2) with 100; lia]|].
    apply (digit_run_app 2 4); apply fmt_0d_digit_run;
      [lia|change (10 ^ Z.of_nat 2) with 100; lia|lia|change (10 ^ Z.of_nat 4) with 10000; lia].
  - repeat apply Forall_app_2; apply fmt_0d_ascii_digits;
      first [lia | change (10 ^ Z.of_nat 2) with 100; lia
            | change (10 ^ Z.of_nat 4) with 10000; lia].
Qed.

Lemma lstrip_Forall (P : N -> Prop) l : Forall P l -> Forall P (lstrip l).
Proof.
  induction 1 as [|c l Hc Hl IH]; simpl; [constructor|].
  destruct (is_space c); [done|by constructor].
Qed.

Lemma strip_Forall (P : N -> Prop) l : Forall P l -> Forall P (strip l).
Proof.
  intros H. unfold strip.
  apply Forall_rev, lstrip_Forall, Forall_rev, lstrip_Forall, H.
Qed.

(** What a valid input gives: eight digits, and ASCII digits when the
    input is a date object or an ASCII string. *)
Lemma format_ojdate_result x r :
  date_input_valid x ->
  _format_ojdate x = Ok r ->
  digit_run 8 8 r /\
  ((forall s, x = InStr s -> ascii_text s) -> Forall (fun c => ascii_digit c = true) r).
Proof.
  intros Hx H. destruct x as [d|s|]; [| |done].
  - simpl in H. injection H as <-. destruct Hx as [Hv H4].
    destruct (strftime_dmY_compact d Hv H4). by split.
  - apply format_ojdate_str_cases in H
      as [(y & mo & da & l1 & l2 & Hs & Hy & Hm & Hd & ->)|[Hc ->]].
    + split; [by apply composed_date_is_compact|].
      intros Ha. specialize (Ha s eq_refl).
      apply (strip_Forall _ s) in Ha. rewrite Hs in Ha.
      apply Forall_app in Ha as [_ Ha]. apply Forall_app in Ha as [Ha _].
      repeat apply Forall_app_2.
      * apply fmt_0d_ascii_digits; [lia|].
        change (10 ^ Z.of_nat 2) with 100. by apply int_of_short_run.
      * apply fmt_0d_ascii_digits; [lia|].
        change (10 ^ Z.of_nat 2) with 100. by apply int_of_short_run.
      * destruct Hy as [Hy _]. unfold all_digits in Hy.
        rewrite Forall_forall in Hy, Ha. apply Forall_forall. intros c Hc.
        apply ascii_is_digit; [by apply Ha|by apply Hy].
    + split; [done|]. intros Ha. specialize (Ha s eq_refl).
      apply (strip_Forall _ s) in Ha. destruct Hc as [Hc _]. unfold all_digits in Hc.
      rewrite Forall_forall in Hc, Ha. apply Forall_forall. intros c Hin.
      apply ascii_is_digit; [by apply Ha|by apply Hc].
Qed.

(** C5, as stated, fails: a date whose month and day are written with one
    digit is in none of the three fixed-width formats and is accepted. *)
Lemma format_ojdate_accepts_short_fields :
  recognized_fixed_width (codes "2025-9-1") = false /\
  _format_ojdate (InStr (codes "2025-9-1")) = Ok (codes "01092025").
Proof. split; vm_compute; reflexivity. Qed.

(** C5, amended: a date object gives its day and month, of two digits
    each, and its year as [strftime] writes it, which makes eight digits
    when the year has four; a string gives a result
    exactly when, once stripped of surrounding white space, it is a year of
    four decimal digits and a month and a day of one or two decimal digits
    each joined by dashes, in the order year-month-day or day-month-year (the
    result is then the day and the month as numbers padded to two digits,
    followed by the year as it was written), or eight decimal digits
    (returned as they are), so the result of a string is eight decimal
    digits, the digits 0 to 9 when the string is ASCII; every other input
    raises [ValueError].  White
    space and decimal digits are Unicode's: a no-break space is stripped, and
    a date in Arabic-Indic digits is accepted, its year copied into the
    result. *)
Theorem format_ojdate_accepted_shapes :
  (forall d, _format_ojdate (InDate d) = Ok (codes (datetime.strftime_dmY d))) /\
  _format_ojdate InOther = Raise ValueError /\
  (forall s r,
     _format_ojdate (InStr s) = Ok r <->
     (exists y mo da,
        (shape_ymd (strip s) y mo da \/ shape_dmy (strip s) da mo y) /\
        r = codes (fmt_0d 2 (int_of_digits da)) ++
            codes (fmt_0d 2 (int_of_digits mo)) ++ y) \/
     (shape_compact (strip s) /\ r = strip s)) /\
  (forall x e, _format_ojdate x = Raise e -> e = ValueError) /\
  (forall d, datetime.valid d -> four_digit_year d ->
     digit_run 8 8 (codes (datetime.strftime_dmY d)) /\
     Forall (fun c => ascii_digit c = true) (codes (datetime.strftime_dmY d))) /\
  (forall s r, _format_ojdate (InStr s) = Ok r ->
     digit_run 8 8 r /\ (ascii_text s -> Forall (fun c => ascii_digit c = true) r)) /\
  _format_ojdate (InStr (codes "2025-09-10")) = Ok (codes "10092025") /\
  _format_ojdate (InStr (codes "10-09-2025")) = Ok (codes "10092025") /\
  _format_ojdate (InStr (codes "10092025")) = Ok (codes "10092025") /\
  _format_ojdate (InStr (codes "2025/09/10")) = Raise ValueError /\
  _format_ojdate (InStr (codes "10092025" ++ [nbsp])) = Ok (codes "10092025") /\
  _format_ojdate (InStr sample_arabic_date) = Ok (codes "1009" ++ sample_arabic_2025).
Proof.
  split; [done|]. split; [done|]. split; [|split; [|split; [|split]]].
  - intros s r. simpl. set (l := strip s). split.
    + destruct (re_match re_ymd l) as [[[y mo] da]|] eqn:E1.
      { intros [= <-]. left. exists y, mo, da. split; [|done]. left.
        apply re_match_Some in E1 as [rest H]. by apply re_ymd_spec in H as [_ H]. }
      destruct (re_match re_dmy l) as [[[da mo] y]|] eqn:E2.
      { intros [= <-]. left. exists y, mo, da. split; [|done]. right.
        apply re_match_Some in E2 as [rest H]. by apply re_dmy_spec in H as [_ H]. }
      destruct (re_match re_compact l) as [x|] eqn:E3; [|done].
      intros [= <-]. right. split; [|done]. apply re_compact_matches. eauto.
    + intros [(y & mo & da & [H|H] & ->)|[H ->]].
      * rewrite (re_match_unique re_ymd l (y, mo, da) []); [done| |].
        -- by apply re_ymd_spec.
        -- intros [[y' mo'] da'] r' Hy. apply re_ymd_spec in Hy as [_ Hy].
           by apply (shape_ymd_unique l).
      * destruct (re_match re_ymd l) as [[[y' mo'] da']|] eqn:E1.
        { apply re_match_Some in E1 as [rest H1]. apply re_ymd_spec in H1 as [_ H1].
          destruct (shape_ymd_not_dmy _ _ _ _ _ _ _ H1 H). }
        rewrite (re_match_unique re_dmy l (da, mo, y) []); [done| |].
        -- by apply re_dmy_spec.
        -- intros [[da' mo'] y'] r' Hy. apply re_dmy_spec in Hy as [_ Hy].
           by apply (shape_dmy_unique l).
      * destruct (re_match re_ymd l) as [[[y' mo'] da']|] eqn:E1.
        { apply re_match_Some in E1 as [rest H1]. apply re_ymd_spec in H1 as [_ [H1 _]].
          destruct H as [H _]. destruct (digits_no_dash _ _ _ H H1). }
        destruct (re_match re_dmy l) as [[[da' mo'] y']|] eqn:E2.
        { apply re_match_Some in E2 as [rest H1]. apply re_dmy_spec in H1 as [_ [H1 _]].
          destruct H as [H _]. destruct (digits_no_dash _ _ _ H H1). }
        apply re_compact_matches in H as [x ->]. done.
  - intros [d|s|] e; simpl; [done| |by intros [= <-]].
    destruct (re_match re_ymd _) as [[[? ?] ?]|]; [done|].
    destruct (re_match re_dmy _) as [[[? ?] ?]|]; [done|].
    destruct (re_match re_compact _); [done|]. by intros [= <-].
  - intros d Hv H4. by apply strftime_dmY_compact.
  - intros s r H. destruct (format_ojdate_result (InStr s) r I H) as [H1 H2].
    split; [done|]. intros Ha. apply H2. by intros s' [= <-].
  - repeat split; vm_compute; reflexivity.
Qed.
(** ** More on the date normalizer *)

(** X8: whatever [_format_ojdate] returns is eight decimal digits, for a
    string as for a date object whose year has four digits; and they are the
    digits 0 to 9 of ASCII when the input is a date object or a string of
    ASCII characters. *)
Theorem format_ojdate_gives_eight_digits x r :
  date_input_valid x ->
  _format_ojdate x = Ok r ->
  digit_run 8 8 r /\
  ((forall s, x = InStr s -> ascii_text s) -> Forall (fun c => ascii_digit c = true) r).
Proof. apply format_ojdate_result. Qed.

Lemma format_ojdate_gives_eight_digits_witness :
  digit_run 8 8 (codes "01092025") /\
  Forall (fun c => ascii_digit c = true) (codes "01092025").
Proof.
  destruct (format_ojdate_gives_eight_digits (InStr (codes " 2025-9-1 ")) (codes "01092025"))
    as [H1 H2].
  - exact I.
  - vm_compute. reflexivity.
  - split; [exact H1|]. apply H2. intros s [= <-].
    repeat constructor.
Defined.

Lemma digit_not_space c : is_digit c = true -> is_space c = false.
Proof.
  intros Hd. destruct (is_space c) eqn:E; [|done]. exfalso.
  unfold is_space in E. apply existsb_exists in E as (x & Hin & Hx).
  apply N.eqb_eq in Hx. subst x.
  assert (Hall : forallb (fun x => negb (is_digit x)) white_space = true)
    by (vm_compute; reflexivity).
  rewrite forallb_forall in Hall. specialize (Hall c Hin).
  by rewrite Hd in Hall.
Qed.

Lemma lstrip_digits (l : text) : all_digits l -> lstrip l = l.
Proof.
  intros H. destruct H as [|c l Hc _]; simpl; [done|].
  by rewrite (digit_not_space c Hc).
Qed.

Lemma strip_digits (l : text) : all_digits l -> strip l = l.
Proof.
  intros H. unfold strip. rewrite (lstrip_digits l H).
  rewrite lstrip_digits; [apply rev_involutive|].
  by apply Forall_rev.
Qed.

Lemma format_ojdate_compact (l : text) :
  digit_run 8 8 l -> _format_ojdate (InStr l) = Ok l.
Proof.
  intros [Hd Hl]. simpl. rewrite (strip_digits l Hd).
  destruct (re_match re_ymd l) as [[[y' mo'] da']|] eqn:E1.
  { apply re_match_Some in E1 as [rest H1]. apply re_ymd_spec in H1 as [_ [H1 _]].
    destruct (digits_no_dash _ _ _ Hd H1). }
  destruct (re_match re_dmy l) as [[[da' mo'] y']|] eqn:E2.
  { apply re_match_Some in E2 as [rest H1]. apply re_dmy_spec in H1 as [_ [H1 _]].
    destruct (digits_no_dash _ _ _ Hd H1). }
  assert (Hc : shape_compact l) by done.
  apply re_compact_matches in Hc as [x ->]. done.
Qed.

(** X9: normalizing is idempotent: a result of [_format_ojdate], for a
    string or for a date object whose year has four digits, is accepted by it
    and returned unchanged. *)
Theorem format_ojdate_idempotent x r :
  date_input_valid x ->
  _format_ojdate x = Ok r ->
  _format_ojdate (InStr r) = Ok r.
Proof.
  intros Hx H. apply format_ojdate_compact.
  by destruct (format_ojdate_result x r Hx H).
Qed.

Lemma format_ojdate_idempotent_witness :
  _format_ojdate (InStr sample_arabic_date) = Ok (codes "1009" ++ sample_arabic_2025) /\
  _format_ojdate (InStr (codes "1009" ++ sample_arabic_2025)) =
    Ok (codes "1009" ++ sample_arabic_2025).
Proof.
  assert (H : _format_ojdate (InStr sample_arabic_date) =
              Ok (codes "1009" ++ sample_arabic_2025))
    by (vm_compute; reflexivity).
  split; [exact H|]. exact (format_ojdate_idempotent (InStr sample_arabic_date) _ I H).
Defined.

Lemma lstrip_space_app (a l : text) : all_space a -> lstrip (a ++ l) = lstrip l.
Proof.
  induction 1 as [|c a Hc _ IH]; simpl; [done|]. by rewrite Hc.
Qed.

Lemma lstrip_all_space (a : text) : all_space a -> lstrip a = [].
Proof.
  intros H. rewrite <- (app_nil_r a). by rewrite lstrip_space_app.
Qed.

Lemma all_space_rev (b : text) : all_space b -> all_space (rev b).
Proof. apply Forall_rev. Qed.

Lemma lstrip_app_space (l b : text) :
  all_space b ->
  rev (lstrip (rev (lstrip (l ++ b)))) = rev (lstrip (rev (lstrip l))).
Proof.
  intros Hb. induction l as [|c l IH]; simpl.
  - by rewrite (lstrip_all_space b Hb).
  - destruct (is_space c) eqn:E; [done|].
    change (c :: l ++ b) with ((c :: l) ++ b).
    by rewrite rev_app_distr, (lstrip_space_app _ _ (all_space_rev b Hb)).
Qed.

Lemma strip_surrounded (a l b : text) :
  all_space a -> all_space b -> strip (a ++ l ++ b) = strip l.
Proof.
  intros Ha Hb. unfold strip. rewrite (lstrip_space_app a _ Ha).
  by apply lstrip_app_space.
Qed.

(** X10: white space around a date does not matter: the normalizer gives
    the same answer, a result or the error, with it and without it. *)
Theorem format_ojdate_ignores_surrounding_space (a s b : text) :
  all_space a -> all_space b ->
  _format_ojdate (InStr (a ++ s ++ b)) = _format_ojdate (InStr s).
Proof.
  intros Ha Hb. unfold _format_ojdate.
  by rewrite (strip_surrounded _ _ _ Ha Hb).
Qed.

Lemma format_ojdate_ignores_surrounding_space_witness :
  _format_ojdate (InStr (codes " " ++ codes "10-09-2025" ++ [nbsp])) =
  _format_ojdate (InStr (codes "10-09-2025")).
Proof.
  apply format_ojdate_ignores_surrounding_space;
    repeat constructor.
Defined.

(** * The scraper: which date is fetched, and how often a request is made *)

Lemma split_colons_cons c c' r :
  split_colons (c :: c' :: r) =
  if N.eqb c colon && N.eqb c' colon then Some ([], r)
  else match split_colons (c' :: r) with
       | Some (a, b) => Some (c :: a, b)
       | None => None
       end.
Proof. reflexivity. Qed.

Lemma split_colons_none l : no_colon l = true -> split_colons l = None.
Proof.
  induction l as [|c [|c' r] IH]; [done..|].
  intros H. rewrite split_colons_cons.
  change (no_colon (c :: c' :: r)) with (negb (N.eqb c colon) && no_colon (c' :: r)) in H.
  apply andb_prop in H as [Hc Hr]. apply negb_true_iff in Hc.
  by rewrite Hc, (IH Hr).
Qed.

Lemma split_colons_first a b :
  no_colon a = true -> split_colons (a ++ colon :: colon :: b) = Some (a, b).
Proof.
  induction a as [|c a IH]; [done|].
  intros H.
  change (no_colon (c :: a)) with (negb (N.eqb c colon) && no_colon a) in H.
  apply andb_prop in H as [Hc Hr]. apply negb_true_iff in Hc.
  specialize (IH Hr).
  destruct a as [|c' a].
  - simpl in *. by rewrite Hc.
  - rewrite <-!app_comm_cons in *. rewrite split_colons_cons, Hc, IH. done.
Qed.

Lemma try_format_compact x r :
  date_input_valid x -> try_format x = Some r -> digit_run 8 8 r.
Proof.
  unfold try_format. intros Hx H.
  destruct (_format_ojdate x) as [r'|] eqn:E; [|done]. injection H as ->.
  by destruct (format_ojdate_result x r Hx E).
Qed.

Lemma date_without_override_compact e :
  datetime.valid (scraper_today e) -> four_digit_year (scraper_today e) ->
  (forall x, config_ojDate e = Some x -> date_input_valid x) ->
  digit_run 8 8 (date_without_override e).
Proof.
  intros Ht H4 Hc. unfold date_without_override.
  pose proof (proj1 (strftime_dmY_compact _ Ht H4)) as Hd.
  destruct (config_ojDate e) as [x|] eqn:E; [|done].
  change (Some x ≫= try_format) with (try_format x).
  destruct (try_format x) as [r|] eqn:Er; [|done].
  apply (try_format_compact x); auto.
Qed.

Lemma choose_ojdate_plain e key :
  no_colon key = true ->
  choose_ojdate e key = (key, date_without_override e).
Proof.
  intros H. unfold choose_ojdate, date_without_override.
  rewrite (split_colons_none _ H). by destruct (config_ojDate e).
Qed.

Lemma try_format_empty : try_format (InStr []) = None.
Proof. reflexivity. Qed.

Lemma choose_ojdate_override e base d :
  no_colon base = true ->
  choose_ojdate e (base ++ colon :: colon :: d) =
  (base, default (date_without_override e) (try_format (InStr d))).
Proof.
  intros H. unfold choose_ojdate, date_without_override.
  rewrite (split_colons_first _ _ H).
  destruct d as [|c d].
  - rewrite try_format_empty. by destruct (config_ojDate e).
  - destruct (try_format (InStr (c :: d))); [done|]. by destruct (config_ojDate e).
Qed.

Lemma choose_ojdate_compact e key :
  datetime.valid (scraper_today e) -> four_digit_year (scraper_today e) ->
  (forall x, config_ojDate e = Some x -> date_input_valid x) ->
  digit_run 8 8 (choose_ojdate e key).2.
Proof.
  intros Ht H4 Hc. pose proof (date_without_override_compact e Ht H4 Hc) as Hd.
  unfold date_without_override in Hd. unfold choose_ojdate.
  destruct (split_colons key) as [[a b]|].
  - destruct b as [|c b]; [by destruct (config_ojDate e)|].
    destruct (try_format (InStr (c :: b))) as [r|] eqn:E.
    + by apply (try_format_compact (InStr (c :: b))).
    + by destruct (config_ojDate e).
  - by destruct (config_ojDate e).
Qed.

(** X11: [scrape_regulation_updates] always fetches a date key of eight
    decimal digits, when today's year has four digits.  A key without a
    colon takes the configured date when it formats and today's otherwise; a
    key [base::date] takes [date] when it formats and falls back in the same
    way when it does not, and the data is saved under [base].
    [check_for_updates], which the monitoring cycle calls, never uses an
    override. *)
Theorem scrape_date_selection e key :
  datetime.valid (scraper_today e) -> four_digit_year (scraper_today e) ->
  (forall x, config_ojDate e = Some x -> date_input_valid x) ->
  digit_run 8 8 (choose_ojdate e key).2 /\
  (no_colon key = true -> choose_ojdate e key = (key, date_without_override e)) /\
  (forall base d,
     no_colon base = true ->
     key = base ++ colon :: colon :: d ->
     choose_ojdate e key =
     (base, default (date_without_override e) (try_format (InStr d)))) /\
  check_for_updates e = {[ "eur-lex" := scrape_eurlex_daily e (date_without_override e) ]}.
Proof.
  intros Ht H4 Hc. split; [by apply choose_ojdate_compact|].
  split; [apply choose_ojdate_plain|].
  split; [intros base d Hb ->; by apply choose_ojdate_override|].
  unfold check_for_updates, scrape_regulation_updates.
  rewrite (choose_ojdate_plain e (codes "eur-lex")) by reflexivity. done.
Qed.

Lemma scrape_date_selection_witness :
  choose_ojdate sample_scraper_env (codes "eur-lex::2025-09-11") =
    (codes "eur-lex", codes "11092025") /\
  choose_ojdate sample_scraper_env (codes "eur-lex::11092025" ++ [nbsp]) =
    (codes "eur-lex", codes "11092025") /\
  choose_ojdate sample_scraper_env (codes "eur-lex::tomorrow") =
    (codes "eur-lex", codes "10092025").
Proof.
  assert (Ht : datetime.valid (scraper_today sample_scraper_env))
    by (repeat split; vm_compute; first [reflexivity | discriminate]).
  assert (H4 : four_digit_year (scraper_today sample_scraper_env))
    by (vm_compute; discriminate).
  assert (Hc : forall x, config_ojDate sample_scraper_env = Some x -> date_input_valid x)
    by (intros x [= <-]; exact I).
  split; [|split].
  - destruct (scrape_date_selection sample_scraper_env (codes "eur-lex::2025-09-11")
                Ht H4 Hc) as (_ & _ & H & _).
    rewrite (H (codes "eur-lex") (codes "2025-09-11") eq_refl eq_refl).
    vm_compute. reflexivity.
  - destruct (scrape_date_selection sample_scraper_env (codes "eur-lex::11092025" ++ [nbsp])
                Ht H4 Hc) as (_ & _ & H & _).
    rewrite (H (codes "eur-lex") (codes "11092025" ++ [nbsp]) eq_refl eq_refl).
    vm_compute. reflexivity.
  - destruct (scrape_date_selection sample_scraper_env (codes "eur-lex::tomorrow")
                Ht H4 Hc) as (_ & _ & H & _).
    rewrite (H (codes "eur-lex") (codes "tomorrow") eq_refl eq_refl).
    vm_compute. reflexivity.
Defined.

(** ** [_make_request] *)

Lemma make_request_unfold fuel max_retries net rc n :
  _make_request (S fuel) max_retries net rc n =
  let retry := _make_request fuel max_retries net (S rc) in
  let handler (n : nat) :=
    if (rc <? max_retries)%nat then retry n else (Raised, n) in
  let retry_in_try (n : nat) :=
    match retry n with
    | (Returned body, n') => (Returned body, n')
    | (Raised, n') => handler n'
    end in
  match net n with
  | Http200 body => (Returned body, S n)
  | Http429 (Some seconds) =>
      if seconds <? 0 then handler (S n) else retry_in_try (S n)
  | Http429 None => handler (S n)
  | HttpOther _ =>
      if (rc <? max_retries)%nat then retry_in_try (S n)
      else handler (S n)
  | HttpRaises => handler (S n)
  end.
Proof. reflexivity. Qed.

Lemma pow2_pos k : (1 <= 2 ^ k)%nat.
Proof. induction k; simpl; lia. Qed.

(** The budget of a call that has [k] retries left. *)
Lemma make_request_budget max_retries net :
  never_429 net ->
  forall fuel k rc n, (rc + k = max_retries)%nat -> (k < fuel)%nat ->
  forall r n', _make_request fuel max_retries net rc n = (r, n') ->
  (n < n' <= n + 2 ^ (k + 1) - 1)%nat /\
  (r = Raised -> n + k + 1 <= n')%nat /\
  (forall body, r = Returned body -> net (n' - 1)%nat = Http200 body).
Proof.
  intros H429. induction fuel as [|fuel IH]; intros k rc n Hk Hf r n'; [lia|].
  rewrite make_request_unfold. cbv zeta.
  pose proof (pow2_pos k) as Hp.
  assert (Hp2 : (2 ^ (k + 1) = 2 * 2 ^ k)%nat) by (rewrite Nat.add_1_r; reflexivity).
  destruct (net n) as [body|ra|st|] eqn:En.
  - intros [= <- <-]. split; [lia|]. split; [done|].
    intros b [= <-]. by replace (S n - 1)%nat with n by lia.
  - by destruct (H429 n ra).
  - destruct (rc <? max_retries)%nat eqn:Erc.
    + apply Nat.ltb_lt in Erc. destruct k as [|k]; [lia|].
      assert (Hp3 : (2 ^ (S k) = 2 * 2 ^ k)%nat) by reflexivity.
      pose proof (pow2_pos k) as Hp'.
      assert (Hp4 : (2 ^ (k + 1) = 2 * 2 ^ k)%nat) by (rewrite Nat.add_1_r; reflexivity).
      destruct (_make_request fuel max_retries net (S rc) (S n)) as [r1 n1] eqn:E1.
      apply (IH k) in E1 as (Hb1 & Hl1 & Hr1); [|lia..].
      destruct r1 as [b1|].
      * intros [= <- <-]. split; [lia|]. split; [done|]. exact Hr1.
      * intros E2. apply (IH k) in E2 as (Hb2 & Hl2 & Hr2); [|lia..].
        specialize (Hl1 eq_refl). split; [lia|]. split; [|exact Hr2].
        intros Hr. specialize (Hl2 Hr). lia.
    + apply Nat.ltb_ge in Erc. intros [= <- <-].
      split; [lia|]. split; [lia|]. done.
  - destruct (rc <? max_retries)%nat eqn:Erc.
    + apply Nat.ltb_lt in Erc. destruct k as [|k]; [lia|].
      assert (Hp3 : (2 ^ (S k) = 2 * 2 ^ k)%nat) by reflexivity.
      pose proof (pow2_pos k) as Hp'.
      assert (Hp4 : (2 ^ (k + 1) = 2 * 2 ^ k)%nat) by (rewrite Nat.add_1_r; reflexivity).
      intros E1. apply (IH k) in E1 as (Hb1 & Hl1 & Hr1); [|lia..].
      split; [lia|]. split; [|exact Hr1]. intros Hr. specialize (Hl1 Hr). lia.
    + apply Nat.ltb_ge in Erc. intros [= <- <-].
      split; [lia|]. split; [lia|]. done.
Qed.

(** Enough depth is enough: more of it changes nothing. *)
Lemma make_request_fuel max_retries net :
  never_429 net ->
  forall fuel fuel' rc n, (max_retries - rc < fuel)%nat -> (max_retries - rc < fuel')%nat ->
  _make_request fuel max_retries net rc n = _make_request fuel' max_retries net rc n.
Proof.
  intros H429. induction fuel as [|fuel IH]; intros [|fuel'] rc n Hf Hf'; [lia..|].
  rewrite !make_request_unfold. cbv zeta.
  destruct (net n) as [body|ra|st|] eqn:En; [done|by destruct (H429 n ra)| |].
  - destruct (rc <? max_retries)%nat eqn:Erc; [|done].
    apply Nat.ltb_lt in Erc.
    rewrite (IH fuel' (S rc) (S n)) by lia.
    destruct (_make_request fuel' max_retries net (S rc) (S n)) as [[b|] n1]; [done|].
    apply IH; lia.
  - destruct (rc <? max_retries)%nat eqn:Erc; [|done].
    apply Nat.ltb_lt in Erc. apply IH; lia.
Qed.

Lemma make_request_always_raises max_retries net :
  (forall i, net i = HttpRaises) ->
  forall fuel k rc n, (rc + k = max_retries)%nat -> (k < fuel)%nat ->
  _make_request fuel max_retries net rc n = (Raised, (n + k + 1)%nat).
Proof.
  intros Hn. induction fuel as [|fuel IH]; intros k rc n Hk Hf; [lia|].
  rewrite make_request_unfold. cbv zeta. rewrite Hn.
  destruct (rc <? max_retries)%nat eqn:Erc.
  - apply Nat.ltb_lt in Erc. destruct k as [|k]; [lia|].
    rewrite (IH k) by lia. f_equal. lia.
  - apply Nat.ltb_ge in Erc. f_equal. lia.
Qed.

Lemma make_request_always_status max_retries net :
  (forall i, exists st, net i = HttpOther st) ->
  forall fuel k rc n, (rc + k = max_retries)%nat -> (k < fuel)%nat ->
  _make_request fuel max_retries net rc n = (Raised, (n + 2 ^ (k + 1) - 1)%nat).
Proof.
  intros Hn. induction fuel as [|fuel IH]; intros k rc n Hk Hf; [lia|].
  rewrite make_request_unfold. cbv zeta. destruct (Hn n) as [st ->].
  pose proof (pow2_pos k) as Hp.
  destruct (rc <? max_retries)%nat eqn:Erc.
  - apply Nat.ltb_lt in Erc. destruct k as [|k]; [lia|].
    assert (Hp3 : (2 ^ (S k) = 2 * 2 ^ k)%nat) by reflexivity.
    pose proof (pow2_pos k) as Hp'.
    assert (Hp4 : (2 ^ (k + 1) = 2 * 2 ^ k)%nat) by (rewrite Nat.add_1_r; reflexivity).
    assert (Hp5 : (2 ^ (S k + 1) = 2 * 2 ^ (k + 1))%nat) by reflexivity.
    rewrite (IH k) by lia. rewrite (IH k) by lia. f_equal. lia.
  - apply Nat.ltb_ge in Erc. assert (k = 0)%nat as -> by lia. f_equal. simpl. lia.
Qed.

(** X12: against a server that never answers 429, [_make_request] makes
    at least one and at most [2 ^ (max_retries + 1) - 1] requests; what it
    returns is the body of the last request made, which had status 200; it
    gives up only after [max_retries + 1] requests or more; and the depth of
    the recursion does not matter beyond [max_retries + 1]. *)
Theorem make_request_budget_without_429 fuel max_retries net n r n' :
  never_429 net ->
  (max_retries < fuel)%nat ->
  _make_request fuel max_retries net 0 n = (r, n') ->
  (n < n' <= n + 2 ^ (max_retries + 1) - 1)%nat /\
  (r = Raised -> n + max_retries + 1 <= n')%nat /\
  (forall body, r = Returned body -> net (n' - 1)%nat = Http200 body) /\
  (forall fuel', (max_retries < fuel')%nat ->
     _make_request fuel' max_retries net 0 n = (r, n')).
Proof.
  intros H429 Hf E.
  destruct (make_request_budget max_retries net H429 fuel max_retries 0%nat n
              eq_refl Hf r n' E) as (H1 & H2 & H3).
  repeat split; try done; try lia.
  intros fuel' Hf'. rewrite <-E. apply make_request_fuel; [done|lia..].
Qed.

Lemma make_request_budget_without_429_witness :
  (0 < 3 <= 0 + 2 ^ (3 + 1) - 1)%nat /\
  sample_net_recovers 2 = Http200 "page".
Proof.
  assert (H429 : never_429 sample_net_recovers).
  { intros i r. unfold sample_net_recovers. by destruct (i <? 2)%nat. }
  destruct (make_request_budget_without_429 5 3 sample_net_recovers 0 (Returned "page") 3
              H429 ltac:(lia) eq_refl) as (H1 & _ & H3 & _).
  split; [exact H1|]. exact (H3 "page" eq_refl).
Defined.

(** X13: how often a failing address is requested.  When every request
    raises (a timeout, a refused connection), [_make_request] gives up after
    [max_retries + 1] requests; when every request is answered with a status
    other than 200 and 429, the retry inside the [try] and the retry of the
    [except] clause add up to [2 ^ (max_retries + 1) - 1] requests: 15 with
    the default of 3 retries. *)
Theorem persistent_failure_request_counts fuel max_retries net n :
  (max_retries < fuel)%nat ->
  ((forall i, net i = HttpRaises) ->
   _make_request fuel max_retries net 0 n = (Raised, (n + max_retries + 1)%nat)) /\
  ((forall i, exists st, net i = HttpOther st) ->
   _make_request fuel max_retries net 0 n =
   (Raised, (n + 2 ^ (max_retries + 1) - 1)%nat)).
Proof.
  intros Hf. split; intros Hn.
  - by apply make_request_always_raises.
  - by apply make_request_always_status.
Qed.

Lemma persistent_failure_request_counts_witness :
  _make_request 10 3 sample_net_timeout 0 0 = (Raised, 4%nat) /\
  _make_request 10 3 sample_net_500 0 0 = (Raised, 15%nat).
Proof.
  destruct (persistent_failure_request_counts 10 3 sample_net_timeout 0 ltac:(lia)) as [H1 _].
  destruct (persistent_failure_request_counts 10 3 sample_net_500 0 ltac:(lia)) as [_ H2].
  split.
  - exact (H1 (fun _ => eq_refl)).
  - exact (H2 (fun _ => ex_intro _ 500 eq_refl)).
Defined.

(** * The analyzer: the retry loop and what becomes of the answer *)

Lemma jdict_get_set_eq d k v : jdict_get (jdict_set d k v) k = Some v.
Proof.
  induction d as [|[k' v'] d IH]; simpl.
  - by rewrite String.eqb_refl.
  - destruct (String.eqb k' k) eqn:E; simpl; rewrite E; [done|exact IH].
Qed.

Lemma jdict_get_set_ne d k k' v :
  k <> k' -> jdict_get (jdict_set d k v) k' = jdict_get d k'.
Proof.
  intros Hne. induction d as [|[k0 v0] d IH]; simpl.
  - destruct (String.eqb k k') eqn:E; [|done]. by apply String.eqb_eq in E.
  - destruct (String.eqb k0 k) eqn:E; simpl.
    + apply String.eqb_eq in E as ->.
      destruct (String.eqb k k') eqn:E'; [|done]. by apply String.eqb_eq in E'.
    + by rewrite IH.
Qed.

Lemma jdict_set_keys d k v :
  (fst <$> jdict_set d k v) =
  if decide (k ∈ (fst <$> d)) then fst <$> d else (fst <$> d) ++ [k].
Proof.
  induction d as [|[k0 v0] d IH]; [done|]. simpl.
  destruct (String.eqb k0 k) eqn:E.
  - apply String.eqb_eq in E as ->. csimpl.
    rewrite decide_True; [done|]. apply list_elem_of_here.
  - csimpl. rewrite IH.
    assert (k0 <> k) by (intros ->; by rewrite String.eqb_refl in E).
    destruct (decide (k ∈ (fst <$> d))) as [Hin|Hin].
    + rewrite decide_True; [done|]. by apply list_elem_of_further.
    + rewrite decide_False; [done|]. rewrite elem_of_cons. intros [?|?]; congruence.
Qed.

(** X14: [_call_deepseek_api] posts at least once and at most three
    times; it has slept one second before the second post and two more before
    the third, and never after the last; every attempt before the last one
    failed in a way the loop retries, and the loop stops early only on an
    attempt it does not retry; it returns a value exactly when its last post
    was answered with status 200 and a body that decodes, and that body is
    the value. *)
Theorem api_call_attempts net :
  (1 <= api_posts (_call_deepseek_api net) <= 3)%nat /\
  api_slept (_call_deepseek_api net) =
    take (api_posts (_call_deepseek_api net) - 1) [1; 2] /\
  (forall j, (j < api_posts (_call_deepseek_api net) - 1)%nat -> retryable (net j)) /\
  ((api_posts (_call_deepseek_api net) < 3)%nat ->
   ~ retryable (net (api_posts (_call_deepseek_api net) - 1)%nat)) /\
  (forall v, api_result (_call_deepseek_api net) = Some v <->
             net (api_posts (_call_deepseek_api net) - 1)%nat = Api200 (Some v)).
Proof.
  unfold _call_deepseek_api. cbn [api_attempts Nat.ltb Nat.leb Nat.sub].
  destruct (net 0%nat) as [[v0|]|s0| |] eqn:E0;
    cbn [api_attempts Nat.ltb Nat.leb Nat.sub api_posts api_slept api_result app take];
    try (destruct (net 1%nat) as [[v1|]|s1| |] eqn:E1;
         cbn [api_attempts Nat.ltb Nat.leb Nat.sub api_posts api_slept api_result app take];
         try (destruct (net 2%nat) as [[v2|]|s2| |] eqn:E2;
              cbn [api_attempts Nat.ltb Nat.leb Nat.sub api_posts api_slept api_result
                   app take]));
    (split; [lia|]); (split; [reflexivity|]);
    (split; [intros [|[|j]] Hj; try lia; rewrite ?E0, ?E1; exact I|]);
    (split; [intros Hp; try lia; rewrite ?E0, ?E1, ?E2; simpl; tauto|]);
    intros v; rewrite ?E0, ?E1, ?E2; split; congruence.
Qed.

(** X15: when the model answers with a JSON object, [analyze_compliance]
    returns that object with two entries set: [analysis_date] is the time of
    the call and [business_info] the input, whatever the model put under
    these names; every other key is returned as the model gave it, present or
    absent, and the keys the model gave keep their order. *)
Theorem analysis_keeps_answer_keys e business_info response content d :
  call_deepseek_api e = Some response ->
  response_content response = inr (JStr content) ->
  json_loads e content = Some (JDict d) ->
  exists r,
    analyze_compliance e business_info = Ok r /\
    jdict_get r "analysis_date" = Some (JStr (datetime.isoformat (analysis_time e))) /\
    jdict_get r "business_info" = Some (JDict business_info) /\
    (forall k, k <> "analysis_date" -> k <> "business_info" ->
               jdict_get r k = jdict_get d k) /\
    (fst <$> d) `prefix_of` (fst <$> r).
Proof.
  intros Hc Hr Hl. eexists. split.
  { unfold analyze_compliance, analyze_try. rewrite Hc, Hr, Hl. reflexivity. }
  split; [|split; [|split]].
  - rewrite jdict_get_set_ne by done. apply jdict_get_set_eq.
  - apply jdict_get_set_eq.
  - intros k H1 H2. rewrite !jdict_get_set_ne by done. done.
  - rewrite !jdict_set_keys.
    repeat match goal with |- context [decide ?P] => destruct (decide P) end;
      first [done | by eexists | rewrite <-app_assoc; by eexists].
Qed.

Lemma analysis_keeps_answer_keys_witness :
  exists r,
    analyze_compliance sample_object_env [] = Ok r /\
    jdict_get r "analysis_date" =
      Some (JStr (datetime.isoformat (analysis_time sample_object_env))) /\
    jdict_get r "overall_compliance_score" = Some (JInt 70) /\
    jdict_get r "action_items" = None.
Proof.
  destruct (analysis_keeps_answer_keys sample_object_env [] (sample_response "{...}") "{...}"
              [("analysis_date", JStr "yesterday"); ("overall_compliance_score", JInt 70)]
              eq_refl eq_refl eq_refl) as (r & H1 & H2 & _ & H4 & _).
  exists r. split; [exact H1|]. split; [exact H2|]. split.
  - by rewrite (H4 "overall_compliance_score").
  - by rewrite (H4 "action_items").
Defined.

(** X16: an answer that decodes as JSON but is not an object (a list, a
    number, a string, [null]), and a content that is not a string, end in the
    outer [except]: the result is the error result, with empty requirement
    and gap lists and without the raw answer. *)
Theorem non_object_answer_is_an_error e business_info response c :
  call_deepseek_api e = Some response ->
  response_content response = inr c ->
  (forall content, c = JStr content ->
     exists v, json_loads e content = Some v /\ is_object v = false) ->
  exists x,
    analyze_compliance e business_info = Ok (error_result e x) /\
    jdict_get (error_result e x) "raw_response" = None /\
    jdict_get (error_result e x) "regulatory_requirements" = Some (JList []) /\
    jdict_get (error_result e x) "business_info" = None.
Proof.
  intros Hc Hr Hv. unfold analyze_compliance, analyze_try. rewrite Hc, Hr.
  destruct c as [|b|n|content|l|d]; try (by exists NotAString).
  destruct (Hv content eq_refl) as (v & -> & Hobj).
  destruct v; try discriminate; by exists NoItemAssignment.
Qed.

Lemma non_object_answer_is_an_error_witness :
  exists x,
    analyze_compliance sample_list_env [] = Ok (error_result sample_list_env x) /\
    jdict_get (error_result sample_list_env x) "raw_response" = None.
Proof.
  destruct (non_object_answer_is_an_error sample_list_env [] (sample_response "[]")
              (JStr "[]") eq_refl eq_refl) as (x & H1 & H2 & _).
  - intros content [= <-]. exists (JList []). split; reflexivity.
  - exists x. split; [exact H1|exact H2].
Defined.

(** X17: the analyzer behind its retry loop.  When none of the first
    three posts is answered with status 200 and a body that decodes, and none
    raises an exception outside the ones the loop catches, the analysis is
    the error result; by then three posts were made and three seconds
    slept. *)
Theorem api_down_gives_error_result net loads t business_info :
  (forall j, (j < 3)%nat -> retryable (net j)) ->
  analyze_compliance (analyzer_behind net loads t) business_info =
    Ok (error_result (analyzer_behind net loads t) ApiError) /\
  api_posts (_call_deepseek_api net) = 3%nat /\
  api_slept (_call_deepseek_api net) = [1; 2].
Proof.
  intros H.
  pose proof (H 0%nat ltac:(lia)) as H0.
  pose proof (H 1%nat ltac:(lia)) as H1.
  pose proof (H 2%nat ltac:(lia)) as H2.
  unfold analyze_compliance, analyze_try, analyzer_behind, _call_deepseek_api.
  cbn [api_attempts Nat.ltb Nat.leb Nat.sub call_deepseek_api].
  destruct (net 0%nat) as [[v0|]|s0| |]; try done;
    destruct (net 1%nat) as [[v1|]|s1| |]; try done;
    destruct (net 2%nat) as [[v2|]|s2| |]; try done.
Qed.

Lemma api_down_gives_error_result_witness :
  api_posts (_call_deepseek_api sample_api_down) = 3%nat /\
  api_slept (_call_deepseek_api sample_api_down) = [1; 2].
Proof.
  destruct (api_down_gives_error_result sample_api_down sample_loads sample_noon [])
    as (_ & H1 & H2).
  - intros j _. exact I.
  - split; [exact H1|exact H2].
Defined.

(** * Loading the configuration *)

Lemma jdict_get_in d k : k ∈ (fst <$> d) -> is_Some (jdict_get d k).
Proof.
  induction d as [|[k' v'] d IH]; csimpl.
  - by intros ?%elem_of_nil.
  - intros [->|H]%elem_of_cons.
    + rewrite String.eqb_refl. eauto.
    + destruct (String.eqb k' k); eauto.
Qed.

Lemma jdict_set_prefix d k v : (fst <$> d) `prefix_of` (fst <$> jdict_set d k v).
Proof.
  rewrite jdict_set_keys. destruct (decide _); [done|]. by eexists.
Qed.

(** What the loop makes of a dictionary. *)
Lemma merge_defaults_dict defaults : forall d,
  exists c,
    merge_defaults defaults (JDict d) = Some (JDict c) /\
    (forall k, jdict_get c k =
               match jdict_get d k with
               | Some v => Some v
               | None => jdict_get defaults k
               end) /\
    (fst <$> d) `prefix_of` (fst <$> c).
Proof.
  induction defaults as [|[k0 v0] defaults IH]; intros d.
  - exists d. split; [done|]. split; [|done]. intros k. by destruct (jdict_get d k).
  - simpl. destruct (jdict_get d k0) as [v|] eqn:E0.
    + rewrite bool_decide_true by eauto.
      destruct (IH d) as (c & Hc & Hget & Hpre). exists c.
      split; [done|]. split; [|done].
      intros k. rewrite Hget. destruct (jdict_get d k) eqn:Ek; [done|].
      destruct (String.eqb k0 k) eqn:E; [|done].
      apply String.eqb_eq in E as ->. congruence.
    + rewrite bool_decide_false by (intros [? ?]; congruence).
      destruct (IH (jdict_set d k0 v0)) as (c & Hc & Hget & Hpre). exists c.
      split; [done|]. split.
      * intros k. rewrite Hget. destruct (String.eqb k0 k) eqn:E.
        -- apply String.eqb_eq in E as <-. by rewrite jdict_get_set_eq, E0.
        -- rewrite jdict_get_set_ne; [done|]. intros ->. by rewrite String.eqb_refl in E.
      * etrans; [apply (jdict_set_prefix d k0 v0)|done].
Qed.

(** A dictionary that has the default keys is left as it is. *)
Lemma merge_defaults_present defaults c :
  (forall k, k ∈ (fst <$> defaults) -> is_Some (jdict_get c k)) ->
  merge_defaults defaults (JDict c) = Some (JDict c).
Proof.
  induction defaults as [|[k0 v0] defaults IH]; intros H; [done|].
  simpl. rewrite bool_decide_true by (apply H; csimpl; apply list_elem_of_here).
  apply IH. intros k Hk. apply H. csimpl. by apply list_elem_of_further.
Qed.

Lemma py_in_set d k k0 v0 :
  py_in k (JDict d) = Some true -> py_in k (JDict (jdict_set d k0 v0)) = Some true.
Proof.
  simpl. intros [= H]. apply bool_decide_eq_true in H as [v Hv].
  f_equal. apply bool_decide_eq_true.
  destruct (String.eqb k0 k) eqn:E.
  - apply String.eqb_eq in E as ->. rewrite jdict_get_set_eq. eauto.
  - rewrite jdict_get_set_ne; [eauto|]. intros ->. by rewrite String.eqb_refl in E.
Qed.

Lemma merge_defaults_keeps defaults : forall v c k,
  merge_defaults defaults v = Some c ->
  py_in k v = Some true -> py_in k c = Some true.
Proof.
  induction defaults as [|[k0 v0] defaults IH]; intros v c k; simpl.
  - by intros [= <-].
  - destruct (py_in k0 v) as [[|]|] eqn:E0; [apply IH| |done].
    destruct v as [| | | | |d]; try done.
    intros Hm Hk. eapply IH; [exact Hm|]. by apply py_in_set.
Qed.

Lemma merge_defaults_has_keys defaults : forall v c k,
  merge_defaults defaults v = Some c ->
  k ∈ (fst <$> defaults) -> py_in k c = Some true.
Proof.
  induction defaults as [|[k0 v0] defaults IH]; intros v c k; csimpl.
  - by intros _ ?%elem_of_nil.
  - destruct (py_in k0 v) as [[|]|] eqn:E0; [| |done].
    + intros Hm [->|Hk]%elem_of_cons; [|by eapply IH].
      by eapply merge_defaults_keeps.
    + destruct v as [| | | | |d]; try done.
      intros Hm [->|Hk]%elem_of_cons; [|by eapply IH].
      eapply merge_defaults_keeps; [exact Hm|].
      simpl. f_equal. apply bool_decide_eq_true. rewrite jdict_get_set_eq. eauto.
Qed.

(** X18: the merge with the defaults is shallow.  For a configuration
    file that holds an object, [_load_config] returns an object in which a
    key of the file has the file's value, whole, a key missing from the file
    has the default value, and the keys of the file come first, in their
    order; loading that result again returns it unchanged. *)
Theorem load_config_shallow_merge default_config d :
  exists c,
    _load_config default_config (Holds (JDict d)) = JDict c /\
    (forall k, jdict_get c k =
               match jdict_get d k with
               | Some v => Some v
               | None => jdict_get default_config k
               end) /\
    (fst <$> d) `prefix_of` (fst <$> c) /\
    _load_config default_config (Holds (JDict c)) = JDict c.
Proof.
  destruct (merge_defaults_dict default_config d) as (c & Hc & Hget & Hpre).
  exists c. unfold _load_config. rewrite Hc. split; [done|]. split; [done|].
  split; [done|]. rewrite merge_defaults_present; [done|].
  intros k Hk. rewrite Hget. destruct (jdict_get d k); [eauto|].
  by apply jdict_get_in.
Qed.

(** X19: whatever the configuration file is, every key of the defaults
    is in the configuration that [_load_config] returns; and without a file,
    with one that does not load, and with one that holds a number, a boolean
    or [null], the configuration is the defaults. *)
Theorem load_config_has_default_keys default_config f k :
  k ∈ (fst <$> default_config) ->
  py_in k (_load_config default_config f) = Some true /\
  (f = Missing \/ f = Unreadable \/
   (exists v, f = Holds v /\ py_in k v = None) ->
   _load_config default_config f = JDict default_config).
Proof.
  intros Hk.
  assert (Hd : py_in k (JDict default_config) = Some true).
  { simpl. f_equal. apply bool_decide_eq_true. by apply jdict_get_in. }
  split.
  - destruct f as [| |v]; [done..|]. simpl.
    destruct (merge_defaults default_config v) as [c|] eqn:E; [|done].
    simpl. by eapply merge_defaults_has_keys.
  - intros [->|[->|(v & -> & Hv)]]; [done..|].
    simpl. destruct default_config as [|[k0 v0] rest]; [by apply elem_of_nil in Hk|].
    destruct v; try done.
Qed.

Lemma load_config_has_default_keys_witness :
  py_in "max_retries" (_load_config scraper_default_config (Holds (JDict []))) = Some true /\
  _load_config scraper_default_config (Holds (JInt 0)) = JDict scraper_default_config.
Proof.
  assert (Hk : "max_retries" ∈ (fst <$> scraper_default_config)).
  { csimpl. do 2 apply list_elem_of_further. apply list_elem_of_here. }
  split.
  - exact (proj1 (load_config_has_default_keys scraper_default_config (Holds (JDict []))
                    "max_retries" Hk)).
  - apply (proj2 (load_config_has_default_keys scraper_default_config (Holds (JInt 0))
                    "max_retries" Hk)).
    right. right. by exists (JInt 0).
Defined.

(** X20: the alert threshold that the monitoring system reads from its
    configuration.  With defaults whose [monitoring] entry sets the threshold
    to 3, a file without a [monitoring] entry gives 3 through the merged
    default; a file whose [monitoring] object has no threshold gives 3 too,
    through the default of the lookup, since the merge does not complete the
    object; a file that sets it gives its value; and a [monitoring] entry
    that is not an object makes the lookup raise [AttributeError]. *)
Theorem alert_threshold_of_config default_config m0 d :
  jdict_get default_config "monitoring" = Some (JDict m0) ->
  jdict_get m0 "alert_threshold" = Some (JInt 3) ->
  config_alert_threshold (_load_config default_config (Holds (JDict d))) =
    match jdict_get d "monitoring" with
    | None => inr (JInt 3)
    | Some (JDict m) => inr (default (JInt 3) (jdict_get m "alert_threshold"))
    | Some _ => inl AttributeError
    end /\
  config_alert_threshold (_load_config default_config Missing) = inr (JInt 3) /\
  config_alert_threshold (_load_config default_config Unreadable) = inr (JInt 3).
Proof.
  intros Hm Ht.
  assert (Hdef : config_alert_threshold (JDict default_config) = inr (JInt 3)).
  { unfold config_alert_threshold, get_attr. rewrite Hm. simpl. by rewrite Ht. }
  split; [|done].
  destruct (merge_defaults_dict default_config d) as (c & Hc & Hget & _).
  unfold _load_config. rewrite Hc. simpl.
  unfold config_alert_threshold, get_attr. rewrite (Hget "monitoring").
  destruct (jdict_get d "monitoring") as [v|].
  - simpl. by destruct v.
  - rewrite Hm. simpl. by rewrite Ht.
Qed.

Lemma alert_threshold_of_config_witness :
  config_alert_threshold (_load_config sample_defaults (Holds (JDict sample_config_file))) =
    inr (JInt 3) /\
  jdict_get sample_config_file "monitoring" = Some (JDict [("check_interval_hours", JInt 6)]).
Proof.
  destruct (alert_threshold_of_config sample_defaults
              [("check_interval_hours", JInt 24); ("alert_threshold", JInt 3)]
              sample_config_file eq_refl eq_refl) as [H _].
  split; [exact H|reflexivity].
Defined.
